(** * MakiFlow: the SSD model's anchors, mining losses, training driver,
      and the gradient-descent class balancer

    Shallow embedding of
      - [makiflow/models/ssd/ssd_model.py]  (class [SSDModel])
      - [makiflow/augmentation/segmentation/balancing/gd_balancer.py]
        (class [GDBalancer])

    Conventions of the embedding.
      - Python [int]s that are tensor dimensions or loop bounds are [nat];
        integers that may be negative are [Z].
      - numpy / TensorFlow floating-point numbers are idealised as exact
        rationals [Q]; a division whose divisor is zero yields a non-finite
        value, written [None] in [tfloat := option Q].  Rounding error of
        binary floating point is outside the model.
      - Python exceptions are values of an error type; a function that may
        raise returns a [result]. *)

From Stdlib Require Import String.
From Stdlib Require Import List ZArith QArith Qminmax Qround Qabs.
From Stdlib Require Import Lia Lqa Bool Permutation Sorted Arith.
Import ListNotations.

Set Implicit Arguments.

(* ------------------------------------------------------------------ *)
(** ** Python-level results and exceptions *)

Module Py.

(** The exception classes that the modelled code can meet. *)
Inductive pyerr : Type :=
| ZeroDivisionError
| ValueError
| IndexError
| AttributeError
| InvalidArgumentError.

Inductive result (A : Type) : Type :=
| Ok (a : A)
| Err (e : pyerr).

Arguments Ok {A} a.
Arguments Err {A} e.

Definition bind {A B : Type} (r : result A) (k : A -> result B) : result B :=
  match r with
  | Ok a => k a
  | Err e => Err e
  end.

(** [for x in xs: acc = body(acc, x)] where the body may raise. *)
Fixpoint for_each {A S : Type} (xs : list A) (body : S -> A -> result S)
         (acc : S) : result S :=
  match xs with
  | [] => Ok acc
  | x :: xs' => bind (body acc x) (for_each xs' body)
  end.

(** [xs[i]] on a Python list or numpy array with a non-negative index. *)
Definition getitem {A : Type} (xs : list A) (i : nat) : result A :=
  match nth_error xs i with
  | Some a => Ok a
  | None => Err IndexError
  end.

(** [np.vstack(blocks)]: raises [ValueError] on an empty sequence. *)
Definition vstack {A : Type} (blocks : list (list A)) : result (list A) :=
  match blocks with
  | [] => Err ValueError
  | _ => Ok (concat blocks)
  end.

(** [range(n)] *)
Definition range (n : nat) : list nat := seq 0 n.

End Py.

Import Py.

Notation "x <- c1 ;; c2" := (Py.bind c1 (fun x => c2))
  (at level 61, c1 at next level, right associativity).

(** [float(n)] for a non-negative Python int. *)
Definition Qnat (n : nat) : Q := inject_Z (Z.of_nat n).

(* ------------------------------------------------------------------ *)
(** ** Default boxes (anchors) of the SSD model *)

Module Anchors.

Local Open Scope Q_scope.

(** One row of a [(n, 4)] numpy array. *)
Record box : Type := mk_box { b0 : Q; b1 : Q; b2 : Q; b3 : Q }.

Definition zero_box : box := mk_box 0 0 0 0.

(** Componentwise numeric equality of two rows. *)
Definition box_eq (a b : box) : Prop :=
  b0 a == b0 b /\ b1 a == b1 b /\ b2 a == b2 b /\ b3 a == b3 b.

Definition box_eqb (a b : box) : bool :=
  Qeq_bool (b0 a) (b0 b) && Qeq_bool (b1 a) (b1 b) &&
  Qeq_bool (b2 a) (b2 b) && Qeq_bool (b3 a) (b3 b).

(** [boxes[idx] = row] for an index that the array has; numpy raises on
    other indices, which the generator never produces (see
    [shape_boxes_spec]); here the array is then left as it is. *)
Fixpoint set_row (boxes : list box) (idx : nat) (row : box) : list box :=
  match boxes, idx with
  | [], _ => []
  | _ :: rest, O => row :: rest
  | b :: rest, S idx' => b :: set_row rest idx' row
  end.

(** A detector block as the model reads it: [dc.get_feature_map_shape()]
    gives [(batch, width, height, maps)], [dc.get_dboxes()] the list of
    shape ratios. *)
Record detector : Type := mk_detector {
  fmap_width : nat;
  fmap_height : nat;
  get_dboxes : list (Q * Q)
}.

Section Generator.

Variables (image_width image_height width height : nat).

Definition width_per_cell : Q := Qnat image_width / Qnat width.
Definition height_per_cell : Q := Qnat image_height / Qnat height.

(** The four assignments of the innermost loop body. *)
Definition cell_box (w h : Q) (i j : nat) : box :=
  let current_height := Qnat i * height_per_cell in
  let current_width := Qnat j * width_per_cell in
  mk_box (current_width + width_per_cell / 2)
         (current_height + height_per_cell / 2)
         (width_per_cell * w)
         (height_per_cell * h).

(** [for j in range(width): boxes[i * width + j] = ...] *)
Definition fill_row (w h : Q) (i : nat) (boxes : list box) : list box :=
  fold_left (fun bs j => set_row bs (i * width + j)%nat (cell_box w h i j))
            (range width) boxes.

(** [boxes = np.zeros((box_count, 4)); for i in range(height): ...] *)
Definition shape_boxes (w h : Q) : list box :=
  fold_left (fun bs i => fill_row w h i bs)
            (range height)
            (repeat zero_box (width * height)).

(** The same boxes written without the array: row after row, and in a
    row column after column (see [shape_boxes_spec]). *)
Definition grid (w h : Q) (rows : nat) : list box :=
  concat (map (fun i => map (cell_box w h i) (range width)) (range rows)).

(** [for w, h in dboxes: ...; boxes_list.append(boxes)] *)
Definition boxes_list (dboxes : list (Q * Q)) : list (list box) :=
  map (fun wh => shape_boxes (fst wh) (snd wh)) dboxes.

(** [_default_box_generator]: the two true divisions raise on a zero
    feature-map dimension, [np.vstack] on an empty shape list. *)
Definition _default_box_generator (dboxes : list (Q * Q))
  : result (list box) :=
  if (width =? 0)%nat then Err ZeroDivisionError
  else if (height =? 0)%nat then Err ZeroDivisionError
  else vstack (boxes_list dboxes).

End Generator.

(** [(x, y, w, h) -----> (x1, y1, x2, y2)] *)
Definition to_corners (dbox : box) : box :=
  mk_box (b0 dbox - b2 dbox / 2)
         (b1 dbox - b3 dbox / 2)
         (b0 dbox + b2 dbox / 2)
         (b1 dbox + b3 dbox / 2).

(** Python's built-in [max(a, b)] and [min(a, b)]: the first argument
    wins unless the second is strictly greater (smaller). *)
Definition py_max (a b : Q) : Q := if Qle_bool b a then a else b.
Definition py_min (a b : Q) : Q := if Qle_bool a b then a else b.

(** One iteration of [_correct_default_boxes]. *)
Definition correct_box (max_x max_y : nat) (d : box) : box :=
  mk_box (py_max 0 (b0 d)) (py_max 0 (b1 d))
         (py_min (Qnat max_x) (b2 d)) (py_min (Qnat max_y) (b3 d)).

Definition _correct_default_boxes (max_x max_y : nat) (dboxes : list box)
  : list box :=
  map (correct_box max_x max_y) dboxes.

(** The attributes of [SSDModel] that the anchor code reads and writes.
    [input_width], [input_height] are [input_shape[1]], [input_shape[2]]. *)
Record ssd_model : Type := mk_ssd {
  input_width : nat;
  input_height : nat;
  dcs : list detector;
  dc_block_feature_map_sizes : list (nat * nat);
  default_boxes_wh : list box;
  default_boxes : list box;
  total_predictions : nat
}.

(** [_generate_default_boxes], as run by the constructor. *)
Definition _generate_default_boxes (iw ih : nat) (ds : list detector)
  : result ssd_model :=
  per_block <- for_each ds
      (fun acc dc =>
         bs <- _default_box_generator iw ih (fmap_width dc) (fmap_height dc)
                                      (get_dboxes dc) ;;
         Ok (fst acc ++ [(fmap_width dc, fmap_height dc)], snd acc ++ [bs]))
      ([], []) ;;
  wh <- vstack (snd per_block) ;;
  let corners := map to_corners wh in
  let corrected := _correct_default_boxes iw ih corners in
  Ok (mk_ssd iw ih ds (fst per_block) wh corrected (length corrected)).

(** The boxes that the generator returns for one detector block, and how
    many they are. *)
Definition block_boxes (iw ih : nat) (dc : detector) : list box :=
  concat (boxes_list iw ih (fmap_width dc) (fmap_height dc) (get_dboxes dc)).

Definition block_size (dc : detector) : nat :=
  (fmap_width dc * fmap_height dc * length (get_dboxes dc))%nat.

(** A detector block on which the generator does not raise. *)
Definition valid_detector (dc : detector) : Prop :=
  (0 < fmap_width dc)%nat /\ (0 < fmap_height dc)%nat /\ get_dboxes dc <> [].

(** [get_dbox] *)
Definition get_dbox (m : ssd_model) (dc_block_ind dbox_category x_pos y_pos : nat)
  : result box :=
  pass1 <- for_each (range dc_block_ind)
      (fun acc i =>
         sz <- getitem (dc_block_feature_map_sizes m) i ;;
         dc <- getitem (dcs m) i ;;
         Ok (acc + fst sz * snd sz * length (get_dboxes dc))%nat)
      0%nat ;;
  pass2 <- for_each (range dbox_category)
      (fun acc _ =>
         sz <- getitem (dc_block_feature_map_sizes m) dc_block_ind ;;
         Ok (acc + fst sz * snd sz)%nat)
      pass1 ;;
  sz <- getitem (dc_block_feature_map_sizes m) dc_block_ind ;;
  let pass3 := (pass2 + fst sz * x_pos)%nat in
  let pass4 := (pass3 + y_pos)%nat in
  getitem (default_boxes m) pass4.

(** The end-to-end scenario of the specification: one block with a
    2 x 2 feature map and the single shape (1, 1), on a 4 x 4 image. *)
Definition scenario : list detector := [mk_detector 2 2 [(1, 1)]].

End Anchors.

(* ------------------------------------------------------------------ *)
(** ** Loss core and the three hard-negative-mining losses *)

Module Loss.

Local Open Scope Q_scope.

(** A scalar produced by a float division: [None] is a non-finite value
    ([nan], [inf]).  TensorFlow's float division raises nothing. *)
Definition tfloat : Type := option Q.

Definition matrix : Type := list (list Q).

(** [a / b] on float tensors, for a finite divisor. *)
Definition tf_div (a : tfloat) (b : Q) : tfloat :=
  match a with
  | Some x => if Qeq_bool b 0 then None else Some (x / b)
  | None => None
  end.

Definition tf_add (a b : tfloat) : tfloat :=
  match a, b with
  | Some x, Some y => Some (x + y)
  | _, _ => None
  end.

Definition tf_mul (a b : tfloat) : tfloat :=
  match a, b with
  | Some x, Some y => Some (x * y)
  | _, _ => None
  end.

(** [tf.less(a, b)] on finite scalars. *)
Definition tf_less (a b : Q) : bool := negb (Qle_bool b a).

(** [tf.where(condition, x, y)] on scalars: a selection, so a non-finite
    value in the branch that is not taken does not reach the result. *)
Definition tf_where (condition : bool) (x y : tfloat) : tfloat :=
  if condition then x else y.

Definition reduce_sum_vec (v : list Q) : Q := fold_right Qplus 0 v.

(** [tf.reduce_sum] over every axis. *)
Definition reduce_sum (m : matrix) : Q := reduce_sum_vec (concat m).

Definition reduce_sum3 (t : list matrix) : Q := reduce_sum (concat t).

(** Sum of scalars that may be non-finite. *)
Definition reduce_sum_tfloat (v : list tfloat) : tfloat :=
  fold_right tf_add (Some 0) v.

(** Elementwise binary operation on two tensors of one shape. *)
Fixpoint map2 {A B C : Type} (f : A -> B -> C) (xs : list A) (ys : list B)
  : list C :=
  match xs, ys with
  | x :: xs', y :: ys' => f x y :: map2 f xs' ys'
  | _, _ => []
  end.

Definition mat_mul_elem (a b : matrix) : matrix := map2 (map2 Qmult) a b.
Definition mat_sub (a b : matrix) : matrix := map2 (map2 Qminus) a b.

(** [tf.ones(shape=[rows, cols])] *)
Definition tf_ones (rows cols : nat) : matrix := repeat (repeat 1 cols) rows.

(** Shape test of a rank-2 tensor. *)
Definition has_shape (rows cols : nat) (m : matrix) : bool :=
  (length m =? rows)%nat && forallb (fun r => (length r =? cols)%nat) m.

(** Every entry of a mask is [0.0] or [1.0]. *)
Definition binary_mask (m : matrix) : bool :=
  forallb (forallb (fun x => Qeq_bool x 0 || Qeq_bool x 1)) m.

(** Truncation toward zero. *)
Definition Qtrunc (q : Q) : Z := Z.quot (Qnum q) (Z.pos (Qden q)).

(** [tf.cast(x, dtype=tf.int32)] of a float: truncation toward zero; the
    result is unspecified ([None]) for a non-finite value or one outside
    the 32-bit range. *)
Definition cast_int32 (x : tfloat) : option Z :=
  match x with
  | Some q =>
      let z := Qtrunc q in
      if ((- 2 ^ 31 <=? z) && (z <? 2 ^ 31))%Z then Some z else None
  | None => None
  end.

Fixpoint insert_desc (x : Q) (l : list Q) : list Q :=
  match l with
  | [] => [x]
  | y :: r => if Qle_bool y x then x :: l else y :: insert_desc x r
  end.

Definition sort_desc (l : list Q) : list Q := fold_right insert_desc [] l.

(** A list in which no entry exceeds an earlier one. *)
Definition descending : list Q -> Prop :=
  StronglySorted (fun a b => b <= a).

(** [sel] holds [k] entries of [row], none smaller than an entry of
    [row] that it leaves out. *)
Definition top_of (k : Z) (row sel : list Q) : Prop :=
  length sel = Z.to_nat k /\
  exists rest,
    Permutation (sel ++ rest) row /\
    forall x y, In x sel -> In y rest -> y <= x.

(** [tf.nn.top_k(input, k)[0]] on a vector, after the library's contract:
    the [k] largest entries in descending order; [k] must be between 0
    and the length of the vector. *)
Definition tf_top_k (input : list Q) (k : option Z) : result (list Q) :=
  match k with
  | None => Err InvalidArgumentError
  | Some k =>
      if ((k <? 0) || (Z.of_nat (length input) <? k))%Z
      then Err InvalidArgumentError
      else Ok (firstn (Z.to_nat k) (sort_desc input))
  end.

(** [tf.scan(fn, elems, initializer)]: the list of successive
    accumulator values. *)
Fixpoint tf_scan {A B : Type} (fn : B -> A -> result B) (elems : list A)
         (initializer : B) : result (list B) :=
  match elems with
  | [] => Ok []
  | e :: rest =>
      b <- fn initializer e ;;
      bs <- tf_scan fn rest b ;;
      Ok (b :: bs)
  end.

(** [tf.reshape(t, shape=[n])] of a rank-2 tensor. *)
Definition tf_reshape_flat (m : matrix) (n : nat) : result (list Q) :=
  if (length (concat m) =? n)%nat then Ok (concat m)
  else Err InvalidArgumentError.

(** The values that one [session.run] of a training step sees.
    [ce_loss] is the value of [self._ce_loss] and [train_confidences]
    the value of [tf.nn.softmax(self._train_confidences_ish)]: both come
    out of library primitives built on [exp] and [log] and are taken as
    given. *)
Record feed : Type := mk_feed {
  ce_loss : matrix;
  train_confidences : list matrix;
  train_offsets : list matrix;
  input_labels : list (list nat);
  input_loc_loss_masks : matrix;
  input_loc : list matrix;
  loc_loss_weight : Q
}.

Section Graph.

(** [self.batch_sz], [self.total_predictions], [self._num_classes]. *)
Variables (batch_sz total_predictions num_classes : nat).

(** [MakiModel._build_final_loss], defined by the base class: the
    post-processor of the training loss (it adds the regularisation
    terms). *)
Variable _build_final_loss : tfloat -> tfloat.

(** [tf.pow] on scalars. *)
Variable tf_pow : Q -> Q -> Q.

Variable fd : feed.

Definition _num_positives : Q := reduce_sum (input_loc_loss_masks fd).

(** Smooth L1 of one coordinate difference. *)
Definition smooth_l1 (diff : Q) : Q :=
  let loc_loss_l2 := (1 # 2) * (diff * diff) in
  let loc_loss_l1 := Qabs diff - (1 # 2) in
  if tf_less (Qabs diff) 1 then loc_loss_l2 else loc_loss_l1.

(** [_build_loc_loss] *)
Definition _loc_loss : tfloat :=
  let diff := map2 mat_sub (input_loc fd) (train_offsets fd) in
  let loc_loss := map (map (map smooth_l1)) diff in
  (* tf.stack([mask] * 4, axis=2) *)
  let loc_loss_mask :=
    map (map (fun x => repeat x 4)) (input_loc_loss_masks fd) in
  let loc_loss := map2 mat_mul_elem loc_loss_mask loc_loss in
  tf_div (Some (reduce_sum3 loc_loss)) _num_positives.

(* ---------------- focal ---------------- *)

(** [tf.one_hot(label, depth)] *)
Definition one_hot (depth label : nat) : list Q :=
  map (fun c => if (c =? label)%nat then 1 else 0) (range depth).

(** [tf.reduce_max] of a vector; the maximum of no value is [-inf]. *)
Definition reduce_max_vec (v : list Q) : tfloat :=
  match v with
  | [] => None
  | x :: r => Some (fold_left Qmax r x)
  end.

Definition _focal_loss (gamma : Q) : tfloat :=
  let one_hot_labels := map (map (one_hot num_classes)) (input_labels fd) in
  let filtered_confidences :=
    map2 mat_mul_elem (train_confidences fd) one_hot_labels in
  let sparse_confidences := map (map reduce_max_vec) filtered_confidences in
  let ones_arr := tf_ones batch_sz total_predictions in
  let focal_weights :=
    map2 (map2 (fun o s => option_map (fun c => tf_pow (o - c) gamma) s))
         ones_arr sparse_confidences in
  let weighted :=
    map2 (map2 (fun fw ce => tf_mul fw (Some ce))) focal_weights (ce_loss fd) in
  tf_div (reduce_sum_tfloat (concat weighted)) _num_positives.

(** The argument of the post-processor in [_build_focal_loss]. *)
Definition focal_total_loss (gamma : Q) : tfloat :=
  let total_loss :=
    tf_add (_focal_loss gamma) (tf_mul (Some (loc_loss_weight fd)) _loc_loss) in
  let condition := tf_less _num_positives 1 in
  tf_where condition (Some 0) total_loss.

Definition _final_focal_loss (gamma : Q) : result tfloat :=
  Ok (_build_final_loss (focal_total_loss gamma)).

(* ---------------- top-k ---------------- *)

(** [_build_top_k_positive_loss] (and [_build_scan_positive_loss]) *)
Definition _top_k_positive_confidence_loss : tfloat :=
  let positive_confidence_loss :=
    mat_mul_elem (ce_loss fd) (input_loc_loss_masks fd) in
  tf_div (Some (reduce_sum positive_confidence_loss)) _num_positives.

(** The masked losses handed to [tf.nn.top_k], flattened. *)
Definition top_k_negative_flat : result (list Q) :=
  let ones := tf_ones batch_sz total_predictions in
  let negative_loss_mask := mat_sub ones (input_loc_loss_masks fd) in
  let negative_confidence_loss := mat_mul_elem negative_loss_mask (ce_loss fd) in
  tf_reshape_flat negative_confidence_loss (batch_sz * total_predictions).

Definition top_k_num_negatives_to_pick (ratio : Q) : option Z :=
  cast_int32 (Some (_num_positives * ratio)).

(** The entries that [tf.nn.top_k] keeps in [_build_top_k_negative_loss]. *)
Definition top_k_negative_selected (ratio : Q) : result (list Q) :=
  flat <- top_k_negative_flat ;;
  tf_top_k flat (top_k_num_negatives_to_pick ratio).

(** [_build_top_k_negative_loss] *)
Definition _top_k_negative_confidence_loss (ratio : Q) : result tfloat :=
  selected <- top_k_negative_selected ratio ;;
  match top_k_num_negatives_to_pick ratio with
  | Some k => Ok (tf_div (Some (reduce_sum_vec selected)) (inject_Z k))
  | None => Err InvalidArgumentError
  end.

Definition top_k_total_loss (ratio : Q) : result tfloat :=
  neg <- _top_k_negative_confidence_loss ratio ;;
  let top_k_loss := tf_add _top_k_positive_confidence_loss neg in
  let total_loss :=
    tf_add top_k_loss (tf_mul (Some (loc_loss_weight fd)) _loc_loss) in
  let condition := tf_less _num_positives 1 in
  Ok (tf_where condition (Some 0) total_loss).

Definition _final_top_k_loss (ratio : Q) : result tfloat :=
  total_loss <- top_k_total_loss ratio ;;
  Ok (_build_final_loss total_loss).

(* ---------------- scan ---------------- *)

Definition _scan_positive_confidence_loss : tfloat :=
  let positive_confidence_loss :=
    mat_mul_elem (ce_loss fd) (input_loc_loss_masks fd) in
  tf_div (Some (reduce_sum positive_confidence_loss)) _num_positives.

(** [num_negatives]: the cast is from float to float. *)
Definition scan_num_negatives (ratio : Q) : Q := _num_positives * ratio.

Definition scan_negative_rows : matrix :=
  let ones := tf_ones batch_sz total_predictions in
  let negative_loss_mask := mat_sub ones (input_loc_loss_masks fd) in
  mat_mul_elem (ce_loss fd) negative_loss_mask.

Definition num_negatives_per_batch (ratio : Q) : option Z :=
  cast_int32 (tf_div (Some (scan_num_negatives ratio)) (Qnat batch_sz)).

(** The inner function handed to [tf.scan]. *)
Definition sort_neg_losses_for_each_batch (ratio : Q) (_ : Q)
           (batch_loss : list Q) : result Q :=
  top_k_negative_confidence_loss <-
    tf_top_k batch_loss (num_negatives_per_batch ratio) ;;
  Ok (reduce_sum_vec top_k_negative_confidence_loss).


(** [_build_scan_negative_loss] *)
Definition _scan_negative_confidence_loss (ratio : Q) : result tfloat :=
  neg_conf_losses <-
    tf_scan (sort_neg_losses_for_each_batch ratio) scan_negative_rows 1 ;;
  Ok (tf_div (Some (reduce_sum_vec neg_conf_losses)) (scan_num_negatives ratio)).

Definition scan_total_loss (ratio : Q) : result tfloat :=
  neg <- _scan_negative_confidence_loss ratio ;;
  let confidence_loss := tf_add _scan_positive_confidence_loss neg in
  let total_loss :=
    tf_add confidence_loss (tf_mul (Some (loc_loss_weight fd)) _loc_loss) in
  let condition := tf_less _num_positives 1 in
  Ok (tf_where condition (Some 0) total_loss).

Definition _final_scan_loss (ratio : Q) : result tfloat :=
  total_loss <- scan_total_loss ratio ;;
  Ok (_build_final_loss total_loss).

End Graph.



(** *** Sample batches *)

(** A feed with the given losses and mask; the localisation targets
    equal the predictions, every label is class 0 of two equally likely
    classes. *)
Definition sample_feed (ce mask : matrix) : feed :=
  mk_feed ce
          (map (map (fun _ => [1 # 2; 1 # 2])) ce)
          (map (map (fun _ => [0; 0; 0; 0])) ce)
          (map (map (fun _ => 0%nat)) ce)
          mask
          (map (map (fun _ => [0; 0; 0; 0])) ce)
          1.

(** One image, four anchors, the first of them positive. *)
Definition one_positive : feed :=
  sample_feed [[1; 4; 3; 2]] [[1; 0; 0; 0]].

(** One image, one anchor, no positive. *)
Definition no_positive : feed := sample_feed [[1]] [[0]].

(** Two images of three anchors with one positive anchor in all and the
    negative losses 5, 4, 1, 1, 1: the two hard negatives in one image
    ... *)
Definition hard_together : feed :=
  sample_feed [[7; 5; 4]; [1; 1; 1]] [[1; 0; 0]; [0; 0; 0]].


(** A post-processor that adds a regularisation term of 1. *)
Definition add_regularisation (loss : tfloat) : tfloat :=
  tf_add loss (Some 1).

(** A stand-in for [tf.pow] on the sample batches (integer exponents). *)
Definition pow_int (x gamma : Q) : Q := Qpower x (Qfloor gamma).

End Loss.

(* ------------------------------------------------------------------ *)
(** ** Lazy construction of the three mining losses *)

Module Mining.

Inductive variant : Type := Focal | TopK | Scan.

Definition variant_eqb (a b : variant) : bool :=
  match a, b with
  | Focal, Focal | TopK, TopK | Scan, Scan => true
  | _, _ => false
  end.

(** What a training call does to the graph, the session and the console. *)
Inductive event : Type :=
| SetupForTraining
| PrepareTrainingGraph
| SetupLossInputs (v : variant)
| BuildLocLoss
| BuildLoss (v : variant)
| Minimize (v : variant) (optimizer : nat) (loss_node : nat)
| InitOptimizerVars (optimizer : nat)
| PrintLine (msg : string).

(** The operation returned by [optimizer.minimize]. *)
Record train_op : Type := mk_train_op {
  op_optimizer : nat;
  op_loss_node : nat;
  op_global_step : option nat;
  op_node : nat
}.

(** The attributes of one variant: [_X_loss_is_build], [_final_X_loss],
    [_X_optimizer], [_X_train_op].  An attribute that no code has
    assigned yet is [None]; the flag is read only after
    [_prepare_training_graph] has assigned it. *)
Record mining : Type := mk_mining {
  loss_is_build : bool;
  final_loss : option nat;
  optimizer : option nat;
  cached_op : option train_op
}.

Section Model.

(** The state of the base class [MakiModel], its flag
    [_set_for_training] and its method [_setup_for_training]. *)
Variable Base : Type.
Variable _set_for_training : Base -> bool.
Variable _setup_for_training : Base -> Base.

Record model_state : Type := mk_state {
  base : Base;
  _training_vars_are_ready : bool;
  focal : mining;
  top_k : mining;
  scan : mining;
  _loc_loss : option nat;
  trace : list event
}.

Definition get (v : variant) (s : model_state) : mining :=
  match v with
  | Focal => focal s
  | TopK => top_k s
  | Scan => scan s
  end.

Definition set (v : variant) (m : mining) (s : model_state) : model_state :=
  match v with
  | Focal => mk_state (base s) (_training_vars_are_ready s) m (top_k s)
                      (scan s) (_loc_loss s) (trace s)
  | TopK => mk_state (base s) (_training_vars_are_ready s) (focal s) m
                     (scan s) (_loc_loss s) (trace s)
  | Scan => mk_state (base s) (_training_vars_are_ready s) (focal s)
                     (top_k s) m (_loc_loss s) (trace s)
  end.

Definition log (es : list event) (s : model_state) : model_state :=
  mk_state (base s) (_training_vars_are_ready s) (focal s) (top_k s)
           (scan s) (_loc_loss s) (trace s ++ es).

(** A graph node is named by the number of events before its creation. *)
Definition fresh (s : model_state) : nat := length (trace s).

(** The state that [__init__] leaves. *)
Definition unset : mining := mk_mining false None None None.
Definition init_state (b : Base) : model_state :=
  mk_state b false unset unset unset None [].

Definition with_flag (b : bool) (m : mining) : mining :=
  mk_mining b (final_loss m) (optimizer m) (cached_op m).

(** [_prepare_training_graph]: the three flags are (re)set to [False]. *)
Definition _prepare_training_graph (s : model_state) : model_state :=
  mk_state (base s) true
           (with_flag false (focal s)) (with_flag false (top_k s))
           (with_flag false (scan s)) (_loc_loss s)
           (trace s ++ [PrepareTrainingGraph]).

(** [_setup_X_loss_inputs(); _build_X_loss()]: the latter rebuilds
    [self._loc_loss], builds the variant's final loss and sets the flag. *)
Definition build_loss (v : variant) (s : model_state) : model_state :=
  let s1 := log [SetupLossInputs v] s in
  let loc := fresh s1 in
  let s2 := log [BuildLocLoss] s1 in
  let s3 := mk_state (base s2) (_training_vars_are_ready s2) (focal s2)
                     (top_k s2) (scan s2) (Some loc) (trace s2) in
  let node := fresh s3 in
  let s4 := log [BuildLoss v] s3 in
  let m := get v s4 in
  set v (mk_mining true (Some node) (optimizer m) (cached_op m)) s4.

(** [self._X_optimizer = optimizer; self._X_train_op =
    optimizer.minimize(self._final_X_loss, ...);
    self._session.run(tf.variables_initializer(optimizer.variables()))] *)
Definition bind_optimizer (v : variant) (opt : nat) (global_step : option nat)
           (s : model_state) : result model_state :=
  match final_loss (get v s) with
  | None => Err AttributeError
  | Some node =>
      let op := mk_train_op opt node global_step (fresh s) in
      let m := get v s in
      let s1 := set v (mk_mining (loss_is_build m) (final_loss m)
                                 (Some opt) (Some op)) s in
      Ok (log [Minimize v opt node; InitOptimizerVars opt] s1)
  end.

(** The first two tests of a training call:
    [if not self._set_for_training: super()._setup_for_training()] and
    [if not self._training_vars_are_ready: self._prepare_training_graph()]. *)
Definition ensure_training_graph (s : model_state) : model_state :=
  let s1 :=
    if negb (_set_for_training (base s))
    then mk_state (_setup_for_training (base s)) (_training_vars_are_ready s)
                  (focal s) (top_k s) (scan s) (_loc_loss s)
                  (trace s ++ [SetupForTraining])
    else s in
  if negb (_training_vars_are_ready s1)
  then _prepare_training_graph s1 else s1.

(** [_minimize_focal_loss], [_minimize_top_k_loss] and
    [__minimize_scan_loss]: one text, on the attributes of variant [v].
    The session is taken to be set. *)
Definition minimize_loss (v : variant) (opt : nat) (global_step : option nat)
           (s : model_state) : result (train_op * model_state) :=
  let s2 := ensure_training_graph s in
  s3 <- (if negb (loss_is_build (get v s2))
         then bind_optimizer v opt global_step (build_loss v s2)
         else Ok s2) ;;
  bound <- match optimizer (get v s3) with
           | Some o => Ok o
           | None => Err AttributeError
           end ;;
  s4 <- (if negb (bound =? opt)%nat
         then bind_optimizer v opt global_step
                (log [PrintLine "New optimizer is used."%string] s3)
         else Ok s3) ;;
  match cached_op (get v s4) with
  | Some op => Ok (op, s4)
  | None => Err AttributeError
  end.

Definition _minimize_focal_loss := minimize_loss Focal.
Definition _minimize_top_k_loss := minimize_loss TopK.
Definition __minimize_scan_loss := minimize_loss Scan.

(** A training call: the variant, the optimizer object, [global_step]. *)
Definition call : Type := (variant * nat * option nat)%type.

(** The state after a sequence of training calls; [None] if one raised. *)
Fixpoint run (calls : list call) (s : model_state) : option model_state :=
  match calls with
  | [] => Some s
  | (v, opt, gs) :: rest =>
      match minimize_loss v opt gs s with
      | Ok (_, s') => run rest s'
      | Err _ => None
      end
  end.

Definition is_build_event (v : variant) (e : event) : bool :=
  match e with
  | BuildLoss v' => variant_eqb v v'
  | _ => false
  end.

(** How many times the loss graph of [v] has been built. *)
Definition builds (v : variant) (s : model_state) : nat :=
  length (filter (is_build_event v) (trace s)).

Definition called (v : variant) (calls : list call) : bool :=
  existsb (fun c => variant_eqb v (fst (fst c))) calls.

(** What holds of every state that training calls can reach: a flag is
    set only after [_prepare_training_graph] has run, which is only
    after the base class has been set up; a built variant has its
    final loss, a bound optimizer and a train operation on that loss
    for that optimizer; and a variant's loss graph has been built once
    if its flag is set and never otherwise. *)
Definition consistent (s : model_state) : Prop :=
  (_training_vars_are_ready s = false ->
   forall v, loss_is_build (get v s) = false) /\
  (_training_vars_are_ready s = true -> _set_for_training (base s) = true) /\
  (forall v, loss_is_build (get v s) = true ->
             exists node o op,
               final_loss (get v s) = Some node /\
               optimizer (get v s) = Some o /\
               cached_op (get v s) = Some op /\
               op_loss_node op = node /\ op_optimizer op = o) /\
  (forall v, builds v s = if loss_is_build (get v s) then 1%nat else 0%nat).

End Model.

End Mining.

(* ------------------------------------------------------------------ *)
(** ** The training driver: [fit_focal], [fit_top_k], [fit_scan] *)

Module Fit.

Local Open Scope Q_scope.

(** Exception classes: [Derived n] is a class that derives from
    [Exception] (such as TensorFlow's [OpError]s); the other three
    derive from [BaseException] only. *)
Inductive exc_class : Type :=
| Derived (name : string)
| KeyboardInterrupt
| SystemExit
| GeneratorExit.

Definition exc_class_eqb (a b : exc_class) : bool :=
  match a, b with
  | Derived n, Derived n' => String.eqb n n'
  | KeyboardInterrupt, KeyboardInterrupt => true
  | SystemExit, SystemExit => true
  | GeneratorExit, GeneratorExit => true
  | _, _ => false
  end.

(** The Python objects that the handlers look at: a class object, or an
    instance of a class with its message. *)
Inductive pyobj : Type :=
| ClassObject (c : exc_class)
| Instance (c : exc_class) (args : string).

(** [isinstance(o, Exception)], the test of [except Exception]. *)
Definition isinstance_Exception (o : pyobj) : bool :=
  match o with
  | Instance (Derived _) _ => true
  | _ => false
  end.

(** [o is C] for a class [C]: object identity with the class object. *)
Definition is_class (o : pyobj) (c : exc_class) : bool :=
  match o with
  | ClassObject c' => exc_class_eqb c c'
  | Instance _ _ => false
  end.

(** One [self._session.run(...)]: the fetched losses (the value of the
    train operation dropped), or a raised exception, which is always an
    instance. *)
Inductive run_outcome : Type :=
| Fetched (batch_losses : list Q)
| Raised (c : exc_class) (args : string).

(** What reaches the console and the progress bar. *)
Inductive output : Type :=
| PrintStr (s : string)
| PrintExc (ex : pyobj)
| PrintEpoch (i : nat) (averages : list Q)
| IteratorClose.

(** How a block of statements ends. *)
Inductive completion : Type :=
| Normal
| Propagate (ex : pyobj).

(** How a [finally] block ends. *)
Inductive finalizer (A : Type) : Type :=
| FallThrough
| FinallyReturn (a : A)
| FinallyRaise (ex : pyobj).

(** How a call ends. *)
Inductive call_outcome (A : Type) : Type :=
| Returns (a : A)
| Raises (ex : pyobj).

Arguments FallThrough {A}.
Arguments FinallyReturn {A} a.
Arguments FinallyRaise {A} ex.
Arguments Returns {A} a.
Arguments Raises {A} ex.

(** [try: body finally: fin] as the last statement of a function whose
    body has no [return]: a [return] in the [finally] block discards the
    exception in flight. *)
Definition try_finally {A : Type} (body : completion) (fin : finalizer A)
           (fall_off : A) : call_outcome A :=
  match fin with
  | FinallyReturn a => Returns a
  | FinallyRaise ex => Raises ex
  | FallThrough =>
      match body with
      | Normal => Returns fall_off
      | Propagate ex => Raises ex
      end
  end.

(** The local variables of a [fit_*] call that outlive one statement:
    the running averages of the epoch (in the order of the fetches), the
    per-epoch lists, whether [iterator] is still [None], and, for the
    record, the console output and the batches handed to the session. *)
Record locals : Type := mk_locals {
  averages : list Q;
  train_losses : list (list Q);
  iterator_is_none : bool;
  console : list output;
  attempted : list (nat * nat)
}.

Definition set_averages (a : list Q) (st : locals) : locals :=
  mk_locals a (train_losses st) (iterator_is_none st) (console st) (attempted st).

Definition emit (o : output) (st : locals) : locals :=
  mk_locals (averages st) (train_losses st) (iterator_is_none st)
            (console st ++ [o]) (attempted st).

Definition attempt (i j : nat) (st : locals) : locals :=
  mk_locals (averages st) (train_losses st) (iterator_is_none st)
            (console st) (attempted st ++ [(i, j)]).

(** [x_loss = 0.1*batch_x_loss + 0.9*x_loss], for every fetched loss. *)
Definition ema (batch_losses running : list Q) : list Q :=
  Loss.map2 (fun b r => (1 # 10) * b + (9 # 10) * r) batch_losses running.

Section Driver.

(** [session_run i j]: what the session does with batch [j] of epoch
    [i]; [shuffle i]: whether [sklearn.utils.shuffle] raises in epoch
    [i]; [n_losses]: how many losses the variant fetches. *)
Variable session_run : nat -> nat -> run_outcome.
Variable shuffle : nat -> option (exc_class * string).
Variable n_losses : nat.
Variables (epochs n_batches : nat).

(** [for j in iterator: ...] with its inner [try ... except Exception]. *)
Fixpoint batch_loop (i : nat) (js : list nat) (st : locals)
  : completion * locals :=
  match js with
  | [] => (Normal, st)
  | j :: rest =>
      let st := attempt i j st in
      match session_run i j with
      | Fetched batch_losses =>
          batch_loop i rest (set_averages (ema batch_losses (averages st)) st)
      | Raised c args =>
          let ex := Instance c args in
          if isinstance_Exception ex then
            if is_class ex KeyboardInterrupt then
              (Propagate (Instance (Derived "Exception")
                            "You have raised KeyboardInterrupt exception."), st)
            else batch_loop i rest (emit (PrintExc ex) st)
          else (Propagate ex, st)
      end
  end.

(** The body of [for i in range(epochs)]. *)
Definition epoch_body (i : nat) (st : locals) : completion * locals :=
  let st := emit (PrintStr "Start shuffling...") st in
  match shuffle i with
  | Some (c, args) => (Propagate (Instance c args), st)
  | None =>
      let st := emit (PrintStr "Finished shuffling.") st in
      let st := set_averages (repeat 0 n_losses) st in
      let st := mk_locals (averages st) (train_losses st) false
                          (console st) (attempted st) in
      match batch_loop i (range n_batches) st with
      | (Normal, st) =>
          let st := mk_locals (averages st) (train_losses st ++ [averages st])
                              (iterator_is_none st) (console st) (attempted st) in
          (Normal, emit (PrintEpoch i (averages st)) st)
      | (Propagate ex, st) =>
          if isinstance_Exception ex
          then (Normal, emit (PrintExc ex) (emit IteratorClose st))
          else (Propagate ex, st)
      end
  end.

Fixpoint epoch_loop (idxs : list nat) (st : locals) : completion * locals :=
  match idxs with
  | [] => (Normal, st)
  | i :: rest =>
      match epoch_body i st with
      | (Normal, st) => epoch_loop rest st
      | (Propagate ex, st) => (Propagate ex, st)
      end
  end.

(** The [try: ... finally: ... return {...}] of a [fit_*] method;
    [to_dict] builds the returned dictionary from the per-epoch lists. *)
Definition fit {D : Type} (to_dict : list (list Q) -> D)
  : call_outcome (D * locals) :=
  let start := mk_locals [] [] true [] [] in
  let body := epoch_loop (range epochs) start in
  let st := snd body in
  let st := if iterator_is_none st then st else emit IteratorClose st in
  try_finally (fst body) (FinallyReturn (to_dict (train_losses st), st))
              (to_dict [], st).

(** Whether epoch [i] runs to its end: no exception leaves it. *)
Definition batch_survives (i j : nat) : bool :=
  match session_run i j with
  | Fetched _ => true
  | Raised c args => isinstance_Exception (Instance c args)
  end.

Definition epoch_completes (i : nat) : bool :=
  match shuffle i with
  | Some _ => false
  | None => forallb (batch_survives i) (range n_batches)
  end.

End Driver.

(** The longest prefix whose elements pass a test. *)
Fixpoint take_while {A : Type} (p : A -> bool) (l : list A) : list A :=
  match l with
  | [] => []
  | x :: r => if p x then x :: take_while p r else []
  end.

(** The column [k] of the per-epoch lists. *)
Definition column (k : nat) (h : list (list Q)) : list Q :=
  map (fun avgs => nth k avgs 0) h.

Definition dict : Type := list (string * list Q).

(** Fetch order of [fit_focal]: total, focal, loc. *)
Definition focal_dict (h : list (list Q)) : dict :=
  [("focal losses"%string, column 1 h);
   ("total losses"%string, column 0 h);
   ("loc losses"%string, column 2 h)].

(** Fetch order of [fit_top_k] and [fit_scan]: total, positive, negative,
    loc. *)
Definition pos_neg_dict (h : list (list Q)) : dict :=
  [("positive losses"%string, column 1 h);
   ("negative losses"%string, column 2 h);
   ("total losses"%string, column 0 h);
   ("loc losses"%string, column 3 h)].

Definition fit_focal session_run shuffle epochs n_batches :=
  fit session_run shuffle 3 epochs n_batches focal_dict.
Definition fit_top_k session_run shuffle epochs n_batches :=
  fit session_run shuffle 4 epochs n_batches pos_neg_dict.
Definition fit_scan session_run shuffle epochs n_batches :=
  fit session_run shuffle 4 epochs n_batches pos_neg_dict.

(** The fetched losses of the batches of epoch [i] that did not raise. *)
Definition fetched_of (session_run : nat -> nat -> run_outcome) (i : nat)
           (js : list nat) : list (list Q) :=
  flat_map (fun j => match session_run i j with
                     | Fetched l => [l]
                     | Raised _ _ => []
                     end) js.

(** The exceptions of the batches of epoch [i] that raised, as printed. *)
Definition printed_of (session_run : nat -> nat -> run_outcome) (i : nat)
           (js : list nat) : list output :=
  flat_map (fun j => match session_run i j with
                     | Fetched _ => []
                     | Raised c args => [PrintExc (Instance c args)]
                     end) js.

(** The running averages over a list of fetched losses. *)
Definition averaged (fetched : list (list Q)) (start : list Q) : list Q :=
  fold_left (fun running batch_losses => ema batch_losses running) fetched start.

(** The averages of epoch [i] over the batches that did not raise. *)
Definition epoch_average (session_run : nat -> nat -> run_outcome)
           (n_losses n_batches i : nat) : list Q :=
  averaged (fetched_of session_run i (range n_batches)) (repeat 0 n_losses).

(** A session in which batch 0 of epoch 0 is interrupted from the
    keyboard and every other batch yields the losses 1, 1, 1. *)
Definition interrupted_run (i j : nat) : run_outcome :=
  match i, j with
  | O, O => Raised KeyboardInterrupt "interrupted"
  | _, _ => Fetched [1; 1; 1]
  end.

(** A session in which batch 0 of epoch 0 fails with a run-time error of
    the library and every other batch yields the losses 1, 1, 1. *)
Definition faulty_run (i j : nat) : run_outcome :=
  match i, j with
  | O, O => Raised (Derived "InvalidArgumentError") "nan in summary"
  | _, _ => Fetched [1; 1; 1]
  end.

Definition never_fails (i : nat) : option (exc_class * string) := None.

End Fit.

(* ------------------------------------------------------------------ *)
(** ** The gradient-descent class balancer *)

Module Balancer.

Local Open Scope Q_scope.

Definition matrix : Type := list (list Q).

(** [a.T] of a two-dimensional array. *)
Fixpoint transpose (m : matrix) : matrix :=
  match m with
  | [] => []
  | r :: rs =>
      match rs with
      | [] => map (fun x => [x]) r
      | _ => Loss.map2 cons r (transpose rs)
      end
  end.

(** Nodes of the TensorFlow graph that the balancer builds.  A variable
    is a new graph object at each creation, named here by a serial
    number; it carries its initial value and the bounds of its clipping
    constraint. *)
Inductive tensor : Type :=
| Constant (value : matrix)
| Placeholder (rows cols : nat)
| Variable_ (serial : nat) (initial_value : matrix) (clip_min clip_max : Q)
| MatMul (a b : tensor)
| ReduceSum (a : tensor)
| Div (a b : tensor)
| Sub (a b : tensor)
| Mul (a b : tensor)
| Sqrt (a : tensor).

Definition vec_len (vec : tensor) : tensor :=
  let vec2 := Mul vec vec in
  let vec_sum := ReduceSum vec2 in
  Sqrt vec_sum.

Definition distance (vec1 vec2 : tensor) : tensor :=
  let diff := Sub vec1 vec2 in
  vec_len diff.

Definition normalize (vec : tensor) : tensor :=
  let vec_l := vec_len vec in
  Div vec vec_l.

(** The attributes of a [GDBalancer]; [None] is an attribute that no
    statement has assigned yet.  [optimizer] is [Some None] after
    [self.optimizer = None]. *)
Record gd_balancer : Type := mk_balancer {
  min_amount : Q;
  max_amount : Q;
  vecs : tensor;
  vecs_cols : nat;
  dest_v : tensor;
  cardinalities : option tensor;
  scaled_hcvgs : option tensor;
  objective : option tensor;
  optimizer : option (option nat);
  train_op : option (nat * tensor)
}.

(** What lies outside the object: the number of graph variables created
    so far and the console. *)
Record world : Type := mk_world {
  variables_created : nat;
  stdout : list string
}.

(** How a method call ends: normally or with an exception, and in both
    cases with the object and the world as the call left them. *)
Record ended : Type := mk_ended {
  raised : option pyerr;
  self : gd_balancer;
  env : world
}.

Definition set_cardinalities (c : tensor) (b : gd_balancer) : gd_balancer :=
  mk_balancer (min_amount b) (max_amount b) (vecs b) (vecs_cols b) (dest_v b)
              (Some c) (scaled_hcvgs b) (objective b) (optimizer b) (train_op b).

Definition set_scaled_hcvgs (t : tensor) (b : gd_balancer) : gd_balancer :=
  mk_balancer (min_amount b) (max_amount b) (vecs b) (vecs_cols b) (dest_v b)
              (cardinalities b) (Some t) (objective b) (optimizer b) (train_op b).

Definition set_objective (t : tensor) (b : gd_balancer) : gd_balancer :=
  mk_balancer (min_amount b) (max_amount b) (vecs b) (vecs_cols b) (dest_v b)
              (cardinalities b) (scaled_hcvgs b) (Some t) (optimizer b) (train_op b).

Definition set_optimizer (o : option nat) (b : gd_balancer) : gd_balancer :=
  mk_balancer (min_amount b) (max_amount b) (vecs b) (vecs_cols b) (dest_v b)
              (cardinalities b) (scaled_hcvgs b) (objective b) (Some o) (train_op b).

Definition unknown_objective_message : string :=
  "Unknowm objective. Call `reset` with the correct one.".

(** [_build_objective]; it reads [self.scaled_hcvgs] and
    [self.cardinalities], which [reset] has just assigned. *)
Definition _build_objective (objective_name : string) (b : gd_balancer)
           (w : world) : ended :=
  match scaled_hcvgs b, cardinalities b with
  | Some scaled, Some card =>
      if String.eqb objective_name "alpha" then
        let norm_vecs := Div scaled (ReduceSum card) in
        mk_ended None (set_objective (distance norm_vecs (dest_v b)) b) w
      else if String.eqb objective_name "geo" then
        let norm_vecs := normalize scaled in
        mk_ended None (set_objective (distance norm_vecs (dest_v b)) b) w
      else
        mk_ended None b
                 (mk_world (variables_created w)
                           (stdout w ++ [unknown_objective_message]))
  | _, _ =>
      if String.eqb objective_name "alpha" || String.eqb objective_name "geo"
      then mk_ended (Some AttributeError) b w
      else mk_ended None b
                    (mk_world (variables_created w)
                              (stdout w ++ [unknown_objective_message]))
  end.

(** [reset]: [np.reshape(initial_c, [-1, 1])] is a column; [tf.matmul]
    raises when the column's height is not the width of [self.vecs]. *)
Definition reset (initial_c : list Q) (objective_name : string)
           (b : gd_balancer) (w : world) : ended :=
  let column := map (fun c => [c]) initial_c in
  let card := Variable_ (variables_created w) column (min_amount b) (max_amount b) in
  let w1 := mk_world (S (variables_created w)) (stdout w) in
  let b1 := set_cardinalities card b in
  if negb (vecs_cols b1 =? length initial_c)%nat
  then mk_ended (Some ValueError) b1 w1
  else
    let b2 := set_scaled_hcvgs (MatMul (vecs b1) card) b1 in
    let r := _build_objective objective_name b2 w1 in
    match raised r with
    | Some e => r
    | None => mk_ended None (set_optimizer None (self r)) (env r)
    end.

(** [__init__] for [hcv_groups] given as an array (one row per group). *)
Definition init (hcv_groups : matrix) (initial_c : list Q)
           (objective_name : string) (min_c max_c : Q) (w : world) : ended :=
  let classes := match hcv_groups with [] => O | r :: _ => length r end in
  let b := mk_balancer min_c max_c (Constant (transpose hcv_groups))
                       (length hcv_groups) (Placeholder classes 1)
                       None None None None None in
  reset initial_c objective_name b w.

(** [_build_train_op] (the run of the initializer left out). *)
Definition _build_train_op (opt : nat) (b : gd_balancer)
  : result (nat * tensor) * gd_balancer :=
  match optimizer b with
  | None => (Err AttributeError, b)
  | Some bound =>
      let differs := match bound with
                     | None => true
                     | Some o => negb (o =? opt)%nat
                     end in
      if differs then
        let b1 := set_optimizer (Some opt) b in
        match objective b1 with
        | None => (Err AttributeError, b1)
        | Some obj =>
            let op := (opt, obj) in
            (Ok op,
             mk_balancer (min_amount b1) (max_amount b1) (vecs b1) (vecs_cols b1)
                         (dest_v b1) (cardinalities b1) (scaled_hcvgs b1)
                         (objective b1) (optimizer b1) (Some op))
        end
      else
        match train_op b with
        | Some op => (Ok op, b)
        | None => (Err AttributeError, b)
        end
  end.

(** The fields that a caller can observe. *)
Definition observable (b : gd_balancer)
  : option tensor * option tensor * option tensor * option (option nat) :=
  (cardinalities b, scaled_hcvgs b, objective b, optimizer b).

(** *** A sample balancer

    Two groups over two classes, built with the objective ['alpha'] and
    then trained with optimizer 7. *)
Definition new_world : world := mk_world 0 [].

Definition built : ended :=
  init [[1; 0]; [0; 1]] [10; 20] "alpha" 5 10000 new_world.

Definition trained : gd_balancer := snd (_build_train_op 7 (self built)).

End Balancer.

(* ------------------------------------------------------------------ *)
(** ** The batches of an epoch *)

Module Batching.

Import Fit.

(** [a // b] on non-negative integers. *)
Definition floordiv (a b : nat) : result nat :=
  if (b =? 0)%nat then Err ZeroDivisionError else Ok (a / b)%nat.




(** A [fit_*] call from the statement
    [n_batches = len(images) // self.batch_sz] on, which stands before
    the [try]. *)
Definition fit_from_batch_count {D : Type}
           (session_run : nat -> nat -> run_outcome)
           (shuffle : nat -> option (exc_class * string))
           (n_losses epochs : nat) (to_dict : list (list Q) -> D)
           (n_images batch_sz : nat) : call_outcome (D * locals) :=
  match floordiv n_images batch_sz with
  | Err _ =>
      Raises (Instance (Derived "ZeroDivisionError")
                       "integer division or modulo by zero")
  | Ok n_batches => fit session_run shuffle n_losses epochs n_batches to_dict
  end.

End Batching.

(* ------------------------------------------------------------------ *)
(** ** The training outputs, pair by pair *)

Module Outputs.

(** [outputs] as [__init__] builds it: [outputs += [confs, offs]] for
    every detector block, in order. *)
Definition init_outputs {T : Type} (dcs : list (T * T)) : list T :=
  flat_map (fun conf_offsets => [fst conf_offsets; snd conf_offsets]) dcs.

(** The loop of [_prepare_training_graph] over [self._training_outputs]:

      while i != n_outs:
          confs, offs = outs[i], outs[i+1]
          training_confidences += [confs]
          training_offsets += [offs]
          i += 2

    [fuel] bounds the number of tests of the loop condition; [None] is a
    loop that has not ended within it. *)
Fixpoint training_outputs_loop {T : Type} (fuel : nat) (outs : list T)
         (i : nat) (training_confidences training_offsets : list T)
  : option (result (list T * list T)) :=
  match fuel with
  | O => None
  | S fuel' =>
      if negb (i =? length outs)%nat then
        match getitem outs i with
        | Err e => Some (Err e)
        | Ok confs =>
            match getitem outs (i + 1) with
            | Err e => Some (Err e)
            | Ok offs =>
                training_outputs_loop fuel' outs (i + 2)
                                      (training_confidences ++ [confs])
                                      (training_offsets ++ [offs])
            end
        end
      else Some (Ok (training_confidences, training_offsets))
  end.

End Outputs.

(* ------------------------------------------------------------------ *)
(** ** What a tensor of the balancer's graph depends on *)

Module Graph.

Import Balancer.

(** The serial numbers of the variables that a tensor is computed from:
    the only variables that a gradient step on the tensor can change. *)
Fixpoint variables_of (t : tensor) : list nat :=
  match t with
  | Constant _ => []
  | Placeholder _ _ => []
  | Variable_ serial _ _ _ => [serial]
  | MatMul a b => variables_of a ++ variables_of b
  | ReduceSum a => variables_of a
  | Div a b => variables_of a ++ variables_of b
  | Sub a b => variables_of a ++ variables_of b
  | Mul a b => variables_of a ++ variables_of b
  | Sqrt a => variables_of a
  end.


End Graph.

(* ------------------------------------------------------------------ *)
(** ** The balancer and its session *)

Module Session.

Import Balancer Graph.

(** What a call can raise here: a Python exception, or TensorFlow's
    [FailedPreconditionError] for a variable that is read before its
    initializer has run in the session. *)
Inductive failure : Type :=
| Python (e : pyerr)
| FailedPreconditionError.

(** A session, as far as the balancer can tell: the serial numbers of
    the variables whose initializer has run in it. *)
Definition session : Type := list nat.

(** A balancer with its attribute [sess], which no statement of
    [__init__] assigns: [None] before the first [set_session]. *)
Record bound : Type := mk_bound {
  balancer : gd_balancer;
  sess : option session
}.

(** [sess.run(fetch)]: every variable that the fetch is computed from
    must have been initialised in the session.  [None] is a run that
    raises nothing; the fetched value is left out. *)
Definition run (s : session) (fetch : tensor) : option failure :=
  if forallb (fun serial => existsb (Nat.eqb serial) s) (variables_of fetch)
  then None
  else Some FailedPreconditionError.

(** [sess.run(tf.variables_initializer([v]))] *)
Definition variables_initializer (v : tensor) (s : session) : session :=
  variables_of v ++ s.

(** [set_session] *)
Definition set_session (s : session) (b : bound) : option failure * bound :=
  match cardinalities (balancer b) with
  | None => (Some (Python AttributeError), mk_bound (balancer b) (Some s))
  | Some card =>
      (None, mk_bound (balancer b) (Some (variables_initializer card s)))
  end.

(** [self.sess.run(wrap(self.attr))] *)
Definition fetch (attr : gd_balancer -> option tensor)
           (wrap : tensor -> tensor) (b : bound) : option failure :=
  match sess b with
  | None => Some (Python AttributeError)
  | Some s =>
      match attr (balancer b) with
      | None => Some (Python AttributeError)
      | Some t => run s (wrap t)
      end
  end.

Definition get_weights : bound -> option failure :=
  fetch cardinalities (fun t => t).

Definition get_scaled_vecs : bound -> option failure :=
  fetch scaled_hcvgs (fun t => t).

Definition get_vec_num : bound -> option failure :=
  fetch cardinalities ReduceSum.

(** [get_percentage]: the division and the rounding are numpy's and
    raise nothing. *)
Definition get_percentage (b : bound) : option failure :=
  match get_scaled_vecs b with
  | Some e => Some e
  | None => get_vec_num b
  end.

End Session.

(* ------------------------------------------------------------------ *)
(** ** Counting the set-up steps of the training graph *)

Module Trace.

Import Mining.

Definition is_prepare (e : event) : bool :=
  match e with
  | PrepareTrainingGraph => true
  | _ => false
  end.

Definition is_setup (e : event) : bool :=
  match e with
  | SetupForTraining => true
  | _ => false
  end.

(** How many times [_prepare_training_graph] has run, and how many
    times the base class's [_setup_for_training]. *)
Definition prepares {Base : Type} (s : model_state Base) : nat :=
  length (filter is_prepare (trace s)).

Definition setups {Base : Type} (s : model_state Base) : nat :=
  length (filter is_setup (trace s)).

End Trace.

(* ================================================================== *)
(** * Properties *)

(** ** Lists as arrays *)

Module ArrayFacts.

Import Anchors.

Lemma set_row_length (l : list box) (i : nat) (x : box) :
  length (set_row l i x) = length l.
Proof.
  revert i; induction l as [|a l IH]; intros [|i]; simpl; auto.
Qed.

(** Writing at the first free slot after a prefix. *)
Lemma set_row_app (pre : list box) (x y : box) (rest : list box) :
  set_row (pre ++ y :: rest) (length pre) x = pre ++ x :: rest.
Proof.
  induction pre as [|a pre IH]; simpl; [reflexivity|].
  now rewrite IH.
Qed.

(** Writing [f 0 .. f (m-1)] at consecutive slots behind a prefix. *)
Lemma fill_consecutive (f : nat -> box) (m : nat) :
  forall (pre rest : list box) (base : nat),
    base = length pre ->
    (m <= length rest)%nat ->
    fold_left (fun bs j => set_row bs (base + j) (f j)) (seq 0 m) (pre ++ rest)
    = pre ++ map f (seq 0 m) ++ skipn m rest.
Proof.
  induction m as [|m IH]; intros pre rest base Hb Hm.
  - reflexivity.
  - assert (Hk : skipn (S m) rest = skipn 1 (skipn m rest))
      by (rewrite skipn_skipn; f_equal; lia).
    remember (skipn (S m) rest) as after eqn:Ha. clear Ha.
    rewrite seq_S, fold_left_app, map_app. cbn [fold_left map Nat.add].
    rewrite (IH pre rest base Hb) by lia.
    destruct (skipn m rest) as [|y tl] eqn:Hs.
    + apply (f_equal (@length box)) in Hs.
      rewrite length_skipn in Hs. simpl in Hs. lia.
    + cbn [skipn] in Hk. subst after. rewrite (app_assoc pre).
      replace (base + m)%nat with (length (pre ++ map f (seq 0 m))).
      * rewrite set_row_app. rewrite <- !app_assoc. reflexivity.
      * rewrite length_app, length_map, length_seq. lia.
Qed.

(** A cell of a list of blocks of one length. *)
Lemma nth_error_concat_uniform {A : Type} (w : nat) (blocks : list (list A)) :
  Forall (fun b => length b = w) blocks ->
  forall i j, (j < w)%nat ->
    nth_error (concat blocks) (i * w + j)
    = match nth_error blocks i with
      | Some b => nth_error b j
      | None => None
      end.
Proof.
  induction 1 as [|b blocks Hb _ IH]; intros i j Hj.
  - destruct i; simpl; now rewrite nth_error_nil.
  - destruct i as [|i]; simpl.
    + rewrite nth_error_app1 by lia. reflexivity.
    + rewrite nth_error_app2 by lia.
      replace (w + i * w + j - length b)%nat with (i * w + j)%nat by lia.
      now apply IH.
Qed.

Lemma length_concat_uniform {A : Type} (w : nat) (blocks : list (list A)) :
  Forall (fun b => length b = w) blocks ->
  length (concat blocks) = (length blocks * w)%nat.
Proof.
  induction 1 as [|b blocks Hb _ IH]; simpl; [reflexivity|].
  rewrite length_app, IH, Hb. reflexivity.
Qed.

Lemma skipn_repeat_sub {A : Type} (x : A) (n m : nat) :
  skipn n (repeat x m) = repeat x (m - n).
Proof.
  revert m; induction n as [|n IH]; intros [|m]; simpl; auto.
Qed.

End ArrayFacts.

(** ** The anchor generator *)

Module AnchorFacts.

Import Anchors ArrayFacts.
Local Open Scope Q_scope.

Section Grid.

Variables (image_width image_height width height : nat).
Variables (w h : Q).

Local Abbreviation cell :=
  (cell_box image_width image_height width height w h).
Local Abbreviation grid :=
  (Anchors.grid image_width image_height width height w h).

Lemma fill_row_spec (i : nat) (pre rest : list box) :
  length pre = (i * width)%nat ->
  (width <= length rest)%nat ->
  fill_row image_width image_height width height w h i (pre ++ rest)
  = pre ++ map (cell i) (range width) ++ skipn width rest.
Proof.
  intros Hp Hr. unfold fill_row, range.
  apply (fill_consecutive (cell i)); auto.
Qed.

Lemma grid_length (rows : nat) : length (grid rows) = (rows * width)%nat.
Proof.
  unfold Anchors.grid, range. rewrite (length_concat_uniform (w := width)).
  - now rewrite length_map, length_seq.
  - apply Forall_forall. intros b Hb. apply in_map_iff in Hb.
    destruct Hb as (i & <- & _). now rewrite length_map, length_seq.
Qed.

Lemma grid_S (rows : nat) :
  grid (S rows) = grid rows ++ map (cell rows) (range width).
Proof.
  unfold Anchors.grid, range. rewrite seq_S, map_app, concat_app. simpl.
  now rewrite app_nil_r.
Qed.

Lemma fill_rows_spec (rows : nat) :
  (rows <= height)%nat ->
  fold_left (fun bs i => fill_row image_width image_height width height w h i bs)
            (range rows) (repeat zero_box (width * height))
  = grid rows ++ repeat zero_box (width * (height - rows)).
Proof.
  induction rows as [|rows IH]; intros Hle.
  - simpl. now rewrite Nat.sub_0_r.
  - unfold range in *. rewrite seq_S, fold_left_app. cbn [fold_left Nat.add].
    rewrite IH by lia.
    rewrite fill_row_spec.
    + rewrite grid_S, <- app_assoc. do 2 f_equal.
      rewrite skipn_repeat_sub. f_equal. nia.
    + apply grid_length.
    + rewrite repeat_length. nia.
Qed.

(** The array that the generator fills by index is the grid. *)
Lemma shape_boxes_spec :
  shape_boxes image_width image_height width height w h = grid height.
Proof.
  unfold shape_boxes. rewrite fill_rows_spec by lia.
  rewrite Nat.sub_diag, Nat.mul_0_r. simpl. apply app_nil_r.
Qed.

Lemma shape_boxes_length :
  length (shape_boxes image_width image_height width height w h)
  = (width * height)%nat.
Proof. rewrite shape_boxes_spec, grid_length. lia. Qed.

Lemma shape_boxes_nth (i j : nat) :
  (i < height)%nat -> (j < width)%nat ->
  nth_error (shape_boxes image_width image_height width height w h)
            (i * width + j) = Some (cell i j).
Proof.
  intros Hi Hj. rewrite shape_boxes_spec. unfold Anchors.grid.
  rewrite (nth_error_concat_uniform (w := width)); auto.
  - unfold range. rewrite nth_error_map, nth_error_seq.
    destruct (Nat.ltb_spec i height); [|lia]. simpl.
    rewrite nth_error_map, nth_error_seq.
    destruct (Nat.ltb_spec j width); [|lia]. reflexivity.
  - apply Forall_forall. intros b Hb. apply in_map_iff in Hb.
    destruct Hb as (k & <- & _). unfold range.
    now rewrite length_map, length_seq.
Qed.

Lemma shape_boxes_In (b : box) :
  In b (shape_boxes image_width image_height width height w h) ->
  exists i j, (i < height)%nat /\ (j < width)%nat /\ b = cell i j.
Proof.
  rewrite shape_boxes_spec. unfold Anchors.grid, range. intros Hb.
  apply in_concat in Hb. destruct Hb as (row & Hrow & Hb).
  apply in_map_iff in Hrow. destruct Hrow as (i & <- & Hi).
  apply in_map_iff in Hb. destruct Hb as (j & <- & Hj).
  apply in_seq in Hi. apply in_seq in Hj.
  exists i, j. repeat split; lia.
Qed.

End Grid.

End AnchorFacts.

Module GeneratorFacts.

Import Anchors ArrayFacts AnchorFacts.
Local Open Scope Q_scope.

Lemma boxes_list_uniform (iw ih width height : nat) (dboxes : list (Q * Q)) :
  Forall (fun b => length b = (width * height)%nat)
         (boxes_list iw ih width height dboxes).
Proof.
  apply Forall_forall. intros b Hb. apply in_map_iff in Hb.
  destruct Hb as (wh & <- & _). apply shape_boxes_length.
Qed.

Lemma generator_ok (iw ih width height : nat) (dboxes : list (Q * Q)) :
  (0 < width)%nat -> (0 < height)%nat -> dboxes <> [] ->
  _default_box_generator iw ih width height dboxes
  = Ok (concat (boxes_list iw ih width height dboxes)).
Proof.
  intros Hw Hh Hd. unfold _default_box_generator.
  destruct (Nat.eqb_spec width 0); [lia|].
  destruct (Nat.eqb_spec height 0); [lia|].
  destruct dboxes; [congruence|]. reflexivity.
Qed.

Lemma block_length (iw ih width height : nat) (dboxes : list (Q * Q)) :
  length (concat (boxes_list iw ih width height dboxes))
  = (width * height * length dboxes)%nat.
Proof.
  rewrite (length_concat_uniform (boxes_list_uniform iw ih width height dboxes)).
  unfold boxes_list. rewrite length_map. lia.
Qed.

(** Shape [k], row [i], column [j] sits at [k*(width*height) + i*width + j]. *)
Lemma block_nth (iw ih width height : nat) (dboxes : list (Q * Q))
      (k i j : nat) (w h : Q) :
  nth_error dboxes k = Some (w, h) ->
  (i < height)%nat -> (j < width)%nat ->
  nth_error (concat (boxes_list iw ih width height dboxes))
            (k * (width * height) + (i * width + j))
  = Some (cell_box iw ih width height w h i j).
Proof.
  intros Hk Hi Hj.
  rewrite (nth_error_concat_uniform (boxes_list_uniform iw ih width height dboxes))
    by nia.
  unfold boxes_list. rewrite nth_error_map, Hk. simpl.
  now apply shape_boxes_nth.
Qed.

Lemma block_In (iw ih width height : nat) (dboxes : list (Q * Q)) (b : box) :
  In b (concat (boxes_list iw ih width height dboxes)) ->
  exists w h i j, In (w, h) dboxes /\ (i < height)%nat /\ (j < width)%nat /\
                  b = cell_box iw ih width height w h i j.
Proof.
  intros Hb. apply in_concat in Hb. destruct Hb as (blk & Hblk & Hb).
  apply in_map_iff in Hblk. destruct Hblk as ([w h] & <- & Hwh).
  apply shape_boxes_In in Hb. destruct Hb as (i & j & Hi & Hj & ->).
  exists w, h, i, j. auto.
Qed.

(** The loop over the detector blocks. *)
Lemma per_block_spec (iw ih : nat) (ds : list detector) :
  Forall valid_detector ds ->
  forall szs bss,
    for_each ds
      (fun acc dc =>
         bs <- _default_box_generator iw ih (fmap_width dc) (fmap_height dc)
                                      (get_dboxes dc) ;;
         Ok (fst acc ++ [(fmap_width dc, fmap_height dc)], snd acc ++ [bs]))
      (szs, bss)
    = Ok (szs ++ map (fun dc => (fmap_width dc, fmap_height dc)) ds,
          bss ++ map (block_boxes iw ih) ds).
Proof.
  induction 1 as [|dc ds (Hw & Hh & Hd) _ IH]; intros szs bss; simpl.
  - now rewrite !app_nil_r.
  - rewrite generator_ok by assumption. simpl.
    rewrite IH, <- !app_assoc. reflexivity.
Qed.

Lemma generate_ok (iw ih : nat) (ds : list detector) :
  ds <> [] -> Forall valid_detector ds ->
  _generate_default_boxes iw ih ds
  = Ok (mk_ssd iw ih ds
               (map (fun dc => (fmap_width dc, fmap_height dc)) ds)
               (concat (map (block_boxes iw ih) ds))
               (map (fun d => correct_box iw ih (to_corners d))
                    (concat (map (block_boxes iw ih) ds)))
               (length (concat (map (block_boxes iw ih) ds)))).
Proof.
  intros Hne Hv. unfold _generate_default_boxes.
  rewrite (per_block_spec iw ih Hv). simpl.
  destruct ds as [|dc ds]; [congruence|]. simpl.
  unfold _correct_default_boxes. rewrite !map_map, !length_map.
  reflexivity.
Qed.

Lemma length_concat_sum {A : Type} (bs : list (list A)) :
  length (concat bs) = list_sum (map (@length A) bs).
Proof.
  induction bs as [|b bs IH]; simpl; [reflexivity|].
  now rewrite length_app, IH.
Qed.

Lemma block_boxes_length (iw ih : nat) (dc : detector) :
  length (block_boxes iw ih dc) = block_size dc.
Proof. apply block_length. Qed.

Lemma anchors_length (iw ih : nat) (ds : list detector) :
  length (concat (map (block_boxes iw ih) ds)) = list_sum (map block_size ds).
Proof.
  rewrite length_concat_sum, map_map. f_equal.
  apply map_ext. intros dc. apply block_boxes_length.
Qed.

End GeneratorFacts.

(** ** The anchor index *)

Module IndexFacts.

Import Anchors ArrayFacts AnchorFacts GeneratorFacts.
Local Open Scope nat_scope.

Lemma for_each_app {A S : Type} (l1 l2 : list A) (body : S -> A -> result S)
      (acc : S) :
  for_each (l1 ++ l2) body acc
  = Py.bind (for_each l1 body acc) (for_each l2 body).
Proof.
  revert acc; induction l1 as [|a l1 IH]; intros acc; simpl; [reflexivity|].
  destruct (body acc a); simpl; auto.
Qed.

Lemma firstn_S_nth {A : Type} (l : list A) (n : nat) (a : A) :
  nth_error l n = Some a -> firstn (S n) l = firstn n l ++ [a].
Proof.
  revert n; induction l as [|x l IH]; intros [|n] H; simpl in *;
    try discriminate.
  - now inversion H.
  - now rewrite (IH n H).
Qed.

(** The first loop of [get_dbox]: the boxes of the blocks before [b]. *)
Lemma blocks_to_pass (ds : list detector) (b acc : nat) :
  b <= length ds ->
  for_each (range b)
    (fun acc i =>
       sz <- getitem (map (fun dc => (fmap_width dc, fmap_height dc)) ds) i ;;
       dc <- getitem ds i ;;
       Ok (acc + fst sz * snd sz * length (get_dboxes dc)))
    acc
  = Ok (acc + list_sum (map block_size (firstn b ds))).
Proof.
  induction b as [|b IH]; intros Hb.
  - simpl. f_equal. lia.
  - unfold range in *. rewrite seq_S, for_each_app, IH by lia.
    destruct (nth_error ds b) as [dc|] eqn:Hdc.
    2:{ apply nth_error_None in Hdc. lia. }
    rewrite (firstn_S_nth _ _ Hdc), map_app, list_sum_app.
    cbn [Py.bind for_each Nat.add]. unfold getitem.
    rewrite nth_error_map, Hdc. cbn.
    unfold block_size. f_equal. lia.
Qed.

(** The second loop: the shapes before [s] in the block. *)
Lemma shapes_to_pass (sizes : list (nat * nat)) (b fw fh s acc : nat) :
  nth_error sizes b = Some (fw, fh) ->
  for_each (range s)
    (fun acc _ => sz <- getitem sizes b ;; Ok (acc + fst sz * snd sz))
    acc
  = Ok (acc + s * (fw * fh)).
Proof.
  intros Hsz. unfold range. generalize 0 at 1. revert acc.
  induction s as [|s IH]; intros acc start; simpl.
  - f_equal. lia.
  - unfold getitem at 1. rewrite Hsz. simpl. rewrite IH. f_equal. lia.
Qed.

Lemma nth_error_concat_block {A : Type} (bs : list (list A)) :
  forall (b r : nat) (blk : list A),
    nth_error bs b = Some blk -> r < length blk ->
    nth_error (concat bs) (length (concat (firstn b bs)) + r)
    = nth_error blk r.
Proof.
  induction bs as [|x bs IH]; intros [|b] r blk Hb Hr; simpl in *;
    try discriminate.
  - inversion Hb; subst. now rewrite nth_error_app1.
  - rewrite length_app, nth_error_app2 by lia.
    replace (length x + length (concat (firstn b bs)) + r - length x)
      with (length (concat (firstn b bs)) + r) by lia.
    now apply IH.
Qed.

(** What [get_dbox] computes on a generated model: its third argument is
    used as the row and its fourth as the column of the generator. *)
Lemma get_dbox_row_x_column_y (iw ih : nat) (ds : list detector) (m : ssd_model)
      (b s x y : nat) (dc : detector) (w h : Q) :
  _generate_default_boxes iw ih ds = Ok m ->
  Forall valid_detector ds ->
  nth_error ds b = Some dc ->
  nth_error (get_dboxes dc) s = Some (w, h) ->
  x < fmap_height dc -> y < fmap_width dc ->
  get_dbox m b s x y
  = Ok (correct_box iw ih
          (to_corners (cell_box iw ih (fmap_width dc) (fmap_height dc) w h x y))).
Proof.
  intros Hgen Hv Hdc Hs Hx Hy.
  assert (Hne : ds <> []) by (intros ->; destruct b; discriminate).
  rewrite (generate_ok iw ih Hne Hv) in Hgen. inversion Hgen; subst m; clear Hgen.
  unfold get_dbox. cbn [dc_block_feature_map_sizes dcs default_boxes].
  assert (Hb : b < length ds) by (apply nth_error_Some; congruence).
  rewrite blocks_to_pass by lia. cbn [Py.bind].
  assert (Hsz : nth_error (map (fun dc => (fmap_width dc, fmap_height dc)) ds) b
                = Some (fmap_width dc, fmap_height dc))
    by (rewrite nth_error_map, Hdc; reflexivity).
  rewrite shapes_to_pass with (fw := fmap_width dc) (fh := fmap_height dc)
    by exact Hsz.
  cbn [Py.bind].
  unfold getitem at 1. rewrite Hsz. cbn [Py.bind fst snd].
  unfold getitem. rewrite nth_error_map.
  assert (Hlen : list_sum (map block_size (firstn b ds))
                 = length (concat (firstn b (map (block_boxes iw ih) ds)))).
  { rewrite firstn_map. symmetry. apply anchors_length. }
  assert (Hs' : s < length (get_dboxes dc)) by (apply nth_error_Some; congruence).
  rewrite Hlen.
  replace (0 + length (concat (firstn b (map (block_boxes iw ih) ds)))
           + s * (fmap_width dc * fmap_height dc) + fmap_width dc * x + y)
    with (length (concat (firstn b (map (block_boxes iw ih) ds)))
          + (s * (fmap_width dc * fmap_height dc) + (x * fmap_width dc + y)))
    by ring.
  rewrite (nth_error_concat_block (map (block_boxes iw ih) ds) b
             (blk := block_boxes iw ih dc)).
  - unfold block_boxes.
    rewrite block_nth with (w := w) (h := h) by assumption. reflexivity.
  - rewrite nth_error_map, Hdc. reflexivity.
  - rewrite block_boxes_length. unfold block_size.
    pose proof (Nat.mul_le_mono_r (S x) (fmap_height dc) (fmap_width dc) Hx).
    pose proof (Nat.mul_le_mono_r (S s) (length (get_dboxes dc))
                  (fmap_width dc * fmap_height dc) Hs').
    lia.
Qed.

End IndexFacts.

(** ** Geometry of the generated boxes *)

Module GeometryFacts.

Import Anchors ArrayFacts AnchorFacts GeneratorFacts.
Local Open Scope Q_scope.

(** [lra] knows no division: halving is a product. *)
Ltac halves := unfold Qdiv in *; change (/ 2) with (1 # 2) in *.

Lemma Qnat_nonneg (n : nat) : 0 <= Qnat n.
Proof.
  unfold Qnat. change 0 with (inject_Z 0). rewrite <- Zle_Qle. lia.
Qed.

Lemma Qnat_pos (n : nat) : (0 < n)%nat -> 0 < Qnat n.
Proof.
  intros Hn. unfold Qnat. change 0 with (inject_Z 0). rewrite <- Zlt_Qlt. lia.
Qed.

Lemma Qnat_succ_le (k n : nat) : (k < n)%nat -> Qnat k + 1 <= Qnat n.
Proof.
  intros Hk. unfold Qnat. change 1 with (inject_Z 1).
  rewrite <- inject_Z_plus, <- Zle_Qle. lia.
Qed.

(** The size of a cell along one axis. *)
Lemma cell_size_nonneg (total n : nat) : (0 < n)%nat -> 0 <= Qnat total / Qnat n.
Proof.
  intros Hn. apply Qle_shift_div_l; [now apply Qnat_pos|].
  rewrite Qmult_0_l. apply Qnat_nonneg.
Qed.

Lemma cells_cover (total n : nat) :
  (0 < n)%nat -> (Qnat total / Qnat n) * Qnat n == Qnat total.
Proof.
  intros Hn. field. intros H0. pose proof (Qnat_pos Hn) as Hp.
  rewrite H0 in Hp. now apply Qlt_irrefl in Hp.
Qed.

(** The centre of cell [k] of [n] lies inside the image. *)
Lemma center_in_image (total n k : nat) :
  (k < n)%nat ->
  let c := Qnat total / Qnat n in
  0 <= Qnat k * c + c / 2 /\ Qnat k * c + c / 2 <= Qnat total.
Proof.
  intros Hk c.
  assert (Hn : (0 < n)%nat) by lia.
  pose proof (cell_size_nonneg total Hn) as Hc. fold c in Hc.
  pose proof (cells_cover total Hn) as Hcov. fold c in Hcov.
  pose proof (Qnat_nonneg k) as Hk0.
  pose proof (Qnat_succ_le Hk) as Hk1.
  assert (H1 : 0 <= Qnat k * c) by (apply Qmult_le_0_compat; assumption).
  assert (H2 : (Qnat k + 1) * c <= Qnat n * c)
    by (apply Qmult_le_compat_r; assumption).
  assert (H3 : Qnat n * c == Qnat total) by (rewrite Qmult_comm; exact Hcov).
  rewrite H3 in H2. clearbody c.
  halves. split; lra.
Qed.

Lemma py_max_spec (a b : Q) : py_max a b == Qmax a b.
Proof.
  unfold py_max. destruct (Qle_bool b a) eqn:E.
  - apply Qle_bool_iff in E. symmetry. now apply Q.max_l.
  - assert (Hlt : a < b).
    { apply Qnot_le_lt. intros H. apply Qle_bool_iff in H. congruence. }
    symmetry. apply Q.max_r. now apply Qlt_le_weak.
Qed.

Lemma py_min_spec (a b : Q) : py_min a b == Qmin a b.
Proof.
  unfold py_min. destruct (Qle_bool a b) eqn:E.
  - apply Qle_bool_iff in E. symmetry. now apply Q.min_l.
  - assert (Hlt : b < a).
    { apply Qnot_le_lt. intros H. apply Qle_bool_iff in H. congruence. }
    symmetry. apply Q.min_r. now apply Qlt_le_weak.
Qed.

(** Clipping a box whose centre is inside the image and whose size is not
    negative gives an ordered box inside the image. *)
Lemma clipped_ordered (lim c s : Q) :
  0 <= c -> c <= lim -> 0 <= s ->
  0 <= py_max 0 (c - s / 2) /\
  py_max 0 (c - s / 2) <= py_min lim (c + s / 2) /\
  py_min lim (c + s / 2) <= lim.
Proof.
  intros H0 H1 Hs. unfold py_max, py_min.
  destruct (Qle_bool (c - s / 2) 0) eqn:E1;
    destruct (Qle_bool lim (c + s / 2)) eqn:E2;
    try (apply Qle_bool_iff in E1); try (apply Qle_bool_iff in E2);
    try (assert (E1' : 0 < c - s / 2)
           by (apply Qnot_le_lt; intros H; apply Qle_bool_iff in H; congruence));
    try (assert (E2' : c + s / 2 < lim)
           by (apply Qnot_le_lt; intros H; apply Qle_bool_iff in H; congruence));
    halves; repeat split; lra.
Qed.

(** Every box of a generated cell, once converted and clipped. *)
Lemma cell_clipped (iw ih width height : nat) (w h : Q) (i j : nat) :
  (i < height)%nat -> (j < width)%nat -> 0 < w -> 0 < h ->
  let d := correct_box iw ih (to_corners (cell_box iw ih width height w h i j)) in
  (0 <= b0 d /\ b0 d <= b2 d /\ b2 d <= Qnat iw) /\
  (0 <= b1 d /\ b1 d <= b3 d /\ b3 d <= Qnat ih).
Proof.
  intros Hi Hj Hw Hh. cbn -[py_max py_min Qdiv Qplus Qminus Qmult].
  destruct (center_in_image iw Hj) as [Hx0 Hx1].
  destruct (center_in_image ih Hi) as [Hy0 Hy1].
  assert (Hcw : 0 <= width_per_cell iw width * w).
  { apply Qmult_le_0_compat; [apply cell_size_nonneg; lia | lra]. }
  assert (Hch : 0 <= height_per_cell ih height * h).
  { apply Qmult_le_0_compat; [apply cell_size_nonneg; lia | lra]. }
  split; apply clipped_ordered; assumption.
Qed.

Lemma generator_inv (iw ih width height : nat) (dboxes : list (Q * Q))
      (bs : list box) :
  _default_box_generator iw ih width height dboxes = Ok bs ->
  (0 < width)%nat /\ (0 < height)%nat /\ dboxes <> [].
Proof.
  unfold _default_box_generator.
  destruct (Nat.eqb_spec width 0); [discriminate|].
  destruct (Nat.eqb_spec height 0); [discriminate|].
  destruct dboxes; [discriminate|].
  intros _. repeat split; try lia. discriminate.
Qed.

Lemma per_block_inv (iw ih : nat) (ds : list detector) :
  forall acc r,
    for_each ds
      (fun acc dc =>
         bs <- _default_box_generator iw ih (fmap_width dc) (fmap_height dc)
                                      (get_dboxes dc) ;;
         Ok (fst acc ++ [(fmap_width dc, fmap_height dc)], snd acc ++ [bs]))
      acc = Ok r ->
    Forall valid_detector ds.
Proof.
  induction ds as [|dc ds IH]; intros acc r H; [constructor|].
  simpl in H.
  destruct (_default_box_generator iw ih (fmap_width dc) (fmap_height dc)
                                   (get_dboxes dc)) as [bs|e] eqn:G;
    [|discriminate].
  constructor.
  - exact (generator_inv _ _ _ _ _ G).
  - simpl in H. exact (IH _ _ H).
Qed.

(** A model exists only for a non-empty list of valid detector blocks. *)
Lemma generate_inv (iw ih : nat) (ds : list detector) (m : ssd_model) :
  _generate_default_boxes iw ih ds = Ok m ->
  ds <> [] /\ Forall valid_detector ds.
Proof.
  intros H. unfold _generate_default_boxes in H.
  destruct (for_each ds _ ([], [])) as [pb|e] eqn:F; [|discriminate].
  pose proof (per_block_inv iw ih ds _ F) as Hv. split; [|exact Hv].
  intros ->. simpl in F. inversion F; subst pb. discriminate.
Qed.

End GeometryFacts.

(** ** Anchor generation, conversion and lookup: the claims *)

Module AnchorClaims.

Import Anchors ArrayFacts AnchorFacts GeneratorFacts IndexFacts GeometryFacts.
Local Open Scope Q_scope.

Lemma cell_box_formula (W H fw fh : nat) (w h : Q) (i j : nat) :
  (0 < fw)%nat -> (0 < fh)%nat ->
  let b := cell_box W H fw fh w h i j in
  b0 b == (Qnat j + (1 # 2)) * (Qnat W / Qnat fw) /\
  b1 b == (Qnat i + (1 # 2)) * (Qnat H / Qnat fh) /\
  b2 b == (Qnat W / Qnat fw) * w /\
  b3 b == (Qnat H / Qnat fh) * h.
Proof.
  intros Hw Hh. cbn -[Qdiv Qplus Qmult].
  unfold width_per_cell, height_per_cell.
  assert (Hfw : ~ Qnat fw == 0).
  { intros E. pose proof (Qnat_pos Hw) as P. rewrite E in P.
    now apply Qlt_irrefl in P. }
  assert (Hfh : ~ Qnat fh == 0).
  { intros E. pose proof (Qnat_pos Hh) as P. rewrite E in P.
    now apply Qlt_irrefl in P. }
  repeat split; try reflexivity; field; assumption.
Qed.

Lemma generator_contract (W H fw fh : nat) (shapes : list (Q * Q)) :
  (0 < fw)%nat -> (0 < fh)%nat -> shapes <> [] ->
  exists boxes,
    _default_box_generator W H fw fh shapes = Ok boxes /\
    length boxes = (fw * fh * length shapes)%nat /\
    forall k i j w h,
      nth_error shapes k = Some (w, h) -> (i < fh)%nat -> (j < fw)%nat ->
      exists b,
        nth_error boxes (k * (fw * fh) + (i * fw + j)) = Some b /\
        b0 b == (Qnat j + (1 # 2)) * (Qnat W / Qnat fw) /\
        b1 b == (Qnat i + (1 # 2)) * (Qnat H / Qnat fh) /\
        b2 b == (Qnat W / Qnat fw) * w /\
        b3 b == (Qnat H / Qnat fh) * h.
Proof.
  intros Hw Hh Hs. eexists. split; [now apply generator_ok|].
  split; [apply block_length|].
  intros k i j w h Hk Hi Hj. eexists. split.
  - apply block_nth; eassumption.
  - now apply cell_box_formula.
Qed.

Lemma anchor_set_contract (W H : nat) (ds : list detector) :
  ds <> [] -> Forall valid_detector ds ->
  exists m,
    _generate_default_boxes W H ds = Ok m /\
    (forall dc, In dc ds ->
       _default_box_generator W H (fmap_width dc) (fmap_height dc) (get_dboxes dc)
       = Ok (block_boxes W H dc)) /\
    default_boxes_wh m = concat (map (block_boxes W H) ds) /\
    length (default_boxes_wh m) = list_sum (map block_size ds) /\
    length (default_boxes m) = list_sum (map block_size ds) /\
    total_predictions m = list_sum (map block_size ds).
Proof.
  intros Hne Hv. eexists. split; [now apply generate_ok|].
  cbn [default_boxes_wh default_boxes total_predictions].
  rewrite length_map, anchors_length. repeat split; auto.
  intros dc Hdc. rewrite Forall_forall in Hv.
  destruct (Hv dc Hdc) as (Hw & Hh & Hd). now apply generator_ok.
Qed.

Lemma scenario_boxes :
  exists m,
    _generate_default_boxes 4 4 scenario = Ok m /\
    Forall2 box_eq (default_boxes_wh m)
            [mk_box 1 1 2 2; mk_box 3 1 2 2; mk_box 1 3 2 2; mk_box 3 3 2 2] /\
    Forall2 box_eq (default_boxes m)
            [mk_box 0 0 2 2; mk_box 2 0 4 2; mk_box 0 2 2 4; mk_box 2 2 4 4].
Proof.
  eexists. split; [reflexivity|].
  split; repeat constructor; vm_compute; reflexivity.
Qed.

(** C5. Anchor generation contract.  For a feature map of [fw] by [fh]
    cells ([fw], [fh] positive, as the cell size [W/fw], [H/fh] asks) and
    a non-empty list of shapes, [_default_box_generator] returns
    [fw*fh*len(shapes)] centre-form boxes; the box of shape [k], row [i],
    column [j] stands at position [k*(fw*fh) + i*fw + j] (shapes are the
    outer blocks, rows are outer to columns), with centre
    [((j+0.5)*W/fw, (i+0.5)*H/fh)] and size [((W/fw)*w_k, (H/fh)*h_k)].
    The anchor set of a model is the generator's outputs for its blocks
    in block-list order, so its length is the sum of
    [fw_i*fh_i*num_shapes_i].  In the 4 x 4 scenario the four anchors
    have centres (1,1), (3,1), (1,3), (3,3), size 2 x 2 and corner boxes
    (0,0,2,2), (2,0,4,2), (0,2,2,4), (2,2,4,4), in that order. *)
Theorem anchor_generation_contract :
  (forall (W H fw fh : nat) (shapes : list (Q * Q)),
      (0 < fw)%nat -> (0 < fh)%nat -> shapes <> [] ->
      exists boxes,
        _default_box_generator W H fw fh shapes = Ok boxes /\
        length boxes = (fw * fh * length shapes)%nat /\
        forall k i j w h,
          nth_error shapes k = Some (w, h) -> (i < fh)%nat -> (j < fw)%nat ->
          exists b,
            nth_error boxes (k * (fw * fh) + (i * fw + j)) = Some b /\
            b0 b == (Qnat j + (1 # 2)) * (Qnat W / Qnat fw) /\
            b1 b == (Qnat i + (1 # 2)) * (Qnat H / Qnat fh) /\
            b2 b == (Qnat W / Qnat fw) * w /\
            b3 b == (Qnat H / Qnat fh) * h)
  /\
  (forall (W H : nat) (ds : list detector),
      ds <> [] -> Forall valid_detector ds ->
      exists m,
        _generate_default_boxes W H ds = Ok m /\
        (forall dc, In dc ds ->
           _default_box_generator W H (fmap_width dc) (fmap_height dc)
                                  (get_dboxes dc)
           = Ok (block_boxes W H dc)) /\
        default_boxes_wh m = concat (map (block_boxes W H) ds) /\
        length (default_boxes_wh m) = list_sum (map block_size ds) /\
        length (default_boxes m) = list_sum (map block_size ds) /\
        total_predictions m = list_sum (map block_size ds))
  /\
  (exists m,
      _generate_default_boxes 4 4 scenario = Ok m /\
      Forall2 box_eq (default_boxes_wh m)
              [mk_box 1 1 2 2; mk_box 3 1 2 2; mk_box 1 3 2 2; mk_box 3 3 2 2] /\
      Forall2 box_eq (default_boxes m)
              [mk_box 0 0 2 2; mk_box 2 0 4 2; mk_box 0 2 2 4; mk_box 2 2 4 4]).
Proof.
  split; [exact generator_contract|].
  split; [exact anchor_set_contract | exact scenario_boxes].
Qed.

(** The contract at the scenario's block, and the anchor set of the
    scenario's model. *)
Lemma anchor_generation_contract_witness :
  (exists boxes,
      _default_box_generator 4 4 2 2 [(1, 1)] = Ok boxes /\
      length boxes = 4%nat) /\
  (exists m,
      _generate_default_boxes 4 4 scenario = Ok m /\
      total_predictions m = 4%nat).
Proof.
  split.
  - destruct (proj1 anchor_generation_contract 4%nat 4%nat 2%nat 2%nat [(1, 1)])
      as (boxes & Hgen & Hlen & _); [lia | lia | discriminate |].
    exists boxes. split; [exact Hgen | exact Hlen].
  - destruct (proj1 (proj2 anchor_generation_contract) 4%nat 4%nat scenario)
      as (m & Hgen & _ & _ & _ & _ & Htot).
    + discriminate.
    + repeat constructor; simpl; try lia; discriminate.
    + exists m. split; [exact Hgen | exact Htot].
Defined.

Lemma In_anchor_set (W H : nat) (ds : list detector) (c : box) :
  In c (concat (map (block_boxes W H) ds)) ->
  exists dc w h i j,
    In dc ds /\ In (w, h) (get_dboxes dc) /\
    (i < fmap_height dc)%nat /\ (j < fmap_width dc)%nat /\
    c = cell_box W H (fmap_width dc) (fmap_height dc) w h i j.
Proof.
  intros Hc. apply in_concat in Hc. destruct Hc as (blk & Hblk & Hc).
  apply in_map_iff in Hblk. destruct Hblk as (dc & <- & Hdc).
  apply block_In in Hc. destruct Hc as (w & h & i & j & Hwh & Hi & Hj & ->).
  exists dc, w, h, i, j. auto.
Qed.

(** C6. Corner-form conversion and clipping.  In every model the
    constructor builds, the box at position [n] of [default_boxes] is the
    centre-form box [(cx, cy, w, h)] at position [n] converted to
    [(cx-w/2, cy-h/2, cx+w/2, cy+h/2)] and clipped by [x1=max(0,x1)],
    [y1=max(0,y1)], [x2=min(W,x2)], [y2=min(H,y2)]; and when all shape
    ratios are strictly positive every clipped box satisfies
    [0 <= x1 <= x2 <= W] and [0 <= y1 <= y2 <= H]. *)
Theorem corner_conversion_and_clipping
        (W H : nat) (ds : list detector) (m : ssd_model) :
  _generate_default_boxes W H ds = Ok m ->
  (length (default_boxes m) = length (default_boxes_wh m) /\
   forall n c,
     nth_error (default_boxes_wh m) n = Some c ->
     exists d,
       nth_error (default_boxes m) n = Some d /\
       b0 d == Qmax 0 (b0 c - b2 c / 2) /\
       b1 d == Qmax 0 (b1 c - b3 c / 2) /\
       b2 d == Qmin (Qnat W) (b0 c + b2 c / 2) /\
       b3 d == Qmin (Qnat H) (b1 c + b3 c / 2))
  /\
  ((forall dc w h, In dc ds -> In (w, h) (get_dboxes dc) -> 0 < w /\ 0 < h) ->
   forall d,
     In d (default_boxes m) ->
     (0 <= b0 d /\ b0 d <= b2 d /\ b2 d <= Qnat W) /\
     (0 <= b1 d /\ b1 d <= b3 d /\ b3 d <= Qnat H)).
Proof.
  intros Hgen. destruct (generate_inv _ _ _ Hgen) as [Hne Hv].
  rewrite (generate_ok W H Hne Hv) in Hgen. inversion Hgen; subst m; clear Hgen.
  cbn [default_boxes default_boxes_wh]. split; [split|].
  - apply length_map.
  - intros n c Hc. eexists. split.
    + rewrite nth_error_map, Hc. reflexivity.
    + cbn -[py_max py_min Qdiv Qplus Qminus Qmax Qmin].
      repeat split; first [apply py_max_spec | apply py_min_spec].
  - intros Hpos d Hd. apply in_map_iff in Hd. destruct Hd as (c & <- & Hc).
    apply In_anchor_set in Hc.
    destruct Hc as (dc & w & h & i & j & Hdc & Hwh & Hi & Hj & ->).
    destruct (Hpos dc w h Hdc Hwh) as [Hw Hh].
    now apply cell_clipped.
Qed.

Lemma corner_conversion_and_clipping_witness :
  exists m,
    _generate_default_boxes 4 4 scenario = Ok m /\
    forall d,
      In d (default_boxes m) ->
      (0 <= b0 d /\ b0 d <= b2 d /\ b2 d <= Qnat 4) /\
      (0 <= b1 d /\ b1 d <= b3 d /\ b3 d <= Qnat 4).
Proof.
  eexists. split; [reflexivity|].
  apply (proj2 (corner_conversion_and_clipping 4 4 scenario eq_refl)).
  intros dc w h [<- | []] [E | []]. inversion E; subst. split; reflexivity.
Defined.

(** C1, at the specification's scenario.  [get_dbox(0, 0, 1, 0)], that is
    column [x = 1] and row [y = 0], returns the anchor at offset
    [fw*x + y = 2], which the generator wrote for row 1 and column 0,
    the corner box (0,2,2,4); the generator's box for column 1 and row 0
    is (2,0,4,2).  On a 3 x 1 feature map [get_dbox(0, 0, 2, 0)] leaves
    the anchor array. *)
Theorem get_dbox_swaps_row_and_column :
  (exists m d,
      _generate_default_boxes 4 4 scenario = Ok m /\
      get_dbox m 0 0 1 0 = Ok d /\
      box_eq d (mk_box 0 2 2 4) /\
      box_eq d (correct_box 4 4 (to_corners (cell_box 4 4 2 2 1 1 1 0))) /\
      box_eq (correct_box 4 4 (to_corners (cell_box 4 4 2 2 1 1 0 1)))
             (mk_box 2 0 4 2) /\
      ~ box_eq d (correct_box 4 4 (to_corners (cell_box 4 4 2 2 1 1 0 1))))
  /\
  (exists m,
      _generate_default_boxes 6 2 [mk_detector 3 1 [(1, 1)]] = Ok m /\
      get_dbox m 0 0 2 0 = Err IndexError).
Proof.
  split.
  - eexists. eexists. split; [reflexivity|]. split; [reflexivity|].
    repeat split; try (vm_compute; reflexivity).
    intros (E & _). vm_compute in E. discriminate.
  - eexists. split; reflexivity.
Qed.

End AnchorClaims.

(** ** Selecting the largest losses *)

Module TopKFacts.

Import Loss.
Local Open Scope Q_scope.

Lemma In_skipn_In {A : Type} (k : nat) (l : list A) (y : A) :
  In y (skipn k l) -> In y l.
Proof.
  intros H. rewrite <- (firstn_skipn k l). apply in_or_app. now right.
Qed.

Lemma insert_desc_perm (x : Q) (l : list Q) :
  Permutation (x :: l) (insert_desc x l).
Proof.
  induction l as [|y r IH]; simpl; [reflexivity|].
  destruct (Qle_bool y x); [reflexivity|].
  rewrite perm_swap. now constructor.
Qed.

Lemma sort_desc_perm (l : list Q) : Permutation l (sort_desc l).
Proof.
  induction l as [|x l IH]; simpl; [constructor|].
  rewrite <- insert_desc_perm. now constructor.
Qed.

Lemma sort_desc_length (l : list Q) : length (sort_desc l) = length l.
Proof. symmetry. apply Permutation_length, sort_desc_perm. Qed.

Lemma insert_desc_sorted (x : Q) (l : list Q) :
  descending l -> descending (insert_desc x l).
Proof.
  unfold descending. induction 1 as [|y r Hr IH Hy]; simpl.
  - repeat constructor.
  - destruct (Qle_bool y x) eqn:E.
    + apply Qle_bool_iff in E. constructor; [now constructor|].
      constructor; [assumption|].
      eapply Forall_impl; [|exact Hy]. intros z Hz. simpl in Hz.
      now apply Qle_trans with y.
    + assert (Hxy : x <= y).
      { apply Qlt_le_weak, Qnot_le_lt. intros H.
        apply Qle_bool_iff in H. congruence. }
      constructor; [assumption|].
      apply (Permutation_Forall (insert_desc_perm x r)).
      now constructor.
Qed.

Lemma sort_desc_sorted (l : list Q) : descending (sort_desc l).
Proof.
  induction l as [|x l IH]; simpl; [constructor|].
  now apply insert_desc_sorted.
Qed.

(** In a descending list nothing behind position [k] exceeds anything
    before it. *)
Lemma descending_split (l : list Q) :
  descending l ->
  forall k x y, In x (firstn k l) -> In y (skipn k l) -> y <= x.
Proof.
  unfold descending. induction 1 as [|a r Hr IH Ha]; intros k x y Hx Hy.
  - rewrite firstn_nil in Hx. destruct Hx.
  - destruct k as [|k]; simpl in *; [destruct Hx|].
    destruct Hx as [<- | Hx].
    + rewrite Forall_forall in Ha. apply Ha.
      apply (In_skipn_In k). exact Hy.
    + eapply IH; eassumption.
Qed.

(** The contract of [tf_top_k], for an admissible [k]. *)
Lemma tf_top_k_spec (input : list Q) (k : Z) :
  (0 <= k <= Z.of_nat (length input))%Z ->
  exists selected rest,
    tf_top_k input (Some k) = Ok selected /\
    length selected = Z.to_nat k /\
    Permutation (selected ++ rest) input /\
    descending selected /\
    (forall x y, In x selected -> In y rest -> y <= x).
Proof.
  intros Hk. exists (firstn (Z.to_nat k) (sort_desc input)),
                    (skipn (Z.to_nat k) (sort_desc input)).
  unfold tf_top_k.
  destruct (Z.ltb_spec k 0); [lia|].
  destruct (Z.ltb_spec (Z.of_nat (length input)) k); [lia|]. simpl.
  split; [reflexivity|]. split.
  { rewrite length_firstn, sort_desc_length. lia. }
  split.
  { rewrite firstn_skipn. symmetry. apply sort_desc_perm. }
  split.
  { pose proof (sort_desc_sorted input) as Hs.
    rewrite <- (firstn_skipn (Z.to_nat k) (sort_desc input)) in Hs.
    unfold descending in *.
    revert Hs. generalize (firstn (Z.to_nat k) (sort_desc input)).
    intros l. induction l as [|a l IH]; simpl; intros Hs; [constructor|].
    inversion Hs as [|? ? Hs' Hall]; subst. constructor; [now apply IH|].
    rewrite Forall_app in Hall. tauto. }
  apply descending_split, sort_desc_sorted.
Qed.

End TopKFacts.

(** ** Shapes and masks *)

Module TensorFacts.

Import Loss.
Local Open Scope Q_scope.

Lemma map2_repeat {A B C : Type} (f : A -> B -> C) (c : A) (l : list B) (n : nat) :
  length l = n -> map2 f (repeat c n) l = map (f c) l.
Proof.
  revert n; induction l as [|x l IH]; intros [|n] H; simpl in *;
    try discriminate; auto.
  f_equal. apply IH. lia.
Qed.

Lemma map2_map_l {A A' B C : Type} (f : A' -> B -> C) (g : A -> A')
      (l : list A) (l' : list B) :
  map2 f (map g l) l' = map2 (fun a b => f (g a) b) l l'.
Proof.
  revert l'; induction l as [|x l IH]; intros [|y l']; simpl; auto.
  now rewrite IH.
Qed.

Lemma map2_map_r {A B B' C : Type} (f : A -> B' -> C) (g : B -> B')
      (l : list A) (l' : list B) :
  map2 f l (map g l') = map2 (fun a b => f a (g b)) l l'.
Proof.
  revert l'; induction l as [|x l IH]; intros [|y l']; simpl; auto.
  now rewrite IH.
Qed.

Lemma map2_ext_in {A B C : Type} (f g : A -> B -> C) (l : list A) (l' : list B) :
  (forall a b, In a l -> In b l' -> f a b = g a b) ->
  map2 f l l' = map2 g l l'.
Proof.
  revert l'; induction l as [|x l IH]; intros [|y l'] H; simpl; auto.
  rewrite H by (now left). f_equal. apply IH. intros a b Ha Hb.
  apply H; now right.
Qed.

Lemma map2_length {A B C : Type} (f : A -> B -> C) (l : list A) (l' : list B) :
  length l = length l' -> length (map2 f l l') = length l.
Proof.
  revert l'; induction l as [|x l IH]; intros [|y l'] H; simpl in *;
    try discriminate; auto.
Qed.

Lemma has_shape_rows (rows cols : nat) (m : matrix) :
  has_shape rows cols m = true ->
  length m = rows /\ forall r, In r m -> length r = cols.
Proof.
  unfold has_shape. intros H. apply andb_true_iff in H. destruct H as [Hl Hr].
  apply Nat.eqb_eq in Hl. split; [exact Hl|].
  intros r Hin. rewrite forallb_forall in Hr. now apply Nat.eqb_eq, Hr.
Qed.

(** [ones - mask] for a mask of the shape of [ones]. *)
Lemma complement_mask (rows cols : nat) (mask : matrix) :
  has_shape rows cols mask = true ->
  mat_sub (tf_ones rows cols) mask = map (map (fun x => 1 - x)) mask.
Proof.
  intros H. destruct (has_shape_rows _ _ _ H) as [Hl Hr].
  unfold mat_sub, tf_ones. rewrite map2_repeat by exact Hl.
  apply map_ext_in. intros r Hin. apply map2_repeat. now apply Hr.
Qed.

(** The masked losses of the top-k variant, entry by entry. *)
Lemma top_k_negative_entries (rows cols : nat) (mask ce : matrix) :
  has_shape rows cols mask = true ->
  mat_mul_elem (mat_sub (tf_ones rows cols) mask) ce
  = map2 (map2 (fun mk c => (1 - mk) * c)) mask ce.
Proof.
  intros H. rewrite (complement_mask _ _ _ H). unfold mat_mul_elem.
  rewrite map2_map_l. apply map2_ext_in. intros a b _ _.
  apply map2_map_l.
Qed.

(** The masked losses of the scan variant, entry by entry. *)
Lemma scan_negative_entries (rows cols : nat) (mask ce : matrix) :
  has_shape rows cols mask = true ->
  mat_mul_elem ce (mat_sub (tf_ones rows cols) mask)
  = map2 (map2 (fun c mk => c * (1 - mk))) ce mask.
Proof.
  intros H. rewrite (complement_mask _ _ _ H). unfold mat_mul_elem.
  rewrite map2_map_r. apply map2_ext_in. intros a b _ _.
  apply map2_map_r.
Qed.

Lemma map2_rows_shape {A : Type} (f : Q -> Q -> A) (rows cols : nat) (m1 m2 : matrix) :
  has_shape rows cols m1 = true -> has_shape rows cols m2 = true ->
  length (map2 (map2 f) m1 m2) = rows /\
  Forall (fun r => length r = cols) (map2 (map2 f) m1 m2).
Proof.
  intros H1 H2.
  destruct (has_shape_rows _ _ _ H1) as [L1 R1].
  destruct (has_shape_rows _ _ _ H2) as [L2 R2].
  split; [rewrite map2_length; congruence|].
  clear L1 L2 H1 H2. revert m2 R2.
  induction m1 as [|r1 m1 IH]; intros [|r2 m2] R2; simpl; constructor.
  - rewrite map2_length.
    + apply R1. now left.
    + rewrite R1, R2; auto; now left.
  - apply IH.
    + intros r Hin. apply R1. now right.
    + intros r Hin. apply R2. now right.
Qed.

Lemma flat_length {A : Type} (f : Q -> Q -> A) (rows cols : nat) (m1 m2 : matrix) :
  has_shape rows cols m1 = true -> has_shape rows cols m2 = true ->
  length (concat (map2 (map2 f) m1 m2)) = (rows * cols)%nat.
Proof.
  intros H1 H2. destruct (map2_rows_shape f _ _ _ _ H1 H2) as [L F].
  rewrite (ArrayFacts.length_concat_uniform F). now rewrite L.
Qed.

(** The sum of a binary mask is a natural number. *)
Lemma binary_sum_vec (v : list Q) :
  forallb (fun x => Qeq_bool x 0 || Qeq_bool x 1) v = true ->
  exists n : nat, reduce_sum_vec v == Qnat n.
Proof.
  induction v as [|x v IH]; simpl; intros H.
  - exists 0%nat. reflexivity.
  - apply andb_true_iff in H. destruct H as [Hx Hv].
    destruct (IH Hv) as (n & Hn). apply orb_true_iff in Hx.
    destruct Hx as [Hx | Hx]; apply Qeq_bool_iff in Hx.
    + exists n. rewrite Hx, Hn. ring.
    + exists (S n). rewrite Hx, Hn. unfold Qnat.
      rewrite Nat2Z.inj_succ, <- Z.add_1_l, inject_Z_plus. reflexivity.
Qed.

Lemma forallb_concat {A : Type} (p : A -> bool) (m : list (list A)) :
  forallb (forallb p) m = true -> forallb p (concat m) = true.
Proof.
  induction m as [|r m IH]; simpl; intros H; [reflexivity|].
  apply andb_true_iff in H. destruct H as [Hr Hm].
  rewrite forallb_app, Hr. now apply IH.
Qed.

(** A binary mask that sums to less than one has no positive anchor. *)
Lemma no_positives (mask : matrix) :
  binary_mask mask = true -> reduce_sum mask < 1 -> reduce_sum mask == 0.
Proof.
  intros Hb Hlt. unfold reduce_sum in *.
  destruct (binary_sum_vec _ (forallb_concat _ _ Hb)) as (n & Hn).
  rewrite Hn in *. destruct n as [|n]; [reflexivity|].
  exfalso. unfold Qnat in Hlt. change 1 with (inject_Z 1) in Hlt.
  rewrite <- Zlt_Qlt in Hlt. lia.
Qed.

Lemma Qtrunc_zero (q : Q) : q == 0 -> Qtrunc q = 0%Z.
Proof.
  intros H. unfold Qtrunc. unfold Qeq in H. simpl in H.
  rewrite Z.mul_1_r in H. now rewrite H.
Qed.

Lemma cast_int32_zero (q : Q) : q == 0 -> cast_int32 (Some q) = Some 0%Z.
Proof. intros H. unfold cast_int32. now rewrite (Qtrunc_zero H). Qed.

End TensorFacts.

(** ** The mining losses: the claims *)

Module LossClaims.

Import Loss TopKFacts TensorFacts.
Local Open Scope Q_scope.

Lemma tf_less_true (a b : Q) : a < b -> tf_less a b = true.
Proof.
  intros H. unfold tf_less. destruct (Qle_bool b a) eqn:E; [|reflexivity].
  apply Qle_bool_iff in E. exfalso. apply (Qlt_irrefl a).
  now apply Qlt_le_trans with b.
Qed.

Lemma cast_int32_trunc (q : Q) :
  (- 2 ^ 31 <= Qtrunc q < 2 ^ 31)%Z -> cast_int32 (Some q) = Some (Qtrunc q).
Proof.
  intros [Hlo Hhi]. unfold cast_int32.
  destruct (Z.leb_spec (- 2 ^ 31) (Qtrunc q)); [|lia].
  destruct (Z.ltb_spec (Qtrunc q) (2 ^ 31)); [|lia]. reflexivity.
Qed.

Lemma top_k_flat_ok (B A : nat) (fd : feed) :
  has_shape B A (input_loc_loss_masks fd) = true ->
  has_shape B A (ce_loss fd) = true ->
  top_k_negative_flat B A fd
  = Ok (concat (map2 (map2 (fun mk c => (1 - mk) * c))
                     (input_loc_loss_masks fd) (ce_loss fd))).
Proof.
  intros Hm Hc. unfold top_k_negative_flat, tf_reshape_flat.
  rewrite (top_k_negative_entries _ _ _ (ce_loss fd) Hm).
  rewrite (flat_length _ _ _ _ _ Hm Hc), Nat.eqb_refl. reflexivity.
Qed.




End LossClaims.

Module ScanClaims.

Import Loss TopKFacts TensorFacts LossClaims.
Local Open Scope Q_scope.

(** The scan over the batch elements and the selections behind it. *)
Lemma scan_rows_spec (k : Z) (fn : Q -> list Q -> result Q) (rows : matrix) :
  (forall acc row, fn acc row
                   = (sel <- tf_top_k row (Some k) ;; Ok (reduce_sum_vec sel))) ->
  (0 <= k)%Z ->
  Forall (fun r => (k <= Z.of_nat (length r))%Z) rows ->
  forall (acc : list (list Q)) (init : Q),
  exists selected,
    for_each rows
      (fun acc row => sel <- tf_top_k row (Some k) ;; Ok (acc ++ [sel])) acc
    = Ok (acc ++ selected) /\
    Forall2 (top_of k) rows selected /\
    tf_scan fn rows init = Ok (map reduce_sum_vec selected).
Proof.
  intros Hfn Hk. induction 1 as [|row rows Hrow _ IH]; intros acc init.
  - exists []. simpl. rewrite app_nil_r. repeat split. constructor.
  - destruct (@tf_top_k_spec row k) as (sel & rest & Htk & Hl & Hp & _ & Hd);
      [lia|].
    destruct (IH (acc ++ [sel]) (reduce_sum_vec sel)) as (sels & Hfor & Hall & Hscan).
    exists (sel :: sels). cbn [for_each tf_scan]. rewrite Hfn, Htk.
    cbn [Py.bind]. rewrite Hfor, Hscan, <- app_assoc. cbn [Py.bind].
    repeat split; auto.
    constructor; [|exact Hall]. split; [exact Hl|]. now exists rest.
Qed.

Lemma reduce_sum_vec_app (a b : list Q) :
  reduce_sum_vec (a ++ b) == reduce_sum_vec a + reduce_sum_vec b.
Proof.
  induction a as [|x a IH]; simpl; [ring|]. rewrite IH. ring.
Qed.

(** The sum of the per-element sums is the sum of all selected values. *)
Lemma sum_of_sums (sels : list (list Q)) :
  reduce_sum_vec (map reduce_sum_vec sels) == reduce_sum_vec (concat sels).
Proof.
  induction sels as [|s sels IH]; simpl; [reflexivity|].
  rewrite reduce_sum_vec_app, IH. reflexivity.
Qed.

Lemma selected_count (k : Z) (rows sels : list (list Q)) :
  Forall2 (top_of k) rows sels ->
  length sels = length rows /\
  length (concat sels) = (length rows * Z.to_nat k)%nat.
Proof.
  induction 1 as [|row sel rows sels [Hl _] _ [IH1 IH2]]; simpl; [auto|].
  rewrite length_app, IH1, IH2, Hl. auto.
Qed.





End ScanClaims.

Module GuardClaims.

Import Loss TopKFacts TensorFacts LossClaims ScanClaims.
Local Open Scope Q_scope.

Lemma tf_div_by_zero (a : tfloat) (b : Q) : b == 0 -> tf_div a b = None.
Proof.
  intros H. unfold tf_div. destruct a; [|reflexivity].
  apply Qeq_bool_iff in H. now rewrite H.
Qed.

Lemma tf_top_k_zero (input : list Q) : tf_top_k input (Some 0%Z) = Ok [].
Proof.
  unfold tf_top_k.
  destruct (Z.ltb_spec (Z.of_nat (length input)) 0); [lia|]. reflexivity.
Qed.

Lemma tf_scan_zero (fn : Q -> list Q -> result Q) (rows : matrix) :
  (forall acc row, fn acc row = Ok 0) ->
  forall init, tf_scan fn rows init = Ok (map (fun _ => 0) rows).
Proof.
  intros Hfn. induction rows as [|r rows IH]; intros init; simpl; [reflexivity|].
  rewrite Hfn. simpl. now rewrite IH.
Qed.

Section Guard.

Variables (B A C : nat).
Variable hook : tfloat -> tfloat.
Variable pow : Q -> Q -> Q.
Variable fd : feed.
Variables (gamma ratio : Q).

Hypothesis Hbinary : binary_mask (input_loc_loss_masks fd) = true.
Hypothesis Hmask : has_shape B A (input_loc_loss_masks fd) = true.
Hypothesis Hce : has_shape B A (ce_loss fd) = true.
Hypothesis Hbatch : (0 < B)%nat.
Hypothesis Hnone : _num_positives fd < 1.

Lemma guard_condition : tf_less (_num_positives fd) 1 = true.
Proof. now apply tf_less_true. Qed.

Lemma no_negatives : _num_positives fd * ratio == 0.
Proof.
  unfold _num_positives in *.
  rewrite (no_positives _ Hbinary Hnone). ring.
Qed.

Lemma focal_guarded : focal_total_loss B A C pow fd gamma = Some 0.
Proof. unfold focal_total_loss. now rewrite guard_condition. Qed.

Lemma top_k_negative_runs :
  _top_k_negative_confidence_loss B A fd ratio = Ok None.
Proof.
  unfold _top_k_negative_confidence_loss, top_k_negative_selected,
    top_k_num_negatives_to_pick.
  rewrite (top_k_flat_ok _ _ _ Hmask Hce), (cast_int32_zero no_negatives).
  cbn [Py.bind]. rewrite tf_top_k_zero. cbn [Py.bind].
  now rewrite tf_div_by_zero.
Qed.

Lemma top_k_guarded : top_k_total_loss B A fd ratio = Ok (Some 0).
Proof.
  unfold top_k_total_loss. rewrite top_k_negative_runs. cbn [Py.bind].
  now rewrite guard_condition.
Qed.

Lemma per_batch_zero : num_negatives_per_batch B fd ratio = Some 0%Z.
Proof.
  unfold num_negatives_per_batch, tf_div, scan_num_negatives.
  destruct (Qeq_bool (Qnat B) 0) eqn:E.
  - apply Qeq_bool_iff in E. pose proof (GeometryFacts.Qnat_pos Hbatch) as P.
    rewrite E in P. now apply Qlt_irrefl in P.
  - apply cast_int32_zero. rewrite no_negatives.
    unfold Qdiv. ring.
Qed.

Lemma scan_negative_runs :
  exists v, _scan_negative_confidence_loss B A fd ratio = Ok v.
Proof.
  unfold _scan_negative_confidence_loss.
  rewrite tf_scan_zero.
  - cbn [Py.bind]. eexists. reflexivity.
  - intros acc row. unfold sort_neg_losses_for_each_batch.
    rewrite per_batch_zero, tf_top_k_zero. reflexivity.
Qed.

Lemma scan_guarded : scan_total_loss B A fd ratio = Ok (Some 0).
Proof.
  unfold scan_total_loss. destruct scan_negative_runs as (v & ->).
  cbn [Py.bind]. now rewrite guard_condition.
Qed.

End Guard.

(** C2, as the code has it.  When the (binary) positive-anchor mask of a
    batch sums to less than 1, the session run of each of the three
    variants raises nothing, division by zero included, and the total
    loss that each variant hands to the final-loss post-processor is
    exactly 0; the final scalar is the post-processor's value at 0, which
    is 0 whenever the post-processor maps 0 to 0. *)
Theorem zero_positive_guard
        (B A C : nat) (hook : tfloat -> tfloat) (pow : Q -> Q -> Q)
        (fd : feed) (gamma ratio : Q) :
  binary_mask (input_loc_loss_masks fd) = true ->
  has_shape B A (input_loc_loss_masks fd) = true ->
  has_shape B A (ce_loss fd) = true ->
  (0 < B)%nat ->
  _num_positives fd < 1 ->
  (focal_total_loss B A C pow fd gamma = Some 0 /\
   top_k_total_loss B A fd ratio = Ok (Some 0) /\
   scan_total_loss B A fd ratio = Ok (Some 0))
  /\
  (_final_focal_loss B A C hook pow fd gamma = Ok (hook (Some 0)) /\
   _final_top_k_loss B A hook fd ratio = Ok (hook (Some 0)) /\
   _final_scan_loss B A hook fd ratio = Ok (hook (Some 0)))
  /\
  (hook (Some 0) = Some 0 ->
   _final_focal_loss B A C hook pow fd gamma = Ok (Some 0) /\
   _final_top_k_loss B A hook fd ratio = Ok (Some 0) /\
   _final_scan_loss B A hook fd ratio = Ok (Some 0)).
Proof.
  intros Hb Hm Hc HB Hn.
  assert (Hf : focal_total_loss B A C pow fd gamma = Some 0)
    by (apply focal_guarded; assumption).
  assert (Ht : top_k_total_loss B A fd ratio = Ok (Some 0))
    by (apply top_k_guarded; assumption).
  assert (Hs : scan_total_loss B A fd ratio = Ok (Some 0))
    by (apply scan_guarded; assumption).
  assert (Hfinal :
            _final_focal_loss B A C hook pow fd gamma = Ok (hook (Some 0)) /\
            _final_top_k_loss B A hook fd ratio = Ok (hook (Some 0)) /\
            _final_scan_loss B A hook fd ratio = Ok (hook (Some 0))).
  { unfold _final_focal_loss, _final_top_k_loss, _final_scan_loss.
    rewrite Hf, Ht, Hs. repeat split. }
  split; [auto|]. split; [exact Hfinal|].
  intros Hz. destruct Hfinal as (F1 & F2 & F3).
  rewrite Hz in F1, F2, F3. auto.
Qed.

Lemma zero_positive_guard_witness :
  top_k_total_loss 1 1 no_positive 3 = Ok (Some 0) /\
  _final_scan_loss 1 1 add_regularisation no_positive 3
  = Ok (add_regularisation (Some 0)) /\
  _final_focal_loss 1 1 2 (fun x => x) pow_int no_positive 2 = Ok (Some 0).
Proof.
  destruct (@zero_positive_guard 1 1 2 add_regularisation pow_int no_positive 2 3)
    as ((_ & Ht & _) & (_ & _ & Hs) & _); try reflexivity; try lia.
  destruct (@zero_positive_guard 1 1 2 (fun x => x) pow_int no_positive 2 3)
    as (_ & _ & Hid); try reflexivity; try lia.
  destruct (Hid eq_refl) as (Hf & _).
  split; [exact Ht|]. split; [exact Hs | exact Hf].
Defined.

(** C2 as stated fails: the post-processor runs after the guard, so with
    a post-processor that adds a regularisation term of 1 the final loss
    of a batch without positives is 1 in all three variants. *)
Lemma guard_precedes_post_processor :
  binary_mask (input_loc_loss_masks no_positive) = true /\
  _num_positives no_positive < 1 /\
  _final_focal_loss 1 1 2 add_regularisation pow_int no_positive 2 = Ok (Some 1) /\
  _final_top_k_loss 1 1 add_regularisation no_positive 3 = Ok (Some 1) /\
  _final_scan_loss 1 1 add_regularisation no_positive 3 = Ok (Some 1) /\
  ~ 1 == 0.
Proof.
  repeat split; try (vm_compute; congruence).
Qed.

End GuardClaims.

(** ** The lazily built mining losses *)

Module MiningFacts.

Import Mining.

Section Reachable.

Variable Base : Type.
Variable sft : Base -> bool.
Variable setup : Base -> Base.

(** The base-class method sets the flag that guards its call. *)
Hypothesis setup_sets_flag : forall b, sft (setup b) = true.

Local Abbreviation state := (model_state Base).
Local Abbreviation minimize := (minimize_loss sft setup).
Local Abbreviation ensure := (ensure_training_graph sft setup).
Local Abbreviation ok := (consistent sft).

Lemma variant_eqb_eq (a b : variant) : variant_eqb a b = true <-> a = b.
Proof. destruct a, b; simpl; split; congruence. Qed.

Lemma variant_eqb_refl (a : variant) : variant_eqb a a = true.
Proof. now destruct a. Qed.

Lemma get_set_same (v : variant) (m : mining) (s : state) :
  get v (set v m s) = m.
Proof. now destruct v. Qed.

Lemma get_set_other (v v' : variant) (m : mining) (s : state) :
  v <> v' -> get v' (set v m s) = get v' s.
Proof. destruct v, v'; simpl; congruence. Qed.

Lemma with_flag_false (m : mining) :
  loss_is_build m = false -> with_flag false m = m.
Proof. destruct m; simpl; now intros ->. Qed.

Lemma builds_app (v : variant) (s s' : state) (es : list event) :
  trace s' = trace s ++ es ->
  builds v s' = (builds v s + length (filter (is_build_event v) es))%nat.
Proof.
  intros H. unfold builds. now rewrite H, filter_app, length_app.
Qed.

Lemma init_consistent (b : Base) : ok (init_state b).
Proof.
  repeat split; intros; try (now destruct v); try discriminate.
Qed.

(** The first two tests of a training call leave a consistent state as
    it is once the training graph exists, and otherwise create it
    without touching any variant. *)
Lemma ensure_spec (s : state) :
  ok s ->
  ok (ensure s) /\
  _training_vars_are_ready (ensure s) = true /\
  (forall v, get v (ensure s) = get v s) /\
  _loc_loss (ensure s) = _loc_loss s /\
  (forall v, builds v (ensure s) = builds v s) /\
  (_training_vars_are_ready s = true -> ensure s = s).
Proof.
  intros Hok. pose proof Hok as (Ha & Hb & Hc & Hd).
  unfold ensure_training_graph.
  destruct (_training_vars_are_ready s) eqn:Hr.
  - rewrite (Hb eq_refl). simpl. rewrite Hr. simpl.
    split; [exact Hok|]. repeat split; auto.
  - pose proof (Ha eq_refl) as Hflags.
    assert (Hgets : forall v (x : state),
               get v (_prepare_training_graph x) = with_flag false (get v x))
      by (intros [] x; reflexivity).
    destruct (sft (base s)) eqn:Hs; simpl; try rewrite Hr; simpl.
    + assert (Hget : forall v, get v (_prepare_training_graph s) = get v s).
      { intros v. rewrite Hgets. apply with_flag_false, Hflags. }
      assert (Hbuilds : forall v, builds v (_prepare_training_graph s) = builds v s).
      { intros v. rewrite (builds_app v s (_prepare_training_graph s)
                                       [PrepareTrainingGraph] eq_refl).
        simpl. lia. }
      split; [|repeat split; auto; intros; discriminate].
      split; [intros; discriminate|]. split; [intros _; exact Hs|].
      split; intros v; rewrite Hget; [apply Hc|].
      rewrite Hbuilds. apply Hd.
    + set (s1 := mk_state (setup (base s)) false (focal s) (top_k s) (scan s)
                          (_loc_loss s) (trace s ++ [SetupForTraining])).
      assert (Hget1 : forall v, get v s1 = get v s) by (intros []; reflexivity).
      assert (Hget : forall v, get v (_prepare_training_graph s1) = get v s).
      { intros v. rewrite Hgets, Hget1. apply with_flag_false, Hflags. }
      assert (Hbuilds : forall v, builds v (_prepare_training_graph s1) = builds v s).
      { intros v.
        rewrite (builds_app v s (_prepare_training_graph s1)
                            [SetupForTraining; PrepareTrainingGraph]).
        - simpl. lia.
        - simpl. now rewrite <- app_assoc. }
      split; [|repeat split; auto; intros; discriminate].
      split; [intros; discriminate|].
      split; [intros _; simpl; apply setup_sets_flag|].
      split; intros v; rewrite Hget; [apply Hc|].
      rewrite Hbuilds. apply Hd.
Qed.

Lemma variant_eq_dec (a b : variant) : {a = b} + {a <> b}.
Proof. decide equality. Qed.

(** A change of one variant's attributes that appends events keeps the
    state consistent. *)
Lemma consistent_update (x x' : state) (v : variant) (es : list event) :
  ok x ->
  _training_vars_are_ready x = true ->
  _training_vars_are_ready x' = true ->
  base x' = base x ->
  (forall v', v' <> v -> get v' x' = get v' x) ->
  trace x' = trace x ++ es ->
  (loss_is_build (get v x') = true ->
   exists node o op,
     final_loss (get v x') = Some node /\
     optimizer (get v x') = Some o /\
     cached_op (get v x') = Some op /\
     op_loss_node op = node /\ op_optimizer op = o) ->
  (builds v x + length (filter (is_build_event v) es)
   = if loss_is_build (get v x') then 1 else 0)%nat ->
  (forall v', v' <> v -> filter (is_build_event v') es = []) ->
  ok x'.
Proof.
  intros (Ha & Hb & Hc & Hd) Hr Hr' Hbase Hother Htrace Hv Hcount Hnone.
  split; [intros E; congruence|].
  split; [intros _; rewrite Hbase; auto|].
  split; intros v'; destruct (variant_eq_dec v' v) as [-> | Hne].
  - exact Hv.
  - rewrite (Hother v' Hne). apply Hc.
  - rewrite (builds_app v x x' es Htrace). exact Hcount.
  - rewrite (builds_app v' x x' es Htrace), (Hnone v' Hne), (Hother v' Hne).
    simpl. rewrite Nat.add_0_r. apply Hd.
Qed.

Lemma not_build_event (v v' : variant) :
  v' <> v -> is_build_event v' (BuildLoss v) = false.
Proof.
  intros H. simpl. destruct (variant_eqb v' v) eqn:E; [|reflexivity].
  apply variant_eqb_eq in E. contradiction.
Qed.

(** Binding an optimizer to a variant that has its final loss. *)
Lemma bind_optimizer_spec (x : state) (v : variant) (opt : nat)
      (gs : option nat) (node : nat) :
  final_loss (get v x) = Some node ->
  exists x',
    bind_optimizer v opt gs x = Ok x' /\
    get v x' = mk_mining (loss_is_build (get v x)) (Some node) (Some opt)
                         (Some (mk_train_op opt node gs (fresh x))) /\
    (forall v', v' <> v -> get v' x' = get v' x) /\
    trace x' = trace x ++ [Minimize v opt node; InitOptimizerVars opt] /\
    base x' = base x /\
    _training_vars_are_ready x' = _training_vars_are_ready x /\
    _loc_loss x' = _loc_loss x.
Proof.
  intros Hf. unfold bind_optimizer. rewrite Hf. eexists. split; [reflexivity|].
  destruct v; simpl; rewrite ?Hf; repeat split;
    intros [] Hne; try reflexivity; contradiction.
Qed.

(** A training call with the optimizer that is bound: nothing changes. *)
Lemma minimize_cached (s : state) (v : variant) (opt : nat) (gs : option nat) :
  ok s ->
  loss_is_build (get v s) = true ->
  optimizer (get v s) = Some opt ->
  exists op, cached_op (get v s) = Some op /\ minimize v opt gs s = Ok (op, s).
Proof.
  intros Hok Hflag Hopt. pose proof Hok as (Ha & Hb & Hc & Hd).
  assert (Hr : _training_vars_are_ready s = true).
  { destruct (_training_vars_are_ready s) eqn:E; [reflexivity|].
    rewrite (Ha eq_refl v) in Hflag. discriminate. }
  destruct (ensure_spec Hok) as (_ & _ & _ & _ & _ & Hsame).
  destruct (Hc v Hflag) as (node & o & op & Hfin & Ho & Hop & _).
  exists op. split; [exact Hop|].
  unfold minimize_loss. rewrite (Hsame Hr), Hflag. cbn [negb Py.bind].
  rewrite Hopt. cbn [Py.bind]. rewrite Nat.eqb_refl. cbn [negb Py.bind].
  now rewrite Hop.
Qed.

Lemma built_is_ready (s : state) (v : variant) :
  ok s -> loss_is_build (get v s) = true -> _training_vars_are_ready s = true.
Proof.
  intros (Ha & _) Hflag.
  destruct (_training_vars_are_ready s) eqn:E; [reflexivity|].
  rewrite (Ha eq_refl v) in Hflag. discriminate.
Qed.

(** A training call with another optimizer than the bound one: only the
    minimization operation is rebuilt. *)
Lemma minimize_rebind (s : state) (v : variant) (opt bound : nat)
      (gs : option nat) :
  ok s ->
  loss_is_build (get v s) = true ->
  optimizer (get v s) = Some bound ->
  bound <> opt ->
  exists node s',
    final_loss (get v s) = Some node /\
    minimize v opt gs s = Ok (mk_train_op opt node gs (S (fresh s)), s') /\
    ok s' /\
    trace s' = trace s ++ [PrintLine "New optimizer is used.";
                           Minimize v opt node; InitOptimizerVars opt] /\
    get v s' = mk_mining true (Some node) (Some opt)
                         (Some (mk_train_op opt node gs (S (fresh s)))) /\
    (forall v', v' <> v -> get v' s' = get v' s) /\
    _loc_loss s' = _loc_loss s /\
    _training_vars_are_ready s' = true /\
    base s' = base s.
Proof.
  intros Hok Hflag Hopt Hne. pose proof Hok as (Ha & Hb & Hc & Hd).
  pose proof (built_is_ready v Hok Hflag) as Hr.
  destruct (ensure_spec Hok) as (_ & _ & _ & _ & _ & Hsame).
  destruct (Hc v Hflag) as (node & o & op & Hfin & Ho & Hop & _).
  set (x := log [PrintLine "New optimizer is used."%string] s).
  assert (Hgx : forall v', get v' x = get v' s) by (intros []; reflexivity).
  assert (Hfx : final_loss (get v x) = Some node) by (now rewrite Hgx).
  destruct (bind_optimizer_spec x v opt gs Hfx)
    as (s' & Hbind & Hget & Hoth & Htr & Hbase & Hready & Hloc).
  assert (Htrace : trace s' = trace s ++ [PrintLine "New optimizer is used.";
                                          Minimize v opt node;
                                          InitOptimizerVars opt]).
  { rewrite Htr. unfold x. simpl. now rewrite <- app_assoc. }
  assert (Hfresh : fresh x = S (fresh s)).
  { unfold fresh, x. simpl. rewrite length_app. simpl. lia. }
  rewrite Hgx, Hflag, Hfresh in Hget.
  exists node, s'. split; [exact Hfin|]. split.
  { unfold minimize_loss. rewrite (Hsame Hr), Hflag. cbn [negb Py.bind].
    rewrite Hopt. cbn [Py.bind].
    destruct (Nat.eqb_spec bound opt); [contradiction|]. cbn [negb].
    fold x. rewrite Hbind. cbn [Py.bind]. rewrite Hget. reflexivity. }
  split.
  { assert (P1 : _training_vars_are_ready s' = true) by (now rewrite Hready).
    assert (P2 : forall v', v' <> v -> get v' s' = get v' s)
      by (intros v' Hv'; now rewrite (Hoth v' Hv'), Hgx).
    assert (P3 : loss_is_build (get v s') = true ->
                 exists node o op,
                   final_loss (get v s') = Some node /\
                   optimizer (get v s') = Some o /\
                   cached_op (get v s') = Some op /\
                   op_loss_node op = node /\ op_optimizer op = o)
      by (intros _; rewrite Hget; simpl; eauto 10).
    assert (P4 : (builds v s + length (filter (is_build_event v)
                    [PrintLine "New optimizer is used."; Minimize v opt node;
                     InitOptimizerVars opt])
                  = if loss_is_build (get v s') then 1 else 0)%nat)
      by (rewrite Hget; simpl; rewrite (Hd v), Hflag; reflexivity).
    assert (P5 : forall v', v' <> v ->
                 filter (is_build_event v')
                        [PrintLine "New optimizer is used."; Minimize v opt node;
                         InitOptimizerVars opt] = [])
      by (intros v' _; reflexivity).
    eapply consistent_update;
      [exact Hok | exact Hr | exact P1 | exact Hbase | exact P2
       | exact Htrace | exact P3 | exact P4 | exact P5]. }
  split; [exact Htrace|]. split; [exact Hget|].
  split; [intros v' Hv'; now rewrite (Hoth v' Hv'), Hgx|].
  split; [exact Hloc|]. split; [now rewrite Hready | exact Hbase].
Qed.

(** The first training call of a variant builds its loss graph. *)
Lemma minimize_first (s : state) (v : variant) (opt : nat) (gs : option nat) :
  ok s ->
  loss_is_build (get v s) = false ->
  exists op s',
    minimize v opt gs s = Ok (op, s') /\
    ok s' /\
    loss_is_build (get v s') = true /\
    optimizer (get v s') = Some opt /\
    cached_op (get v s') = Some op /\
    op_optimizer op = opt /\
    final_loss (get v s') = Some (op_loss_node op) /\
    builds v s' = 1%nat /\
    (forall v', v' <> v -> get v' s' = get v' s).
Proof.
  intros Hok Hflag.
  destruct (ensure_spec Hok) as (Hok2 & Hr2 & Hg2 & _ & Hb2 & _).
  set (s2 := ensure s) in *.
  pose proof Hok2 as (Ha & Hb & Hc & Hd).
  set (y := build_loss v s2).
  assert (Hgy : get v y = mk_mining true (Some (S (S (fresh s2))))
                                    (optimizer (get v s2)) (cached_op (get v s2))).
  { unfold y, build_loss, fresh.
    destruct v; simpl; rewrite !length_app; simpl; repeat f_equal; lia. }
  assert (Hoy : forall v', v' <> v -> get v' y = get v' s2).
  { intros v' Hv'. unfold y, build_loss. rewrite get_set_other by congruence.
    now destruct v'. }
  assert (Hty : trace y = trace s2 ++ [SetupLossInputs v; BuildLocLoss; BuildLoss v]).
  { unfold y, build_loss. destruct v; simpl; now rewrite <- !app_assoc. }
  assert (Hry : _training_vars_are_ready y = true)
    by (unfold y, build_loss; destruct v; exact Hr2).
  assert (Hby : base y = base s2)
    by (unfold y, build_loss; destruct v; reflexivity).
  assert (Hfy : final_loss (get v y) = Some (S (S (fresh s2))))
    by (now rewrite Hgy).
  destruct (bind_optimizer_spec y v opt gs Hfy)
    as (s' & Hbind & Hget & Hoth & Htr & Hbase & Hready & Hloc).
  rewrite Hgy in Hget. cbn [loss_is_build] in Hget.
  exists (mk_train_op opt (S (S (fresh s2))) gs (fresh y)), s'.
  assert (Hflag2 : loss_is_build (get v s2) = false) by (now rewrite Hg2).
  split.
  { unfold minimize_loss. fold s2. rewrite Hflag2. cbn [negb].
    fold y. rewrite Hbind. cbn [Py.bind]. rewrite Hget.
    cbn [optimizer Py.bind cached_op]. rewrite Nat.eqb_refl.
    cbn [negb Py.bind]. rewrite Hget. reflexivity. }
  assert (Htrace : trace s' = trace s2 ++ [SetupLossInputs v; BuildLocLoss;
                                           BuildLoss v; Minimize v opt (S (S (fresh s2)));
                                           InitOptimizerVars opt]).
  { rewrite Htr, Hty, <- app_assoc. reflexivity. }
  assert (Hcount : builds v s' = 1%nat).
  { rewrite (builds_app v s2 s' _ Htrace), (Hd v), Hflag2. simpl.
    now rewrite variant_eqb_refl. }
  split.
  { assert (P1 : _training_vars_are_ready s' = true) by (now rewrite Hready).
    assert (P0 : base s' = base s2) by (now rewrite Hbase).
    assert (P2 : forall v', v' <> v -> get v' s' = get v' s2)
      by (intros v' Hv'; now rewrite (Hoth v' Hv'), (Hoy v' Hv')).
    assert (P3 : loss_is_build (get v s') = true ->
                 exists node o op,
                   final_loss (get v s') = Some node /\
                   optimizer (get v s') = Some o /\
                   cached_op (get v s') = Some op /\
                   op_loss_node op = node /\ op_optimizer op = o)
      by (intros _; rewrite Hget; simpl; eauto 10).
    assert (P4 : (builds v s2 + length (filter (is_build_event v)
                    [SetupLossInputs v; BuildLocLoss; BuildLoss v;
                     Minimize v opt (S (S (fresh s2))); InitOptimizerVars opt])
                  = if loss_is_build (get v s') then 1 else 0)%nat)
      by (rewrite Hget; simpl; rewrite (Hd v), Hflag2, variant_eqb_refl;
          reflexivity).
    assert (P5 : forall v', v' <> v ->
                 filter (is_build_event v')
                        [SetupLossInputs v; BuildLocLoss; BuildLoss v;
                         Minimize v opt (S (S (fresh s2))); InitOptimizerVars opt]
                 = [])
      by (intros v' Hv'; cbn [filter is_build_event];
          destruct (variant_eqb v' v) eqn:E;
          [apply variant_eqb_eq in E; contradiction | reflexivity]).
    eapply consistent_update;
      [exact Hok2 | exact Hr2 | exact P1 | exact P0 | exact P2
       | exact Htrace | exact P3 | exact P4 | exact P5]. }
  rewrite Hget. cbn. repeat split; auto.
  intros v' Hv'. now rewrite (Hoth v' Hv'), (Hoy v' Hv'), Hg2.
Qed.

Lemma minimize_step (s : state) (v : variant) (opt : nat) (gs : option nat) :
  ok s ->
  exists op s',
    minimize v opt gs s = Ok (op, s') /\
    ok s' /\
    loss_is_build (get v s') = true /\
    (forall v', v' <> v -> loss_is_build (get v' s') = loss_is_build (get v' s)).
Proof.
  intros Hok. destruct (loss_is_build (get v s)) eqn:Hflag.
  - pose proof Hok as (_ & _ & Hc & _).
    destruct (Hc v Hflag) as (node & bound & op & _ & Hopt & _).
    destruct (Nat.eq_dec bound opt) as [-> | Hne].
    + destruct (minimize_cached v gs Hok Hflag Hopt) as (op' & _ & Hmin).
      exists op', s. auto.
    + destruct (minimize_rebind v gs Hok Hflag Hopt Hne)
        as (nd & s' & _ & Hmin & Hok' & _ & Hget & Hoth & _).
      exists (mk_train_op opt nd gs (S (fresh s))), s'.
      split; [exact Hmin|]. split; [exact Hok'|].
      split; [now rewrite Hget|].
      intros v' Hv'. now rewrite (Hoth v' Hv').
  - destruct (minimize_first v opt gs Hok Hflag)
      as (op & s' & Hmin & Hok' & Hfl & _ & _ & _ & _ & _ & Hoth).
    exists op, s'. split; [exact Hmin|]. split; [exact Hok'|].
    split; [exact Hfl|]. intros v' Hv'. now rewrite (Hoth v' Hv').
Qed.

(** No training call raises, and a variant's flag is set from its first
    call on. *)
Lemma run_spec (calls : list call) :
  forall s,
    ok s ->
    exists s',
      run sft setup calls s = Some s' /\
      ok s' /\
      forall v, loss_is_build (get v s')
                = loss_is_build (get v s) || called v calls.
Proof.
  induction calls as [|[[v opt] gs] calls IH]; intros s Hok.
  - exists s. split; [reflexivity|]. split; [exact Hok|].
    intros v. simpl. now rewrite orb_false_r.
  - destruct (minimize_step v opt gs Hok) as (op & s1 & Hmin & Hok1 & Hfl & Hoth).
    destruct (IH s1 Hok1) as (s' & Hrun & Hok' & Hflags).
    exists s'. split; [simpl; now rewrite Hmin|]. split; [exact Hok'|].
    intros v'. rewrite Hflags. cbn [called existsb fst].
    destruct (variant_eq_dec v' v) as [-> | Hne].
    + rewrite Hfl, variant_eqb_refl. simpl. now rewrite orb_true_r.
    + rewrite (Hoth v' Hne).
      destruct (variant_eqb v' v) eqn:E;
        [apply variant_eqb_eq in E; contradiction|].
      reflexivity.
Qed.

End Reachable.

(** C7. Mining-strategy state machine.  After any sequence of training
    calls on a new model (none of them raises): the loss graph of a
    variant has been built exactly once if the variant has been trained
    and never otherwise, so it is built on the variant's first call and
    on no later one; a further call for a trained variant with the
    optimizer object that is bound returns the cached train operation and
    changes nothing at all; a further call with another optimizer object
    adds only the new minimization operation and the initialisation of
    that optimizer's variables, on the same final-loss node, and leaves
    the built-flags, the final losses, the localisation loss and the
    other variants as they were.  (The base class's
    [_setup_for_training], whose text is not at hand, is taken to set the
    flag [_set_for_training] that guards its call.) *)
Theorem mining_state_machine
        (Base : Type) (sft : Base -> bool) (setup : Base -> Base)
        (b : Base) (calls : list call) :
  (forall x, sft (setup x) = true) ->
  exists s,
    run sft setup calls (init_state b) = Some s /\
    (forall v, builds v s = if called v calls then 1%nat else 0%nat) /\
    (forall v, loss_is_build (get v s) = called v calls) /\
    (forall v opt gs,
        called v calls = true ->
        (optimizer (get v s) = Some opt ->
         exists op,
           cached_op (get v s) = Some op /\
           minimize_loss sft setup v opt gs s = Ok (op, s)) /\
        (forall bound,
            optimizer (get v s) = Some bound -> bound <> opt ->
            exists node s',
              final_loss (get v s) = Some node /\
              minimize_loss sft setup v opt gs s
              = Ok (mk_train_op opt node gs (S (fresh s)), s') /\
              trace s' = trace s ++ [PrintLine "New optimizer is used.";
                                     Minimize v opt node;
                                     InitOptimizerVars opt] /\
              (forall v', loss_is_build (get v' s') = loss_is_build (get v' s) /\
                          final_loss (get v' s') = final_loss (get v' s) /\
                          builds v' s' = builds v' s) /\
              (forall v', v' <> v -> get v' s' = get v' s) /\
              _loc_loss s' = _loc_loss s /\
              optimizer (get v s') = Some opt)) /\
    (forall v opt gs,
        called v calls = false ->
        exists op s',
          minimize_loss sft setup v opt gs s = Ok (op, s') /\
          builds v s' = 1%nat /\
          loss_is_build (get v s') = true /\
          optimizer (get v s') = Some opt /\
          cached_op (get v s') = Some op).
Proof.
  intros Hsetup.
  destruct (@run_spec Base sft setup Hsetup calls (init_state b)
                      (@init_consistent Base sft b))
    as (s & Hrun & Hok & Hflags).
  assert (Hfl : forall v, loss_is_build (get v s) = called v calls).
  { intros v. rewrite Hflags. now destruct v. }
  exists s. split; [exact Hrun|].
  pose proof Hok as (_ & _ & _ & Hd).
  split; [intros v; now rewrite (Hd v), Hfl|]. split; [exact Hfl|]. split.
  - intros v opt gs Hcalled. rewrite <- Hfl in Hcalled. split.
    + intros Hopt.
      exact (@minimize_cached Base sft setup Hsetup s v opt gs Hok Hcalled Hopt).
    + intros bound Hopt Hne.
      destruct (@minimize_rebind Base sft setup Hsetup s v opt bound gs
                                 Hok Hcalled Hopt Hne)
        as (node & s' & Hfin & Hmin & Hok' & Htr & Hget & Hoth & Hloc & _).
      exists node, s'. split; [exact Hfin|]. split; [exact Hmin|].
      split; [exact Htr|]. pose proof Hok' as (_ & _ & _ & Hd').
      assert (Hsame : forall v', loss_is_build (get v' s')
                                 = loss_is_build (get v' s) /\
                                 final_loss (get v' s') = final_loss (get v' s)).
      { intros v'. destruct (variant_eq_dec v' v) as [-> | Hv'].
        - rewrite Hget, Hcalled, Hfin. auto.
        - rewrite (Hoth v' Hv'). auto. }
      split.
      { intros v'. destruct (Hsame v') as [E1 E2].
        split; [exact E1|]. split; [exact E2|].
        now rewrite (Hd' v'), (Hd v'), E1. }
      split; [exact Hoth|]. split; [exact Hloc|]. now rewrite Hget.
  - intros v opt gs Hcalled. rewrite <- Hfl in Hcalled.
    destruct (@minimize_first Base sft setup Hsetup s v opt gs Hok Hcalled)
      as (op & s' & Hmin & _ & Hflag & Hopt & Hop & _ & _ & Hb & _).
    exists op, s'. auto.
Qed.

(** Three calls on a model whose base state is its flag: focal with
    optimizer 1, top-k with optimizer 1, focal with optimizer 1 again. *)
Lemma mining_state_machine_witness :
  exists s,
    run (fun flag : bool => flag) (fun _ => true)
        [(Focal, 1%nat, None); (TopK, 1%nat, None); (Focal, 1%nat, None)]
        (init_state false) = Some s /\
    builds Focal s = 1%nat /\ builds TopK s = 1%nat /\ builds Scan s = 0%nat.
Proof.
  destruct (@mining_state_machine bool (fun flag => flag) (fun _ => true) false
              [(Focal, 1%nat, None); (TopK, 1%nat, None); (Focal, 1%nat, None)])
    as (s & Hrun & Hb & _); [reflexivity|].
  exists s. split; [exact Hrun|].
  split; [exact (Hb Focal)|]. split; [exact (Hb TopK) | exact (Hb Scan)].
Defined.

End MiningFacts.

(** ** The training driver *)

Module FitFacts.

Import Fit.
Local Open Scope Q_scope.

(** A caught exception is an instance, never the class object. *)
Lemma guard_never_true (c : exc_class) (args : string) (k : exc_class) :
  is_class (Instance c args) k = false.
Proof. reflexivity. Qed.

Section Driver.

Variable session_run : nat -> nat -> run_outcome.
Variable shuffle : nat -> option (exc_class * string).
Variables (n_losses epochs n_batches : nat).

Local Abbreviation batches := (batch_loop session_run).
Local Abbreviation survives := (batch_survives session_run).


(** The batch loop when no batch raises outside [Exception]. *)
Lemma batch_loop_survives (i : nat) (js : list nat) :
  forallb (survives i) js = true ->
  forall st,
    batches i js st
    = (Normal,
       mk_locals (averaged (fetched_of session_run i js) (averages st))
                 (train_losses st) (iterator_is_none st)
                 (console st ++ printed_of session_run i js)
                 (attempted st ++ map (pair i) js)).
Proof.
  induction js as [|j js IH]; intros Hall st.
  - simpl. rewrite !app_nil_r. now destruct st.
  - cbn [forallb] in Hall. apply andb_true_iff in Hall. destruct Hall as [Hj Hjs].
    unfold batch_survives in Hj. cbn [batch_loop].
    unfold fetched_of, printed_of. cbn [flat_map map].
    destruct (session_run i j) as [l | c args] eqn:Hrun.
    + rewrite (IH Hjs). cbn. rewrite <- app_assoc. reflexivity.
    + rewrite Hj. cbn [is_class]. rewrite (IH Hjs). cbn.
      rewrite <- !app_assoc. reflexivity.
Qed.

(** The batch loop when some batch raises outside [Exception]: the
    exception leaves the loop, the lists of the epochs are as before. *)
Lemma batch_loop_aborts (i : nat) (js : list nat) :
  forallb (survives i) js = false ->
  forall st,
    exists ex st',
      batches i js st = (Propagate ex, st') /\
      isinstance_Exception ex = false /\
      train_losses st' = train_losses st /\
      iterator_is_none st' = iterator_is_none st.
Proof.
  induction js as [|j js IH]; intros Hall st; [discriminate|].
  cbn [forallb] in Hall. cbn [batch_loop]. unfold batch_survives in Hall.
  destruct (session_run i j) as [l | c args] eqn:Hrun.
  - simpl in Hall. destruct (IH Hall (set_averages (ema l (averages (attempt i j st)))
                                                    (attempt i j st)))
      as (ex & st' & Hb & Hex & Ht & Hi).
    exists ex, st'. auto.
  - destruct (isinstance_Exception (Instance c args)) eqn:Hexc.
    + simpl in Hall. cbn [is_class].
      destruct (IH Hall (emit (PrintExc (Instance c args)) (attempt i j st)))
        as (ex & st' & Hb & Hex & Ht & Hi).
      exists ex, st'. auto.
    + exists (Instance c args), (attempt i j st). auto.
Qed.

Local Abbreviation body := (epoch_body session_run shuffle n_losses n_batches).
Local Abbreviation epochs_from := (epoch_loop session_run shuffle n_losses n_batches).
Local Abbreviation completes := (epoch_completes session_run shuffle n_batches).
Local Abbreviation average := (epoch_average session_run n_losses n_batches).

(** An epoch that no exception leaves appends its averages. *)
Lemma epoch_completed (i : nat) (st : locals) :
  completes i = true ->
  body i st
  = (Normal,
     mk_locals (average i) (train_losses st ++ [average i]) false
               (console st
                ++ [PrintStr "Start shuffling..."; PrintStr "Finished shuffling."]
                ++ printed_of session_run i (range n_batches)
                ++ [PrintEpoch i (average i)])
               (attempted st ++ map (pair i) (range n_batches))).
Proof.
  unfold epoch_completes, epoch_body. destruct (shuffle i); [discriminate|].
  intros Hall. rewrite (batch_loop_survives _ _ Hall).
  unfold epoch_average, emit, set_averages. cbn.
  rewrite <- !app_assoc. reflexivity.
Qed.

(** An epoch that an exception leaves appends nothing. *)
Lemma epoch_aborted (i : nat) (st : locals) :
  completes i = false ->
  exists ex st',
    body i st = (Propagate ex, st') /\
    train_losses st' = train_losses st.
Proof.
  unfold epoch_completes, epoch_body.
  destruct (shuffle i) as [[c args]|].
  - intros _. eexists. eexists. split; reflexivity.
  - intros Hall.
    match goal with
    | |- context [batch_loop session_run i (range n_batches) ?x] =>
        destruct (batch_loop_aborts _ _ Hall x) as (ex & st' & Hb & Hex & Ht & _)
    end.
    rewrite Hb, Hex. exists ex, st'. split; [reflexivity|]. exact Ht.
Qed.

(** The per-epoch lists after the epoch loop: one entry for each epoch
    before the first one that an exception leaves. *)
Lemma epoch_loop_history (idxs : list nat) :
  forall st,
    train_losses (snd (epochs_from idxs st))
    = train_losses st ++ map average (take_while completes idxs).
Proof.
  induction idxs as [|i idxs IH]; intros st; cbn [epoch_loop take_while].
  - simpl. now rewrite app_nil_r.
  - destruct (completes i) eqn:Hc.
    + rewrite (epoch_completed i _ Hc). rewrite IH. cbn.
      now rewrite <- app_assoc.
    + destruct (epoch_aborted i st Hc) as (ex & st' & Hb & Ht).
      rewrite Hb. cbn. now rewrite Ht, app_nil_r.
Qed.

(** The epoch loop when no exception leaves any epoch. *)
Lemma epoch_loop_complete (idxs : list nat) :
  forallb completes idxs = true ->
  forall st,
  exists st',
    epochs_from idxs st = (Normal, st') /\
    train_losses st' = train_losses st ++ map average idxs /\
    attempted st'
    = attempted st ++ flat_map (fun i => map (pair i) (range n_batches)) idxs /\
    (forall o, In o (console st) -> In o (console st')) /\
    (forall i o, In i idxs -> In o (printed_of session_run i (range n_batches)) ->
                 In o (console st')).
Proof.
  induction idxs as [|i idxs IH]; intros Hall st.
  - exists st. simpl. rewrite !app_nil_r. repeat split; auto.
    intros i o [].
  - cbn [forallb] in Hall. apply andb_true_iff in Hall. destruct Hall as [Hi Hrest].
    cbn [epoch_loop]. rewrite (epoch_completed i _ Hi).
    match goal with
    | |- context [epoch_loop _ _ _ _ idxs ?x] =>
        destruct (IH Hrest x) as (st' & Hloop & Ht & Ha & Hc & Hp)
    end.
    exists st'. split; [exact Hloop|].
    cbn [train_losses attempted console] in Ht, Ha, Hc.
    split; [rewrite Ht; cbn; now rewrite <- app_assoc|].
    split; [rewrite Ha; cbn; now rewrite <- app_assoc|].
    split.
    + intros o Ho. apply Hc. apply in_or_app. now left.
    + intros k o [<- | Hk] Ho.
      * apply Hc. apply in_or_app. right.
        apply in_or_app. right. apply in_or_app. now left.
      * now apply (Hp k).
Qed.

End Driver.

Lemma fit_returns {D : Type} session_run shuffle n_losses epochs n_batches
      (to_dict : list (list Q) -> D) :
  exists st,
    fit session_run shuffle n_losses epochs n_batches to_dict
    = Returns (to_dict (train_losses st), st) /\
    train_losses st
    = map (epoch_average session_run n_losses n_batches)
          (take_while (epoch_completes session_run shuffle n_batches)
                      (range epochs)).
Proof.
  unfold fit. cbn [try_finally].
  pose proof (epoch_loop_history session_run shuffle n_losses n_batches
                                 (range epochs) (mk_locals [] [] true [] []))
    as Hh.
  destruct (epoch_loop session_run shuffle n_losses n_batches (range epochs)
                       (mk_locals [] [] true [] [])) as [c st].
  cbn [snd fst train_losses] in *.
  eexists. split; [reflexivity|].
  destruct (iterator_is_none st); exact Hh.
Qed.

Lemma forallb_all_true {A : Type} (p : A -> bool) (l : list A) :
  (forall x, In x l -> p x = true) -> forallb p l = true.
Proof. intros H. apply forallb_forall. exact H. Qed.



(** C10, as the code has it.  A call of [fit_focal], [fit_top_k] or
    [fit_scan] that has reached the epoch loop always returns the
    dictionary of per-epoch losses and raises nothing, the [return] of
    the [finally] block discarding any exception in flight; every list of
    the dictionary has one entry for each epoch before the first epoch
    that an exception leaves.  In the batch-level handler the test
    [ex is KeyboardInterrupt] is never true, so every exception that the
    handler catches, that is every exception derived from [Exception], is
    printed and the batch skipped; an exception outside [Exception], such
    as a [KeyboardInterrupt], is caught by neither handler and ends the
    loops. *)
Theorem fit_always_returns
        (session_run : nat -> nat -> run_outcome)
        (shuffle : nat -> option (exc_class * string))
        (epochs n_batches : nat) :
  let completed n_losses :=
    map (epoch_average session_run n_losses n_batches)
        (take_while (epoch_completes session_run shuffle n_batches)
                    (range epochs)) in
  (exists st,
      fit_focal session_run shuffle epochs n_batches
      = Returns (focal_dict (completed 3%nat), st)) /\
  (exists st,
      fit_top_k session_run shuffle epochs n_batches
      = Returns (pos_neg_dict (completed 4%nat), st)) /\
  (exists st,
      fit_scan session_run shuffle epochs n_batches
      = Returns (pos_neg_dict (completed 4%nat), st)) /\
  (forall n_losses,
      Forall (fun kv => length (snd kv) = length (completed n_losses))
             (focal_dict (completed n_losses) ++ pos_neg_dict (completed n_losses))) /\
  (forall c args, is_class (Instance c args) KeyboardInterrupt = false) /\
  (forall i j rest st c args,
      session_run i j = Raised c args ->
      batch_loop session_run i (j :: rest) st
      = if isinstance_Exception (Instance c args)
        then batch_loop session_run i rest
                        (emit (PrintExc (Instance c args)) (attempt i j st))
        else (Propagate (Instance c args), attempt i j st)).
Proof.
  intros completed.
  assert (Hfit : forall n_losses (to_dict : list (list Q) -> dict),
             exists st, fit session_run shuffle n_losses epochs n_batches to_dict
                        = Returns (to_dict (completed n_losses), st)).
  { intros n_losses to_dict.
    destruct (fit_returns session_run shuffle n_losses epochs n_batches to_dict)
      as (st & Hr & Ht).
    exists st. rewrite Hr, Ht. reflexivity. }
  split; [apply Hfit|]. split; [apply Hfit|]. split; [apply Hfit|].
  split.
  { intros n_losses. unfold focal_dict, pos_neg_dict, column.
    repeat constructor; cbn [snd]; apply length_map. }
  split; [reflexivity|].
  intros i j rest st c args Hrun. cbn [batch_loop]. rewrite Hrun.
  destruct (isinstance_Exception (Instance c args)); reflexivity.
Qed.

Lemma fit_always_returns_witness :
  (exists st,
      fit_focal interrupted_run never_fails 2 2 = Returns (focal_dict [], st)) /\
  batch_loop interrupted_run 0 [0; 1]%nat (mk_locals [0; 0; 0] [] false [] [])
  = (Propagate (Instance KeyboardInterrupt "interrupted"),
     attempt 0 0 (mk_locals [0; 0; 0] [] false [] [])).
Proof.
  destruct (fit_always_returns interrupted_run never_fails 2 2)
    as (Hf & _ & _ & _ & _ & Hb).
  split; [exact Hf|].
  exact (Hb 0%nat 0%nat [1%nat] (mk_locals [0; 0; 0] [] false [] [])
            KeyboardInterrupt "interrupted"%string eq_refl).
Defined.

(** C10 as stated fails: a [KeyboardInterrupt] in batch 0 of epoch 0 is
    not skipped.  Batch 1 and epoch 1 are never run, and the call returns
    empty lists. *)
Lemma keyboard_interrupt_is_not_skipped :
  interrupted_run 0 0 = Raised KeyboardInterrupt "interrupted" /\
  exists st,
    fit_focal interrupted_run never_fails 2 2
    = Returns ([("focal losses"%string, []); ("total losses"%string, []);
                ("loc losses"%string, [])], st) /\
    attempted st = [(0, 0)]%nat /\
    ~ In (0, 1)%nat (attempted st) /\
    batch_loop interrupted_run 0 [0; 1]%nat (mk_locals [0; 0; 0] [] false [] [])
    = (Propagate (Instance KeyboardInterrupt "interrupted"),
       mk_locals [0; 0; 0] [] false [] [(0, 0)]%nat).
Proof.
  split; [reflexivity|]. eexists. split; [reflexivity|].
  split; [reflexivity|]. split; [|reflexivity].
  cbn. intros [H | []]. discriminate.
Qed.

End FitFacts.

(** ** The class balancer *)

Module BalancerFacts.

Import Balancer.

Lemma unknown_objective_prints (name : string) (b : gd_balancer) (w : world) :
  name <> "alpha"%string -> name <> "geo"%string ->
  _build_objective name b w
  = mk_ended None b (mk_world (variables_created w)
                              (stdout w ++ [unknown_objective_message])).
Proof.
  intros Ha Hg. apply String.eqb_neq in Ha, Hg. unfold _build_objective.
  rewrite Ha, Hg. destruct (scaled_hcvgs b), (cardinalities b); reflexivity.
Qed.

(** C9, as the code has it.  [reset] with an objective name other than
    ['alpha'] and ['geo'] (and an [initial_c] of the right length) raises
    nothing and prints the message of [_build_objective]; it leaves the
    field [objective] as it was (unset, when the call is the
    constructor's), and it does replace the other fields: [cardinalities]
    is a new variable initialised with [initial_c], [scaled_hcvgs] the
    product of the vectors with that variable, and [optimizer] is
    [None]. *)
Theorem reset_with_unknown_objective
        (initial_c : list Q) (name : string) (b : gd_balancer) (w : world) :
  name <> "alpha"%string -> name <> "geo"%string ->
  vecs_cols b = length initial_c ->
  let card := Variable_ (variables_created w) (map (fun c => [c]) initial_c)
                        (min_amount b) (max_amount b) in
  let r := reset initial_c name b w in
  raised r = None /\
  stdout (env r) = stdout w ++ [unknown_objective_message] /\
  objective (self r) = objective b /\
  cardinalities (self r) = Some card /\
  scaled_hcvgs (self r) = Some (MatMul (vecs b) card) /\
  optimizer (self r) = Some None /\
  (forall hcv_groups min_c max_c,
      length hcv_groups = length initial_c ->
      raised (init hcv_groups initial_c name min_c max_c w) = None /\
      objective (self (init hcv_groups initial_c name min_c max_c w)) = None).
Proof.
  intros Ha Hg Hcols card r.
  assert (Hr : r = mk_ended None
                 (set_optimizer None
                    (set_scaled_hcvgs (MatMul (vecs b) card)
                                      (set_cardinalities card b)))
                 (mk_world (S (variables_created w))
                           (stdout w ++ [unknown_objective_message]))).
  { unfold r, reset. cbn [vecs_cols set_cardinalities].
    rewrite Hcols, Nat.eqb_refl. cbn [negb].
    rewrite unknown_objective_prints by assumption. reflexivity. }
  rewrite Hr. cbn.
  split; [reflexivity|]. split; [reflexivity|]. split; [reflexivity|].
  split; [reflexivity|]. split; [reflexivity|]. split; [reflexivity|].
  intros hcv_groups min_c max_c Hlen. unfold init, reset.
  cbn [vecs_cols set_cardinalities]. rewrite Hlen, Nat.eqb_refl. cbn [negb].
  rewrite unknown_objective_prints by assumption. split; reflexivity.
Qed.

Lemma reset_with_unknown_objective_witness :
  let r := reset [30; 40]%Q "beta"%string trained (env built) in
  raised r = None /\
  objective (self r) = objective trained /\
  optimizer (self r) = Some None.
Proof.
  destruct (@reset_with_unknown_objective [30; 40]%Q "beta"%string trained (env built))
    as (Hr & _ & Ho & _ & _ & Hopt & _);
    try discriminate; try reflexivity.
  cbv zeta. split; [exact Hr|]. split; [exact Ho | exact Hopt].
Defined.

(** C9 as stated fails: after a failing [reset] of a trained balancer the
    cardinalities, the scaled vectors and the optimizer are not what they
    were; only the objective is, and it still reads the old
    cardinalities. *)
Lemma failing_reset_changes_the_balancer :
  raised built = None /\
  optimizer trained = Some (Some 7%nat) /\
  let r := reset [30; 40]%Q "beta"%string trained (env built) in
  raised r = None /\
  stdout (env r) = [unknown_objective_message] /\
  cardinalities (self r) <> cardinalities trained /\
  scaled_hcvgs (self r) <> scaled_hcvgs trained /\
  optimizer (self r) <> optimizer trained /\
  objective (self r) = objective trained /\
  observable (self r) <> observable trained.
Proof.
  split; [reflexivity|]. split; [reflexivity|]. cbv zeta.
  split; [reflexivity|]. split; [reflexivity|].
  repeat split; try reflexivity; vm_compute; discriminate.
Qed.

End BalancerFacts.

(* ------------------------------------------------------------------ *)
(** ** More on the anchors: lookup, clipping, construction *)

Module AnchorExtras.

Import Anchors ArrayFacts AnchorFacts GeneratorFacts IndexFacts GeometryFacts.
Local Open Scope Q_scope.





(** X1. Round trip of [get_dbox] and the generator as the code has it.  In
    a model that the constructor built, for an existing block [b], a shape
    index [s] of that block, [x_pos] below the height and [y_pos] below the
    width of the feature map, [get_dbox(b, s, x_pos, y_pos)] returns the
    clipped corner form of the box that [_default_box_generator] wrote for
    shape [s], row [x_pos] and column [y_pos]. *)
Theorem get_dbox_reads_row_x_column_y
        (iw ih : nat) (ds : list detector) (m : ssd_model)
        (b s x y : nat) (dc : detector) (w h : Q) :
  _generate_default_boxes iw ih ds = Ok m ->
  nth_error ds b = Some dc ->
  nth_error (get_dboxes dc) s = Some (w, h) ->
  (x < fmap_height dc)%nat -> (y < fmap_width dc)%nat ->
  exists c,
    nth_error (shape_boxes iw ih (fmap_width dc) (fmap_height dc) w h)
              (x * fmap_width dc + y) = Some c /\
    c = cell_box iw ih (fmap_width dc) (fmap_height dc) w h x y /\
    get_dbox m b s x y = Ok (correct_box iw ih (to_corners c)).
Proof.
  intros Hgen Hdc Hs Hx Hy. destruct (generate_inv _ _ _ Hgen) as [_ Hv].
  eexists. split; [now apply shape_boxes_nth|]. split; [reflexivity|].
  eapply get_dbox_row_x_column_y; eassumption.
Qed.

Lemma get_dbox_reads_row_x_column_y_witness :
  exists m,
    _generate_default_boxes 6 2 [mk_detector 3 1 [(1, 1)]] = Ok m /\
    get_dbox m 0 0 0 2
    = Ok (correct_box 6 2 (to_corners (cell_box 6 2 3 1 1 1 0 2))).
Proof.
  eexists. split; [reflexivity|].
  destruct (@get_dbox_reads_row_x_column_y 6 2 [mk_detector 3 1 [(1, 1)]] _
              0 0 0 2 (mk_detector 3 1 [(1, 1)]) 1 1 eq_refl eq_refl eq_refl)
    as (c & _ & -> & Hget); [simpl; lia | simpl; lia | exact Hget].
Defined.





Lemma py_max_idempotent (a x : Q) : py_max a (py_max a x) = py_max a x.
Proof.
  unfold py_max. destruct (Qle_bool x a) eqn:E.
  - assert (Ha : Qle_bool a a = true) by (apply Qle_bool_iff, Qle_refl).
    now rewrite Ha.
  - now rewrite E.
Qed.

Lemma py_min_idempotent (a x : Q) : py_min a (py_min a x) = py_min a x.
Proof.
  unfold py_min. destruct (Qle_bool a x) eqn:E.
  - assert (Ha : Qle_bool a a = true) by (apply Qle_bool_iff, Qle_refl).
    now rewrite Ha.
  - now rewrite E.
Qed.

(** X4. [_correct_default_boxes] is a projection onto the image: applying
    it a second time changes nothing, it keeps the number of boxes, every
    box it returns lies in [0, max_x] x [0, max_y] corner by corner, and a
    box that already lies there keeps its four coordinates. *)
Theorem correct_default_boxes_projects (max_x max_y : nat) (dboxes : list box) :
  _correct_default_boxes max_x max_y (_correct_default_boxes max_x max_y dboxes)
  = _correct_default_boxes max_x max_y dboxes /\
  length (_correct_default_boxes max_x max_y dboxes) = length dboxes /\
  Forall (fun d => 0 <= b0 d /\ 0 <= b1 d /\
                   b2 d <= Qnat max_x /\ b3 d <= Qnat max_y)
         (_correct_default_boxes max_x max_y dboxes) /\
  Forall2 (fun d d' =>
             0 <= b0 d -> 0 <= b1 d ->
             b2 d <= Qnat max_x -> b3 d <= Qnat max_y ->
             box_eq d' d)
          dboxes (_correct_default_boxes max_x max_y dboxes).
Proof.
  unfold _correct_default_boxes. split; [|split; [|split]].
  - rewrite map_map. apply map_ext. intros d. unfold correct_box. cbn.
    now rewrite !py_max_idempotent, !py_min_idempotent.
  - apply length_map.
  - apply Forall_forall. intros d Hd. apply in_map_iff in Hd.
    destruct Hd as (c & <- & _). cbn -[py_max py_min].
    rewrite !py_max_spec, !py_min_spec.
    repeat split; first [apply Q.le_max_l | apply Q.le_min_l].
  - induction dboxes as [|d l IH]; simpl; constructor; [|exact IH].
    intros H0 H1 H2 H3. unfold box_eq. cbn -[py_max py_min].
    rewrite !py_max_spec, !py_min_spec.
    repeat split; first [now apply Q.max_r | now apply Q.min_r].
Qed.

(** X5. When the constructor gets its anchors.  [_default_box_generator]
    raises [ZeroDivisionError] for a feature map without columns or rows
    (before it looks at the shapes) and [ValueError] for an empty list of
    shapes; [_generate_default_boxes] raises [ValueError] for a model
    without detector blocks, and it returns a model exactly when there is a
    block and the generator raises on none of them. *)
Theorem anchors_are_built_iff (W H : nat) :
  (forall fw fh shapes,
      (fw = 0%nat \/ fh = 0%nat) ->
      _default_box_generator W H fw fh shapes = Err ZeroDivisionError) /\
  (forall fw fh,
      (0 < fw)%nat -> (0 < fh)%nat ->
      _default_box_generator W H fw fh [] = Err ValueError) /\
  _generate_default_boxes W H [] = Err ValueError /\
  (forall ds,
      (exists m, _generate_default_boxes W H ds = Ok m)
      <-> (ds <> [] /\ Forall valid_detector ds)).
Proof.
  split; [|split; [|split]].
  - intros fw fh shapes [-> | ->]; unfold _default_box_generator;
      [reflexivity|]. now destruct fw.
  - intros fw fh Hw Hh. unfold _default_box_generator.
    destruct (Nat.eqb_spec fw 0); [lia|].
    destruct (Nat.eqb_spec fh 0); [lia|]. reflexivity.
  - reflexivity.
  - intros ds. split.
    + intros (m & Hm). exact (generate_inv _ _ _ Hm).
    + intros [Hne Hv]. eexists. now apply generate_ok.
Qed.

Lemma anchors_are_built_iff_witness :
  _default_box_generator 4 4 0 2 [(1, 1)] = Err ZeroDivisionError /\
  _default_box_generator 4 4 2 2 [] = Err ValueError /\
  exists m, _generate_default_boxes 4 4 scenario = Ok m.
Proof.
  destruct (anchors_are_built_iff 4 4) as (Hz & He & _ & Hiff).
  split; [apply Hz; now left|]. split; [apply He; lia|].
  apply Hiff. split; [discriminate|].
  repeat constructor; simpl; try lia; discriminate.
Defined.

End AnchorExtras.

(* ------------------------------------------------------------------ *)
(** ** More on the loss core *)

Module LossExtras.

Import Loss GeometryFacts TopKFacts TensorFacts LossClaims ScanClaims.
Local Open Scope Q_scope.

Lemma Qabs_cases (d : Q) : (0 <= d /\ Qabs d == d) \/ (d < 0 /\ Qabs d == - d).
Proof.
  destruct (Qlt_le_dec d 0) as [H | H].
  - right. split; [exact H|]. apply Qabs_neg. now apply Qlt_le_weak.
  - left. split; [exact H|]. now apply Qabs_pos.
Qed.

(** The two branches of [smooth_l1], by the absolute difference. *)
Lemma smooth_l1_cases (d : Q) :
  (Qabs d < 1 /\ smooth_l1 d == (1 # 2) * (Qabs d * Qabs d)) \/
  (1 <= Qabs d /\ smooth_l1 d == Qabs d - (1 # 2)).
Proof.
  unfold smooth_l1, tf_less.
  destruct (Qle_bool 1 (Qabs d)) eqn:E; cbn [negb].
  - right. apply Qle_bool_iff in E. split; [exact E | reflexivity].
  - left. split.
    + apply Qnot_le_lt. intros H. apply Qle_bool_iff in H. congruence.
    + destruct (Qabs_cases d) as [[_ ->] | [_ ->]]; ring.
Qed.

Lemma square_by_abs (d : Q) : d * d == Qabs d * Qabs d.
Proof. destruct (Qabs_cases d) as [[_ ->] | [_ ->]]; ring. Qed.

Lemma smooth_l1_nonneg (d : Q) : 0 <= smooth_l1 d.
Proof.
  pose proof (Qabs_nonneg d) as Hd.
  destruct (smooth_l1_cases d) as [[Hc ->] | [Hc ->]]; [nra | lra].
Qed.

Lemma smooth_l1_zero_iff (d : Q) : smooth_l1 d == 0 <-> d == 0.
Proof.
  pose proof (Qabs_nonneg d) as Hd. split.
  - intros H0.
    assert (Ha : Qabs d == 0).
    { destruct (smooth_l1_cases d) as [[Hc Hv] | [Hc Hv]]; rewrite Hv in H0;
        [nra | lra]. }
    destruct (Qabs_cases d) as [[_ E] | [_ E]]; rewrite E in Ha; lra.
  - intros H0. destruct (smooth_l1_cases d) as [[Hc Hv] | [Hc Hv]].
    + rewrite Hv, H0. reflexivity.
    + rewrite H0 in Hc. change (Qabs 0) with 0 in Hc. lra.
Qed.

Lemma smooth_l1_monotone (d e : Q) :
  Qabs d <= Qabs e -> smooth_l1 d <= smooth_l1 e.
Proof.
  pose proof (Qabs_nonneg d) as Hd. pose proof (Qabs_nonneg e) as He.
  intros Hle.
  destruct (smooth_l1_cases d) as [[Hc ->] | [Hc ->]];
    destruct (smooth_l1_cases e) as [[Hc' ->] | [Hc' ->]]; try lra; nra.
Qed.

Lemma smooth_l1_even (d : Q) : smooth_l1 (- d) == smooth_l1 d.
Proof.
  apply Qle_antisym; apply smooth_l1_monotone; rewrite Qabs_opp; apply Qle_refl.
Qed.

(** X6. The smooth L1 loss of [_build_loc_loss]: it is never negative, it
    is zero exactly at a zero difference, it depends on the absolute
    difference only and grows with it, its two branches agree where the
    code switches between them ([0.5] at [|diff| = 1]), and it lies
    between [|diff| - 0.5] and [0.5 * diff^2]. *)
Theorem smooth_l1_is_huber (d e : Q) :
  0 <= smooth_l1 d /\
  (smooth_l1 d == 0 <-> d == 0) /\
  smooth_l1 (- d) == smooth_l1 d /\
  (Qabs d <= Qabs e -> smooth_l1 d <= smooth_l1 e) /\
  (Qabs d == 1 ->
   (1 # 2) * (d * d) == (1 # 2) /\ Qabs d - (1 # 2) == (1 # 2) /\
   smooth_l1 d == (1 # 2)) /\
  (Qabs d - (1 # 2) <= smooth_l1 d /\ smooth_l1 d <= (1 # 2) * (d * d)).
Proof.
  pose proof (Qabs_nonneg d) as Hd.
  split; [apply smooth_l1_nonneg|]. split; [apply smooth_l1_zero_iff|].
  split; [apply smooth_l1_even|]. split; [apply smooth_l1_monotone|].
  split.
  - intros H1. split; [rewrite square_by_abs, H1; reflexivity|].
    split; [rewrite H1; reflexivity|].
    destruct (smooth_l1_cases d) as [[Hc Hv] | [Hc Hv]]; rewrite Hv, H1;
      reflexivity.
  - rewrite square_by_abs.
    destruct (smooth_l1_cases d) as [[Hc ->] | [Hc ->]]; split; nra.
Qed.

Lemma smooth_l1_is_huber_witness :
  smooth_l1 (1 # 2) <= smooth_l1 (- 3) /\ smooth_l1 (- 1) == (1 # 2).
Proof.
  destruct (smooth_l1_is_huber (1 # 2) (- 3)) as (_ & _ & _ & Hm & _).
  destruct (smooth_l1_is_huber (- 1) 0) as (_ & _ & _ & _ & Hs & _).
  split; [apply Hm; vm_compute; discriminate|].
  apply Hs. reflexivity.
Defined.


(** *** Sums of tensors entry by entry *)

Lemma Forall_map2 {A B C : Type} (P : C -> Prop) (f : A -> B -> C)
      (l : list A) (l' : list B) :
  (forall a b, In a l -> In b l' -> P (f a b)) -> Forall P (map2 f l l').
Proof.
  revert l'. induction l as [|a l IH]; intros [|b l'] H; cbn; constructor.
  - apply H; now left.
  - apply IH. intros; apply H; now right.
Qed.

Lemma sum_nonneg (v : list Q) :
  Forall (fun x => 0 <= x) v -> 0 <= reduce_sum_vec v.
Proof.
  induction 1 as [|x v Hx _ IH]; [apply Qle_refl|].
  change (0 <= x + reduce_sum_vec v). lra.
Qed.

Lemma sum_zero (v : list Q) :
  Forall (fun x => x == 0) v -> reduce_sum_vec v == 0.
Proof.
  induction 1 as [|x v Hx _ IH]; [reflexivity|].
  change (x + reduce_sum_vec v == 0). rewrite Hx, IH. reflexivity.
Qed.

Lemma binary_entries (mask : matrix) :
  binary_mask mask = true ->
  Forall (Forall (fun x => x == 0 \/ x == 1)) mask.
Proof.
  unfold binary_mask. intros H. apply Forall_forall. intros r Hr.
  apply Forall_forall. intros x Hx.
  rewrite forallb_forall in H. specialize (H r Hr).
  rewrite forallb_forall in H. specialize (H x Hx).
  apply orb_true_iff in H. destruct H as [H | H]; apply Qeq_bool_iff in H; auto.
Qed.

(** The entries of the masked smooth L1 tensor of [_build_loc_loss]. *)
Local Abbreviation loc_entries fd :=
  (map2 mat_mul_elem
        (map (map (fun x => repeat x 4)) (input_loc_loss_masks fd))
        (map (map (map smooth_l1))
             (map2 mat_sub (input_loc fd) (train_offsets fd)))).

Lemma loc_entries_nonneg (fd : feed) :
  binary_mask (input_loc_loss_masks fd) = true ->
  Forall (fun x => 0 <= x) (concat (concat (loc_entries fd))).
Proof.
  intros Hb. apply binary_entries in Hb.
  apply Forall_concat, Forall_concat.
  apply Forall_map2. intros mm ll Hmm Hll.
  apply Forall_map2. intros m l Hm Hl.
  apply Forall_map2. intros x y Hx Hy.
  apply in_map_iff in Hmm. destruct Hmm as (mrow & <- & Hmrow).
  apply in_map_iff in Hm. destruct Hm as (mk & <- & Hmk).
  apply repeat_spec in Hx. subst x.
  apply in_map_iff in Hll. destruct Hll as (dd & <- & _).
  apply in_map_iff in Hl. destruct Hl as (d & <- & _).
  apply in_map_iff in Hy. destruct Hy as (z & <- & _).
  rewrite Forall_forall in Hb. specialize (Hb mrow Hmrow).
  rewrite Forall_forall in Hb. specialize (Hb mk Hmk).
  pose proof (smooth_l1_nonneg z) as Hz.
  destruct Hb as [-> | ->]; [rewrite Qmult_0_l; apply Qle_refl|].
  rewrite Qmult_1_l. exact Hz.
Qed.

Lemma masked_row_zero (m : Q) (l o : list Q) :
  (~ m == 0 -> l = o) ->
  Forall (fun x => x == 0)
         (map2 Qmult (repeat m 4) (map smooth_l1 (map2 Qminus l o))).
Proof.
  intros H. apply Forall_map2. intros x y Hx Hy.
  apply repeat_spec in Hx. subst x.
  destruct (Qeq_dec m 0) as [E | E]; [rewrite E; apply Qmult_0_l|].
  specialize (H E). subst o.
  apply in_map_iff in Hy. destruct Hy as (z & <- & Hz).
  assert (Hz0 : z == 0).
  { clear - Hz. induction l as [|a l IH]; cbn in Hz; [contradiction|].
    destruct Hz as [<- | Hz]; [ring | auto]. }
  apply smooth_l1_zero_iff in Hz0. rewrite Hz0. ring.
Qed.

Lemma masked_loc_zero (masks : matrix) :
  forall locs offs : list matrix,
    (forall b a, ~ nth a (nth b masks []) 0 == 0 ->
                 nth a (nth b locs []) [] = nth a (nth b offs []) []) ->
    Forall (fun x => x == 0)
           (concat (concat
              (map2 mat_mul_elem
                    (map (map (fun x => repeat x 4)) masks)
                    (map (map (map smooth_l1)) (map2 mat_sub locs offs))))).
Proof.
  induction masks as [|mrow masks IH]; intros [|lrow locs] [|orow offs] H;
    cbn [map map2 concat]; try constructor.
  rewrite concat_app, Forall_app. split.
  - assert (Hrow : forall a, ~ nth a mrow 0 == 0 ->
                             nth a lrow [] = nth a orow []).
    { intros a. exact (H 0%nat a). }
    clear - Hrow. unfold mat_mul_elem, mat_sub. revert lrow orow Hrow.
    induction mrow as [|m mrow IHr]; intros [|l lrow] [|o orow] Hrow;
      cbn [map map2 concat]; try constructor.
    rewrite Forall_app. split.
    + apply masked_row_zero. exact (Hrow 0%nat).
    + apply IHr. intros a. exact (Hrow (S a)).
  - apply IH. intros b a. exact (H (S b) a).
Qed.

(** X7. The localisation loss of [_build_loc_loss] on a batch with a
    binary mask: it is non-finite when no anchor is positive; otherwise
    it is a finite value that is never negative, and it is zero as soon as
    the predicted offsets equal the targets at every positive anchor,
    whatever is predicted for the other anchors. *)
Theorem loc_loss_counts_positive_anchors (fd : feed) :
  binary_mask (input_loc_loss_masks fd) = true ->
  (_num_positives fd < 1 -> _loc_loss fd = None) /\
  (1 <= _num_positives fd ->
   exists v,
     _loc_loss fd = Some v /\ 0 <= v /\
     ((forall b a,
          ~ nth a (nth b (input_loc_loss_masks fd) []) 0 == 0 ->
          nth a (nth b (input_loc fd) []) []
          = nth a (nth b (train_offsets fd) []) []) ->
      v == 0)).
Proof.
  intros Hb. split.
  - intros Hlt. unfold _loc_loss. apply GuardClaims.tf_div_by_zero.
    apply no_positives; assumption.
  - intros Hpos. unfold _loc_loss, tf_div.
    destruct (Qeq_bool (_num_positives fd) 0) eqn:E.
    { apply Qeq_bool_iff in E. lra. }
    eexists. split; [reflexivity|]. split.
    + apply Qle_shift_div_l; [lra|]. rewrite Qmult_0_l.
      apply sum_nonneg. apply loc_entries_nonneg. exact Hb.
    + intros Hsame. unfold reduce_sum3, reduce_sum.
      rewrite (sum_zero (masked_loc_zero _ _ _ Hsame)).
      unfold Qdiv. ring.
Qed.

Lemma loc_loss_counts_positive_anchors_witness :
  exists v, _loc_loss one_positive = Some v /\ 0 <= v.
Proof.
  destruct (loc_loss_counts_positive_anchors one_positive) as [_ H];
    [reflexivity|].
  destruct H as (v & Hv & Hn & _); [vm_compute; discriminate|].
  exists v. split; assumption.
Defined.


(** *** The candidates of the hard-negative selection *)

Lemma Qmult_comm_eq (x y : Q) : (x * y)%Q = (y * x)%Q.
Proof.
  unfold Qmult. f_equal; [apply Z.mul_comm | apply Pos.mul_comm].
Qed.

Lemma map2_swap {A B C : Type} (f : A -> B -> C) (l : list A) (l' : list B) :
  map2 f l l' = map2 (fun b a => f a b) l' l.
Proof.
  revert l'. induction l as [|a l IH]; intros [|b l']; cbn; try reflexivity.
  f_equal. apply IH.
Qed.

(** The flattened candidates of the top-k variant are the rows of the
    scan variant, one after the other. *)
Lemma candidates_agree (B A : nat) (fd : feed) :
  has_shape B A (input_loc_loss_masks fd) = true ->
  has_shape B A (ce_loss fd) = true ->
  top_k_negative_flat B A fd = Ok (concat (scan_negative_rows B A fd)) /\
  scan_negative_rows B A fd
  = map2 (map2 (fun c mk => c * (1 - mk))) (ce_loss fd) (input_loc_loss_masks fd).
Proof.
  intros Hm Hc. rewrite (top_k_flat_ok _ _ _ Hm Hc).
  unfold scan_negative_rows. rewrite (scan_negative_entries _ _ _ _ Hm).
  split; [|reflexivity]. do 2 f_equal.
  rewrite map2_swap. apply map2_ext_in. intros c m _ _.
  rewrite map2_swap. apply map2_ext_in. intros x y _ _.
  apply Qmult_comm_eq.
Qed.

Lemma row_split (c m : list Q) :
  length c = length m ->
  reduce_sum_vec (map2 Qmult c m)
  + reduce_sum_vec (map2 (fun x mk => x * (1 - mk)) c m)
  == reduce_sum_vec c.
Proof.
  unfold reduce_sum_vec. revert m.
  induction c as [|x c IH]; intros [|mk m] Hl; cbn in *; try discriminate;
    [reflexivity|].
  rewrite <- (IH m) by congruence. ring.
Qed.

Lemma matrix_split (A : nat) (ce mask : matrix) :
  length ce = length mask ->
  (forall r, In r ce -> length r = A) ->
  (forall r, In r mask -> length r = A) ->
  reduce_sum (mat_mul_elem ce mask)
  + reduce_sum (map2 (map2 (fun x mk => x * (1 - mk))) ce mask)
  == reduce_sum ce.
Proof.
  unfold reduce_sum, mat_mul_elem. revert mask.
  induction ce as [|c ce IH]; intros [|m mask] Hl Hc Hm; cbn in Hl;
    try discriminate; [reflexivity|].
  cbn [map2 concat]. rewrite !reduce_sum_vec_app.
  rewrite <- (IH mask); [| congruence | intros; apply Hc; now right
                          | intros; apply Hm; now right].
  rewrite <- (@row_split c m).
  - ring.
  - rewrite Hc, Hm; [reflexivity | now left | now left].
Qed.

(** X8. Every anchor's cross-entropy is counted once: the sum that the
    positive confidence loss takes (cross-entropy times mask) and the sum
    of all candidates of the hard-negative selection add up to the sum
    of the cross-entropy tensor; the top-k variant and the scan variant
    select from the same [batch_sz * total_predictions] candidates, the
    first from all of them at once and the second row by row. *)
Theorem candidates_complement_positives (B A : nat) (fd : feed) :
  has_shape B A (input_loc_loss_masks fd) = true ->
  has_shape B A (ce_loss fd) = true ->
  exists flat,
    top_k_negative_flat B A fd = Ok flat /\
    flat = concat (scan_negative_rows B A fd) /\
    length flat = (B * A)%nat /\
    reduce_sum (mat_mul_elem (ce_loss fd) (input_loc_loss_masks fd))
    + reduce_sum_vec flat
    == reduce_sum (ce_loss fd).
Proof.
  intros Hm Hc. destruct (candidates_agree _ _ _ Hm Hc) as [Hflat Hrows].
  exists (concat (scan_negative_rows B A fd)).
  split; [exact Hflat|]. split; [reflexivity|]. split.
  - rewrite Hrows. apply flat_length; assumption.
  - rewrite Hrows.
    destruct (has_shape_rows _ _ _ Hm) as [Lm Rm].
    destruct (has_shape_rows _ _ _ Hc) as [Lc Rc].
    apply (@matrix_split A); [congruence | exact Rc | exact Rm].
Qed.

Lemma candidates_complement_positives_witness :
  exists flat,
    top_k_negative_flat 1 4 one_positive = Ok flat /\
    reduce_sum (mat_mul_elem (ce_loss one_positive)
                             (input_loc_loss_masks one_positive))
    + reduce_sum_vec flat
    == reduce_sum (ce_loss one_positive).
Proof.
  destruct (@candidates_complement_positives 1 4 one_positive)
    as (flat & Hf & _ & _ & Hs); try reflexivity.
  exists flat. split; assumption.
Defined.


(** *** Sums of selected entries *)

Lemma sum_perm (l l' : list Q) :
  Permutation l l' -> reduce_sum_vec l == reduce_sum_vec l'.
Proof.
  unfold reduce_sum_vec.
  induction 1 as [| x l l' _ IH | x y l | l l' l'' _ IH1 _ IH2]; cbn.
  - reflexivity.
  - rewrite IH. reflexivity.
  - ring.
  - rewrite IH1. exact IH2.
Qed.

Lemma Qnat_S (n : nat) : Qnat (S n) == Qnat n + 1.
Proof.
  unfold Qnat. rewrite Nat2Z.inj_succ, <- Z.add_1_r, inject_Z_plus. reflexivity.
Qed.

Lemma sum_le_bound (l : list Q) (x : Q) :
  (forall y, In y l -> y <= x) -> reduce_sum_vec l <= Qnat (length l) * x.
Proof.
  induction l as [|y l IH]; intros H.
  - cbn. rewrite Qmult_0_l. apply Qle_refl.
  - change (y + reduce_sum_vec l <= Qnat (S (length l)) * x).
    rewrite Qnat_S.
    assert (Hy : y <= x) by (apply H; now left).
    assert (Hl : reduce_sum_vec l <= Qnat (length l) * x)
      by (apply IH; intros; apply H; now right).
    lra.
Qed.

Lemma sum_ge_bound (l : list Q) (c : Q) :
  (forall x, In x l -> c <= x) -> Qnat (length l) * c <= reduce_sum_vec l.
Proof.
  induction l as [|y l IH]; intros H.
  - cbn. rewrite Qmult_0_l. apply Qle_refl.
  - change (Qnat (S (length l)) * c <= y + reduce_sum_vec l).
    rewrite Qnat_S.
    assert (Hy : c <= y) by (apply H; now left).
    assert (Hl : Qnat (length l) * c <= reduce_sum_vec l)
      by (apply IH; intros; apply H; now right).
    lra.
Qed.

(** Entries that are not below the others have the larger mean. *)
Lemma selected_mean (sel rest : list Q) :
  (forall x y, In x sel -> In y rest -> y <= x) ->
  reduce_sum_vec rest * Qnat (length sel)
  <= Qnat (length rest) * reduce_sum_vec sel.
Proof.
  intros H. induction rest as [|y rest IH].
  - cbn. rewrite !Qmult_0_l. apply Qle_refl.
  - change ((y + reduce_sum_vec rest) * Qnat (length sel)
            <= Qnat (S (length rest)) * reduce_sum_vec sel).
    rewrite Qnat_S.
    assert (Hy : Qnat (length sel) * y <= reduce_sum_vec sel).
    { apply sum_ge_bound. intros x Hx. apply H; [exact Hx | now left]. }
    assert (Hr : reduce_sum_vec rest * Qnat (length sel)
                 <= Qnat (length rest) * reduce_sum_vec sel).
    { apply IH. intros x z Hx Hz. apply H; [exact Hx | now right]. }
    lra.
Qed.

Lemma descending_head (x : Q) (l : list Q) :
  descending (x :: l) -> forall y, In y (x :: l) -> y <= x.
Proof.
  intros Hd y [<- | Hy]; [apply Qle_refl|].
  apply StronglySorted_inv in Hd. destruct Hd as [_ Hall].
  rewrite Forall_forall in Hall. now apply Hall.
Qed.

(** What the top-k variant computes, once its count [k] is in range. *)
Lemma top_k_value (B A : nat) (fd : feed) (ratio : Q) (k : Z) :
  has_shape B A (input_loc_loss_masks fd) = true ->
  has_shape B A (ce_loss fd) = true ->
  k = Qtrunc (_num_positives fd * ratio) ->
  (0 < k <= Z.of_nat (B * A))%Z ->
  (k < 2 ^ 31)%Z ->
  let flat := concat (scan_negative_rows B A fd) in
  length flat = (B * A)%nat /\
  top_k_negative_flat B A fd = Ok flat /\
  _top_k_negative_confidence_loss B A fd ratio
  = Ok (Some (reduce_sum_vec (firstn (Z.to_nat k) (sort_desc flat))
              / inject_Z k)).
Proof.
  intros Hm Hc Hk Hrange H31 flat.
  destruct (candidates_agree _ _ _ Hm Hc) as [Hflat Hrows].
  assert (Hlen : length flat = (B * A)%nat).
  { unfold flat. rewrite Hrows. apply flat_length; assumption. }
  assert (Hpick : top_k_num_negatives_to_pick fd ratio = Some k).
  { unfold top_k_num_negatives_to_pick. rewrite cast_int32_trunc; [congruence|].
    rewrite <- Hk. lia. }
  split; [exact Hlen|]. split; [exact Hflat|].
  unfold _top_k_negative_confidence_loss, top_k_negative_selected.
  rewrite Hflat. cbn [Py.bind]. rewrite Hpick. unfold tf_top_k.
  fold flat. rewrite Hlen.
  destruct ((k <? 0)%Z || (Z.of_nat (B * A) <? k)%Z) eqn:E.
  { apply orb_true_iff in E. destruct E as [E | E]; apply Z.ltb_lt in E; lia. }
  cbn [Py.bind]. unfold tf_div.
  destruct (Qeq_bool (inject_Z k) 0) eqn:E0; [|reflexivity].
  apply Qeq_bool_iff in E0. exfalso.
  unfold Qeq in E0. simpl in E0. lia.
Qed.

(** X9. Hard-negative mining of the top-k variant, for a count [k] of at
    least one: the negative confidence loss (the mean of the [k] selected
    candidates) is at least the mean of all candidates and at least every
    candidate that was not selected, and it does not exceed the largest
    candidate. *)
Theorem top_k_loss_is_a_hard_mean (B A : nat) (fd : feed) (ratio : Q) (k : Z) :
  has_shape B A (input_loc_loss_masks fd) = true ->
  has_shape B A (ce_loss fd) = true ->
  k = Qtrunc (_num_positives fd * ratio) ->
  (0 < k <= Z.of_nat (B * A))%Z ->
  (k < 2 ^ 31)%Z ->
  exists flat v,
    top_k_negative_flat B A fd = Ok flat /\
    _top_k_negative_confidence_loss B A fd ratio = Ok (Some v) /\
    reduce_sum_vec flat / Qnat (B * A) <= v /\
    (forall y, In y (skipn (Z.to_nat k) (sort_desc flat)) -> y <= v) /\
    (exists x, In x flat /\ v <= x).
Proof.
  intros Hm Hc Hk Hrange H31.
  destruct (@top_k_value B A fd ratio k Hm Hc Hk Hrange H31)
    as (Hlen & Hflat & Hloss).
  set (flat := concat (scan_negative_rows B A fd)) in *.
  set (s := sort_desc flat) in *.
  set (n := Z.to_nat k) in *.
  exists flat, (reduce_sum_vec (firstn n s) / inject_Z k).
  split; [exact Hflat|]. split; [exact Hloss|].
  assert (Hs : length s = (B * A)%nat)
    by (unfold s; rewrite sort_desc_length; exact Hlen).
  assert (Hn : (0 < n <= B * A)%nat) by (unfold n; lia).
  assert (Hsel : length (firstn n s) = n) by (rewrite length_firstn; lia).
  assert (Hrest : length (skipn n s) = (B * A - n)%nat)
    by (rewrite length_skipn; lia).
  assert (Hkn : inject_Z k == Qnat n).
  { unfold Qnat, n. rewrite Z2Nat.id by lia. reflexivity. }
  assert (Hnpos : 0 < Qnat n) by (apply Qnat_pos; lia).
  assert (Hsplit : forall x y, In x (firstn n s) -> In y (skipn n s) -> y <= x).
  { apply descending_split. apply sort_desc_sorted. }
  assert (Hsum : reduce_sum_vec flat
                 == reduce_sum_vec (firstn n s) + reduce_sum_vec (skipn n s)).
  { rewrite <- reduce_sum_vec_app, firstn_skipn. apply sum_perm.
    apply sort_desc_perm. }
  pose proof (selected_mean _ _ Hsplit) as Hmean.
  rewrite Hsel, Hrest in Hmean.
  assert (HBA : Qnat (B * A) == Qnat n + Qnat (B * A - n)).
  { unfold Qnat. rewrite <- inject_Z_plus. apply inject_Z_injective. lia. }
  assert (HBApos : 0 < Qnat (B * A)) by (apply Qnat_pos; lia).
  assert (Hdesc : descending (firstn n s)).
  { pose proof (sort_desc_sorted flat) as Hd. fold s in Hd.
    rewrite <- (firstn_skipn n s) in Hd.
    revert Hd. generalize (firstn n s) (skipn n s).
    intros l1 l2. induction l1 as [|a l1 IH]; cbn; intros Hd; [constructor|].
    apply StronglySorted_inv in Hd. destruct Hd as [Hd Hall].
    constructor; [now apply IH|].
    rewrite Forall_app in Hall. tauto. }
  split; [|split].
  - rewrite Hkn. apply Qle_shift_div_l; [exact Hnpos|].
    setoid_replace (reduce_sum_vec flat / Qnat (B * A) * Qnat n)
      with (reduce_sum_vec flat * Qnat n / Qnat (B * A)) by (field; lra).
    apply Qle_shift_div_r; [exact HBApos|].
    rewrite Hsum, HBA. lra.
  - intros y Hy. rewrite Hkn. apply Qle_shift_div_l; [exact Hnpos|].
    assert (P : Qnat (length (firstn n s)) * y <= reduce_sum_vec (firstn n s)).
    { apply sum_ge_bound. intros x Hx. now apply Hsplit. }
    rewrite Hsel in P. lra.
  - assert (Hex : exists h t, firstn n s = h :: t).
    { destruct (firstn n s) as [|h t]; [cbn in Hsel; lia | eauto]. }
    destruct Hex as (h & t & Ef).
    exists h. split.
    + apply (Permutation_in h (Permutation_sym (sort_desc_perm flat))).
      fold s. rewrite <- (firstn_skipn n s), Ef. now left.
    + rewrite Hkn. apply Qle_shift_div_r; [exact Hnpos|].
      assert (P : reduce_sum_vec (firstn n s)
                  <= Qnat (length (firstn n s)) * h).
      { apply sum_le_bound. rewrite Ef. apply descending_head.
        rewrite <- Ef. exact Hdesc. }
      rewrite Hsel in P. lra.
Qed.

Lemma top_k_loss_is_a_hard_mean_witness :
  exists flat v,
    top_k_negative_flat 1 4 one_positive = Ok flat /\
    _top_k_negative_confidence_loss 1 4 one_positive (11 # 4) = Ok (Some v) /\
    reduce_sum_vec flat / Qnat (1 * 4) <= v.
Proof.
  destruct (@top_k_loss_is_a_hard_mean 1 4 one_positive (11 # 4) 2)
    as (flat & v & Hf & Hv & Hm & _);
    try reflexivity; try (vm_compute; intuition discriminate).
  exists flat, v. split; [exact Hf|]. split; assumption.
Defined.


(** *** The scan variant against the top-k variant *)

Lemma Qtrunc_floor (q : Q) : 0 <= q -> Qtrunc q = Qfloor q.
Proof.
  destruct q as [n d]. unfold Qle, Qtrunc, Qfloor. cbn. intros H.
  apply Z.quot_div_nonneg; lia.
Qed.

Lemma Qtrunc_pos (q : Q) :
  (0 < Qtrunc q)%Z -> 0 < q /\ inject_Z (Qtrunc q) <= q.
Proof.
  intros H.
  assert (Hq : 0 <= q).
  { destruct q as [n d]. unfold Qle, Qtrunc in *. cbn in *.
    destruct (Z_lt_le_dec n 0) as [Hn | Hn]; [|lia]. exfalso.
    replace n with (- (- n))%Z in H by lia.
    rewrite Z.quot_opp_l in H by lia.
    assert (0 <= (- n) ÷ Z.pos d)%Z by (apply Z.quot_pos; lia). lia. }
  rewrite (Qtrunc_floor Hq) in *.
  pose proof (Qfloor_le q) as Hf. split; [|exact Hf].
  assert (inject_Z 1 <= inject_Z (Qfloor q)) by (rewrite <- Zle_Qle; lia).
  change (inject_Z 1) with 1 in *. lra.
Qed.

(** The per-element count of the scan variant, taken [B] times, does
    not exceed the count of the top-k variant. *)
Lemma share_of_count (x : Q) (B : nat) :
  0 <= x -> (0 < B)%nat ->
  (0 <= Qtrunc (x / Qnat B))%Z /\
  (Z.of_nat B * Qtrunc (x / Qnat B) <= Qtrunc x)%Z.
Proof.
  intros Hx HB. pose proof (Qnat_pos HB) as HBq.
  assert (Hd : 0 <= x / Qnat B).
  { apply Qle_shift_div_l; [exact HBq|]. lra. }
  rewrite (Qtrunc_floor Hd), (Qtrunc_floor Hx). split.
  - change 0%Z with (Qfloor 0). now apply Qfloor_resp_le.
  - rewrite <- (Qfloor_Z (Z.of_nat B * Qfloor (x / Qnat B))).
    apply Qfloor_resp_le. rewrite inject_Z_mult.
    pose proof (Qfloor_le (x / Qnat B)) as Hf.
    fold (Qnat B).
    assert (Hm : Qnat B * inject_Z (Qfloor (x / Qnat B))
                 <= Qnat B * (x / Qnat B)).
    { apply Qmult_le_l; assumption. }
    setoid_replace (Qnat B * (x / Qnat B)) with x in Hm by (field; lra).
    exact Hm.
Qed.

Lemma descending_threshold (s : list Q) :
  descending s ->
  forall k, (0 < k <= length s)%nat ->
  exists t,
    In t s /\
    (forall x, In x (firstn k s) -> t <= x) /\
    (forall y, In y (skipn k s) -> y <= t).
Proof.
  unfold descending. induction 1 as [|a s Hd IH Hall]; intros k Hk;
    cbn in Hk; [lia|].
  rewrite Forall_forall in Hall.
  destruct k as [|k]; [lia|]. destruct k as [|k].
  - exists a. split; [now left|]. split.
    + intros x [<- | []]. apply Qle_refl.
    + intros y Hy. now apply Hall.
  - destruct (IH (S k)) as (t & Ht & HT & HR); [lia|].
    exists t. split; [now right|]. split.
    + intros x Hx. change (In x (a :: firstn (S k) s)) in Hx.
      destruct Hx as [<- | Hx]; [now apply Hall | now apply HT].
    + intros y Hy. change (In y (skipn (S k) s)) in Hy. now apply HR.
Qed.

(** By how much the entries of a list exceed a threshold. *)
Local Abbreviation excess t l :=
  (reduce_sum_vec (map (fun x => Qmax 0 (x - t)) l)).

Lemma excess_above (t : Q) (l : list Q) :
  (forall x, In x l -> t <= x) ->
  excess t l == reduce_sum_vec l - Qnat (length l) * t.
Proof.
  induction l as [|x l IH]; intros H.
  - change (0 == 0 - 0 * t). ring.
  - change (Qmax 0 (x - t) + excess t l
            == x + reduce_sum_vec l - Qnat (S (length l)) * t).
    rewrite Qnat_S, IH by (intros; apply H; now right).
    rewrite Q.max_r by (assert (t <= x) by (apply H; now left); lra).
    ring.
Qed.

Lemma excess_below (t : Q) (l : list Q) :
  (forall x, In x l -> x <= t) -> excess t l == 0.
Proof.
  induction l as [|x l IH]; intros H.
  - reflexivity.
  - change (Qmax 0 (x - t) + excess t l == 0).
    rewrite IH by (intros; apply H; now right).
    rewrite Q.max_l by (assert (x <= t) by (apply H; now left); lra).
    ring.
Qed.

Lemma excess_nonneg (t : Q) (l : list Q) : 0 <= excess t l.
Proof.
  apply sum_nonneg. apply Forall_forall. intros y Hy.
  apply in_map_iff in Hy. destruct Hy as (x & <- & _). apply Q.le_max_l.
Qed.

Lemma excess_covers (t : Q) (l : list Q) :
  reduce_sum_vec l <= Qnat (length l) * t + excess t l.
Proof.
  induction l as [|x l IH].
  - cbn. rewrite Qmult_0_l. apply Qle_refl.
  - change (x + reduce_sum_vec l
            <= Qnat (S (length l)) * t + (Qmax 0 (x - t) + excess t l)).
    rewrite Qnat_S. pose proof (Q.le_max_r 0 (x - t)). lra.
Qed.

Lemma Qnat_le (a b : nat) : (a <= b)%nat -> Qnat a <= Qnat b.
Proof. intros H. unfold Qnat. rewrite <- Zle_Qle. lia. Qed.

(** No selection of at most [k] entries of a list without negative
    entries has a larger sum than the [k] largest entries. *)
Lemma sub_selection_le (l sel rest : list Q) (k : nat) :
  Permutation (sel ++ rest) l ->
  Forall (fun x => 0 <= x) l ->
  (length sel <= k <= length l)%nat ->
  reduce_sum_vec sel <= reduce_sum_vec (firstn k (sort_desc l)).
Proof.
  intros Hp Hnn Hk.
  destruct (Nat.eq_dec k 0) as [-> | Hk0].
  { destruct sel; [apply Qle_refl | cbn in Hk; lia]. }
  pose proof (sort_desc_perm l) as Hsp.
  pose proof (sort_desc_length l) as Hsl.
  set (s := sort_desc l) in *.
  destruct (@descending_threshold s (sort_desc_sorted l) k)
    as (t & Ht & HT & HR); [lia|].
  assert (Ht0 : 0 <= t).
  { rewrite Forall_forall in Hnn. apply Hnn.
    apply (Permutation_in t (Permutation_sym Hsp)). exact Ht. }
  assert (E1 := excess_covers t sel).
  assert (E2 : excess t sel <= excess t s).
  { rewrite <- (sum_perm (Permutation_map (fun x => Qmax 0 (x - t))
                                          (perm_trans Hp Hsp))).
    rewrite map_app, reduce_sum_vec_app.
    pose proof (excess_nonneg t rest). lra. }
  assert (E3 : excess t s == excess t (firstn k s) + excess t (skipn k s)).
  { rewrite <- (firstn_skipn k s) at 1.
    rewrite map_app, reduce_sum_vec_app. reflexivity. }
  rewrite (excess_below _ HR), (excess_above _ HT) in E3.
  rewrite length_firstn, Nat.min_l in E3 by lia.
  pose proof (@Qnat_le (length sel) k ltac:(lia)) as Hle.
  assert (0 <= (Qnat k - Qnat (length sel)) * t)
    by (apply Qmult_le_0_compat; lra).
  lra.
Qed.

(** The selections of the rows, taken together, are a selection from
    the rows taken together. *)
Lemma concat_selection (k : Z) (rows sels : list (list Q)) :
  Forall2 (top_of k) rows sels ->
  exists rest, Permutation (concat sels ++ rest) (concat rows).
Proof.
  induction 1 as [| row sel rows sels Htop _ [rest IH]].
  - exists []. constructor.
  - destruct Htop as (_ & rest0 & Hp & _).
    exists (rest0 ++ rest). cbn [concat].
    rewrite <- app_assoc.
    rewrite (Permutation_app_swap_app (concat sels) rest0 rest).
    rewrite app_assoc. now apply Permutation_app.
Qed.

Lemma candidates_nonneg (ce mask : matrix) :
  forallb (forallb (Qle_bool 0)) ce = true ->
  binary_mask mask = true ->
  Forall (fun x => 0 <= x)
         (concat (map2 (map2 (fun c mk => c * (1 - mk))) ce mask)).
Proof.
  intros Hc Hb. apply binary_entries in Hb.
  apply Forall_concat. apply Forall_map2. intros c m Hcr Hmr.
  apply Forall_map2. intros x mk Hx Hmk.
  rewrite forallb_forall in Hc. specialize (Hc c Hcr).
  rewrite forallb_forall in Hc. specialize (Hc x Hx).
  apply Qle_bool_iff in Hc.
  rewrite Forall_forall in Hb. specialize (Hb m Hmr).
  rewrite Forall_forall in Hb. specialize (Hb mk Hmk).
  destruct Hb as [-> | ->]; [|setoid_replace (1 - 1) with 0 by ring];
    [|rewrite Qmult_0_r; apply Qle_refl].
  setoid_replace (x * (1 - 0)) with x by ring. exact Hc.
Qed.

(** X10. For one batch (binary mask, no negative cross-entropy) and one
    ratio for which the top-k variant selects at least one candidate,
    both negative confidence losses are finite and the scan variant's
    is never larger than the top-k variant's: the scan variant selects
    at most as many candidates, restricted to equal shares per image,
    and divides by the untruncated count. *)
Theorem scan_loss_below_top_k_loss (B A : nat) (fd : feed) (ratio : Q) (k : Z) :
  (0 < B)%nat ->
  has_shape B A (input_loc_loss_masks fd) = true ->
  has_shape B A (ce_loss fd) = true ->
  binary_mask (input_loc_loss_masks fd) = true ->
  forallb (forallb (Qle_bool 0)) (ce_loss fd) = true ->
  k = Qtrunc (_num_positives fd * ratio) ->
  (0 < k <= Z.of_nat (B * A))%Z ->
  (k < 2 ^ 31)%Z ->
  exists s t,
    _scan_negative_confidence_loss B A fd ratio = Ok (Some s) /\
    _top_k_negative_confidence_loss B A fd ratio = Ok (Some t) /\
    0 <= s /\ s <= t.
Proof.
  intros HB Hm Hc Hbin Hnn Hk Hrange H31.
  destruct (@top_k_value B A fd ratio k Hm Hc Hk Hrange H31)
    as (Hlen & _ & Htop).
  destruct (candidates_agree _ _ _ Hm Hc) as [_ Hrows].
  set (x := _num_positives fd * ratio) in *.
  destruct (@Qtrunc_pos x) as [Hx Hkx]; [lia|]. rewrite <- Hk in Hkx.
  destruct (@share_of_count x B) as [Hk0 HkB]; [lra | exact HB |].
  rewrite <- Hk in HkB.
  set (k' := Qtrunc (x / Qnat B)) in *.
  assert (HkA : (k' <= Z.of_nat A)%Z) by nia.
  assert (Hper : num_negatives_per_batch B fd ratio = Some k').
  { unfold num_negatives_per_batch, tf_div.
    destruct (Qeq_bool (Qnat B) 0) eqn:E.
    - apply Qeq_bool_iff in E. pose proof (Qnat_pos HB) as P. lra.
    - unfold scan_num_negatives. fold x. rewrite cast_int32_trunc; [reflexivity|].
      fold k'. nia. }
  destruct (map2_rows_shape (fun c mk => c * (1 - mk)) _ _ _ _ Hc Hm)
    as [Hrl Hcols].
  destruct (@scan_rows_spec k' (sort_neg_losses_for_each_batch B fd ratio)
              (scan_negative_rows B A fd)) with (acc := @nil (list Q)) (init := 1)
    as (selected & _ & Hall & Hscan).
  { intros acc row. unfold sort_neg_losses_for_each_batch. now rewrite Hper. }
  { exact Hk0. }
  { rewrite Hrows. eapply Forall_impl; [|exact Hcols].
    intros r Hr. simpl in Hr. rewrite Hr. exact HkA. }
  destruct (selected_count Hall) as [_ Hcount].
  rewrite Hrows, Hrl in Hcount.
  destruct (concat_selection Hall) as [rest Hperm].
  set (flat := concat (scan_negative_rows B A fd)) in *.
  assert (Hflat_nn : Forall (fun y => 0 <= y) flat).
  { unfold flat. rewrite Hrows. now apply candidates_nonneg. }
  assert (Hsel_nn : 0 <= reduce_sum_vec (concat selected)).
  { apply sum_nonneg. rewrite Forall_forall in *. intros y Hy.
    apply Hflat_nn. apply (Permutation_in y Hperm). apply in_or_app. now left. }
  assert (Hle : reduce_sum_vec (concat selected)
                <= reduce_sum_vec (firstn (Z.to_nat k) (sort_desc flat))).
  { apply (@sub_selection_le flat (concat selected) rest (Z.to_nat k));
      [exact Hperm | exact Hflat_nn |]. rewrite Hcount, Hlen. nia. }
  exists (reduce_sum_vec (map reduce_sum_vec selected) / x),
         (reduce_sum_vec (firstn (Z.to_nat k) (sort_desc flat)) / inject_Z k).
  split.
  { unfold _scan_negative_confidence_loss. rewrite Hscan. cbn [Py.bind].
    unfold tf_div, scan_num_negatives. fold x.
    destruct (Qeq_bool x 0) eqn:E; [|reflexivity].
    apply Qeq_bool_iff in E. lra. }
  split; [exact Htop|].
  rewrite sum_of_sums.
  assert (Hkpos : 0 < inject_Z k).
  { change 0 with (inject_Z 0). rewrite <- Zlt_Qlt. lia. }
  set (S1 := reduce_sum_vec (concat selected)) in *.
  set (S2 := reduce_sum_vec (firstn (Z.to_nat k) (sort_desc flat))) in *.
  assert (Hu : 0 <= S1 / x).
  { apply Qle_shift_div_l; [exact Hx|]. lra. }
  split; [exact Hu|].
  apply Qle_shift_div_l; [exact Hkpos|].
  assert (Hux : S1 / x * x == S1) by (field; lra).
  assert (S1 / x * inject_Z k <= S1 / x * x).
  { rewrite !(Qmult_comm (S1 / x)). apply Qmult_le_compat_r; assumption. }
  lra.
Qed.

Lemma scan_loss_below_top_k_loss_witness :
  exists s t,
    _scan_negative_confidence_loss 2 3 hard_together 2 = Ok (Some s) /\
    _top_k_negative_confidence_loss 2 3 hard_together 2 = Ok (Some t) /\
    s <= t.
Proof.
  destruct (@scan_loss_below_top_k_loss 2 3 hard_together 2 2)
    as (s & t & Hs & Ht & _ & Hle);
    try reflexivity; try lia; try (vm_compute; intuition discriminate).
  exists s, t. split; [exact Hs|]. split; assumption.
Defined.


(** *** The focal weights *)

Lemma Qmult_1_r_eq (c : Q) : (c * 1)%Q = c.
Proof.
  destruct c as [n d]. unfold Qmult. cbn [Qnum Qden].
  now rewrite Z.mul_1_r, Pos.mul_1_r.
Qed.

Lemma Qmax_keeps (acc y : Q) : y < acc -> Qmax acc y = acc.
Proof.
  intros H. unfold Qmax, GenericMinMax.gmax.
  assert (E : (acc ?= y) = Gt) by now apply Qgt_alt.
  now rewrite E.
Qed.

Lemma Qmax_takes (acc y : Q) : acc < y -> Qmax acc y = y.
Proof.
  intros H. unfold Qmax, GenericMinMax.gmax.
  assert (E : (acc ?= y) = Lt) by now apply Qlt_alt.
  now rewrite E.
Qed.

Lemma Qmax_zero (acc y : Q) : acc == 0 -> y == 0 -> Qmax acc y == 0.
Proof.
  intros Ha Hy. unfold Qmax, GenericMinMax.gmax.
  destruct (acc ?= y); assumption.
Qed.

(** A row of confidences times the one-hot row of a label, from class
    [start] on. *)
Local Abbreviation filtered label conf start :=
  (map2 Qmult conf
        (map (fun c => if (c =? label)%nat then 1 else 0)
             (seq start (length conf)))).

Lemma max_after_label (label : nat) (conf : list Q) :
  forall start acc,
    (label < start)%nat -> 0 < acc ->
    fold_left Qmax (filtered label conf start) acc = acc.
Proof.
  induction conf as [|c conf IH]; intros start acc Hs Hacc; [reflexivity|].
  cbn [length seq map map2 fold_left].
  destruct (Nat.eqb_spec start label) as [E | _]; [lia|].
  rewrite Qmax_keeps by (rewrite Qmult_0_r; exact Hacc).
  apply IH; [lia | exact Hacc].
Qed.

Lemma max_up_to_label (label : nat) (conf : list Q) :
  forall start acc,
    acc == 0 ->
    (start <= label < start + length conf)%nat ->
    (forall c, In c conf -> 0 < c) ->
    fold_left Qmax (filtered label conf start) acc
    = nth (label - start) conf 0.
Proof.
  induction conf as [|c conf IH]; intros start acc Hacc Hs Hpos;
    [cbn in Hs; lia|].
  assert (Hc : 0 < c) by (apply Hpos; now left).
  cbn [length seq map map2 fold_left].
  destruct (Nat.eqb_spec start label) as [E | E].
  - subst start. rewrite Nat.sub_diag. cbn [nth].
    rewrite Qmult_1_r_eq, Qmax_takes by (rewrite Hacc; exact Hc).
    apply max_after_label; [lia | exact Hc].
  - replace (label - start)%nat with (S (label - S start)) by lia.
    cbn [nth]. apply IH.
    + apply Qmax_zero; [exact Hacc | apply Qmult_0_r].
    + cbn [length] in Hs. lia.
    + intros; apply Hpos; now right.
Qed.

(** [tf.reduce_max(confidences * one_hot(label))] is the confidence of
    the class [label] when every confidence is positive. *)
Lemma sparse_confidence (C label : nat) (conf : list Q) :
  length conf = C -> (label < C)%nat ->
  (forall c, In c conf -> 0 < c) ->
  reduce_max_vec (map2 Qmult conf (one_hot C label)) = Some (nth label conf 0).
Proof.
  intros Hl Hlab Hpos. unfold one_hot, range. rewrite <- Hl.
  destruct conf as [|c conf]; [cbn in Hl; lia|].
  assert (Hc : 0 < c) by (apply Hpos; now left).
  cbn [length seq map map2 reduce_max_vec]. f_equal.
  destruct label as [|label]; cbn [Nat.eqb nth].
  - rewrite Qmult_1_r_eq. apply max_after_label; [lia | exact Hc].
  - rewrite (@max_up_to_label (S label) conf 1%nat).
    + now rewrite Nat.sub_succ, Nat.sub_0_r.
    + apply Qmult_0_r.
    + cbn [length] in Hl. lia.
    + intros; apply Hpos; now right.
Qed.

Lemma focal_row (C : nat) (pow : Q -> Q -> Q) (gamma : Q) (cr : matrix) :
  forall (lr : list nat) (er : list Q),
    (forall conf, In conf cr -> length conf = C /\ forall c, In c conf -> 0 < c) ->
    (forall l, In l lr -> (l < C)%nat) ->
    map2 (fun fw ce => tf_mul fw (Some ce))
         (map2 (fun o s => option_map (fun c => pow (o - c) gamma) s)
               (repeat 1 (length cr))
               (map reduce_max_vec (map2 (map2 Qmult) cr (map (one_hot C) lr))))
         er
    = map Some
          (map2 (fun p ce => pow (1 - p) gamma * ce)
                (map2 (fun conf label => nth label conf 0) cr lr) er).
Proof.
  induction cr as [|conf cr IH]; intros [|l lr] [|e er] Hc Hl;
    try reflexivity.
  cbn [length repeat map map2].
  destruct (Hc conf (or_introl eq_refl)) as [Hlen Hpos].
  rewrite (@sparse_confidence C l conf Hlen (Hl l (or_introl eq_refl)) Hpos).
  cbn [option_map tf_mul]. f_equal.
  apply IH; intros; [apply Hc | apply Hl]; now right.
Qed.

Lemma focal_rows (A C : nat) (pow : Q -> Q -> Q) (gamma : Q)
      (confs : list matrix) :
  forall (labels : list (list nat)) (ce : matrix),
    (forall cr, In cr confs ->
                length cr = A /\
                forall conf, In conf cr ->
                             length conf = C /\ forall c, In c conf -> 0 < c) ->
    (forall lr l, In lr labels -> In l lr -> (l < C)%nat) ->
    map2 (map2 (fun fw ce => tf_mul fw (Some ce)))
         (map2 (map2 (fun o s => option_map (fun c => pow (o - c) gamma) s))
               (tf_ones (length confs) A)
               (map (map reduce_max_vec)
                    (map2 mat_mul_elem confs (map (map (one_hot C)) labels))))
         ce
    = map (map Some)
          (map2 (map2 (fun p ce => pow (1 - p) gamma * ce))
                (map2 (map2 (fun conf label => nth label conf 0)) confs labels)
                ce).
Proof.
  unfold tf_ones, mat_mul_elem.
  induction confs as [|cr confs IH]; intros [|lr labels] [|er ce] Hc Hl;
    try reflexivity.
  cbn [length repeat map map2].
  destruct (Hc cr (or_introl eq_refl)) as [Hlen Hrow].
  rewrite <- Hlen at 1. rewrite focal_row.
  - f_equal. apply IH.
    + intros; apply Hc; now right.
    + intros lr' l Hlr. apply Hl. now right.
  - exact Hrow.
  - intros l. apply Hl. now left.
Qed.

Lemma sum_of_finite (l : list Q) :
  reduce_sum_tfloat (map Some l) = Some (reduce_sum_vec l).
Proof.
  unfold reduce_sum_tfloat, reduce_sum_vec.
  induction l as [|x l IH]; [reflexivity|]. cbn. now rewrite IH.
Qed.

(** X11. The focal loss of [_build_focal_loss], for softmax outputs
    (every confidence positive) and labels below [num_classes]: the
    maximum of the confidences times the one-hot labels is the
    confidence of the labelled class, so that every anchor's
    cross-entropy, of positive and negative anchors alike, is weighted
    by [(1 - confidence of its labelled class) ** gamma], and the sum is
    divided by the number of positive anchors. *)
Theorem focal_loss_weighs_by_true_class
        (B A C : nat) (pow : Q -> Q -> Q) (fd : feed) (gamma : Q) :
  length (train_confidences fd) = B ->
  forallb (has_shape A C) (train_confidences fd) = true ->
  forallb (forallb (forallb (fun c => negb (Qle_bool c 0))))
          (train_confidences fd) = true ->
  forallb (forallb (fun l => (l <? C)%nat)) (input_labels fd) = true ->
  let true_class :=
    map2 (map2 (fun conf label => nth label conf 0))
         (train_confidences fd) (input_labels fd) in
  _focal_loss B A C pow fd gamma
  = tf_div (Some (reduce_sum
                    (map2 (map2 (fun p ce => pow (1 - p) gamma * ce))
                          true_class (ce_loss fd))))
           (_num_positives fd).
Proof.
  intros HB Hshape Hpos Hlab true_class. unfold _focal_loss. subst B.
  rewrite focal_rows.
  - rewrite <- concat_map, sum_of_finite. reflexivity.
  - intros cr Hcr.
    rewrite forallb_forall in Hshape, Hpos.
    destruct (has_shape_rows _ _ _ (Hshape cr Hcr)) as [Hl Hr].
    split; [exact Hl|]. intros conf Hconf. split; [now apply Hr|].
    intros c Hc. specialize (Hpos cr Hcr).
    rewrite forallb_forall in Hpos. specialize (Hpos conf Hconf).
    rewrite forallb_forall in Hpos. specialize (Hpos c Hc).
    apply Qnot_le_lt. intros Hle. apply Qle_bool_iff in Hle.
    rewrite Hle in Hpos. discriminate.
  - intros lr l Hlr Hl. rewrite forallb_forall in Hlab.
    specialize (Hlab lr Hlr). rewrite forallb_forall in Hlab.
    apply Nat.ltb_lt. now apply Hlab.
Qed.

Lemma focal_loss_weighs_by_true_class_witness :
  _focal_loss 1 4 2 pow_int one_positive 2
  = tf_div (Some (reduce_sum
                    [map2 (fun p ce => pow_int (1 - p) 2 * ce)
                          [1 # 2; 1 # 2; 1 # 2; 1 # 2] [1; 4; 3; 2]]))
           (_num_positives one_positive).
Proof.
  apply (@focal_loss_weighs_by_true_class 1 4 2 pow_int one_positive 2);
    reflexivity.
Defined.

End LossExtras.

(* ------------------------------------------------------------------ *)
(** ** More on the training driver *)

From Stdlib Require Import Qpower.

Module FitExtras.

Import Fit Batching FitFacts.
Local Open Scope Q_scope.

(** *** Batches *)







Lemma no_batches_average (session_run : nat -> nat -> run_outcome)
      (n_losses i : nat) :
  epoch_average session_run n_losses 0 i = repeat 0 n_losses.
Proof. reflexivity. Qed.

Lemma map_const {A B : Type} (c : B) (l : list A) :
  map (fun _ => c) l = repeat c (length l).
Proof. induction l as [|x l IH]; cbn; [reflexivity | now rewrite IH]. Qed.

(** X13. [n_batches = len(images) // self.batch_sz] stands before the
    [try]: with a batch size of 0 the call raises [ZeroDivisionError] to
    its caller, no [finally] intervening.  With fewer samples than
    [batch_sz] (and a shuffle that does not fail) no batch is handed to
    the session at all, whatever the session would do, and the call
    returns, for every epoch, a loss of 0 in every component. *)
Theorem fit_needs_a_full_batch
        (D : Type) (session_run : nat -> nat -> run_outcome)
        (shuffle : nat -> option (exc_class * string))
        (n_losses epochs : nat) (to_dict : list (list Q) -> D)
        (n_images batch_sz : nat) :
  fit_from_batch_count session_run shuffle n_losses epochs to_dict n_images 0
  = Raises (Instance (Derived "ZeroDivisionError")
                     "integer division or modulo by zero") /\
  ((n_images < batch_sz)%nat ->
   (forall i, shuffle i = None) ->
   exists st,
     fit_from_batch_count session_run shuffle n_losses epochs to_dict
                          n_images batch_sz
     = Returns (to_dict (repeat (repeat 0 n_losses) epochs), st) /\
     train_losses st = repeat (repeat 0 n_losses) epochs /\
     attempted st = []).
Proof.
  split; [reflexivity|]. intros Hsmall Hshuffle.
  unfold fit_from_batch_count, floordiv.
  destruct (Nat.eqb_spec batch_sz 0) as [E | _]; [lia|].
  rewrite Nat.div_small by exact Hsmall.
  assert (Hall : forallb (epoch_completes session_run shuffle 0)
                         (range epochs) = true).
  { apply forallb_all_true. intros i _. unfold epoch_completes.
    now rewrite Hshuffle. }
  destruct (epoch_loop_complete session_run shuffle n_losses 0
                                (range epochs) Hall (mk_locals [] [] true [] []))
    as (st & Hloop & Ht & Ha & _).
  cbn [train_losses attempted app] in Ht, Ha.
  assert (Hzero : train_losses st = repeat (repeat 0 n_losses) epochs).
  { rewrite Ht.
    rewrite (map_ext _ (fun _ => repeat 0 n_losses)
                     (no_batches_average session_run n_losses)).
    rewrite map_const. unfold range. now rewrite length_seq. }
  assert (Hnone : attempted st = []).
  { rewrite Ha. clear. generalize (range epochs). intros l.
    induction l as [|i l IH]; [reflexivity | exact IH]. }
  unfold fit. rewrite Hloop. cbn [fst snd try_finally].
  set (st' := if iterator_is_none st then st else emit IteratorClose st).
  assert (Hzero' : train_losses st' = repeat (repeat 0 n_losses) epochs)
    by (unfold st'; destruct (iterator_is_none st); exact Hzero).
  exists st'. split; [now rewrite Hzero'|]. split; [exact Hzero'|].
  unfold st'. destruct (iterator_is_none st); exact Hnone.
Qed.

Lemma fit_needs_a_full_batch_witness :
  exists st,
    fit_from_batch_count faulty_run never_fails 3 2 focal_dict 5 8
    = Returns (focal_dict [[0; 0; 0]; [0; 0; 0]], st) /\
    attempted st = [].
Proof.
  destruct (@fit_needs_a_full_batch dict faulty_run never_fails 3 2
                                    focal_dict 5 8) as [_ H].
  destruct H as (st & Hfit & _ & Ha); [lia | reflexivity |].
  exists st. split; [exact Hfit | exact Ha].
Defined.

(** *** The running average that is reported *)

Lemma decay_succ (n : nat) :
  (9 # 10) ^ Z.of_nat (S n) == (9 # 10) * (9 # 10) ^ Z.of_nat n.
Proof.
  rewrite Nat2Z.inj_succ. unfold Z.succ.
  rewrite Qpower_plus by (intros H; discriminate H).
  rewrite Qmult_comm. reflexivity.
Qed.

Section Average.

Variables (m M : Q).

(** Between the bounds of the batch losses, both scaled by [1 - u]. *)
Local Abbreviation within u :=
  (fun e : Q => m * (1 - u) <= e /\ e <= M * (1 - u)).

Lemma ema_bounds (u : Q) (b : list Q) :
  forall r,
    length b = length r ->
    Forall (fun x => m <= x /\ x <= M) b ->
    Forall (within u) r ->
    Forall (within ((9 # 10) * u)) (ema b r) /\
    length (ema b r) = length r.
Proof.
  unfold ema.
  induction b as [|x b IH]; intros [|e r] Hl Hb Hr; cbn in Hl;
    try discriminate; [split; [constructor | reflexivity]|].
  inversion Hb as [|? ? [Hx1 Hx2] Hb']; subst.
  inversion Hr as [|? ? [He1 He2] Hr']; subst.
  destruct (IH r) as [IH1 IH2]; [congruence | exact Hb' | exact Hr' |].
  cbn [Loss.map2 length]. split; [|now rewrite IH2].
  constructor; [|exact IH1]. split; lra.
Qed.

Lemma averaged_bounds (fetched : list (list Q)) :
  forall (start : list Q) (u : Q),
    Forall (within u) start ->
    Forall (fun b => length b = length start /\
                     Forall (fun x => m <= x /\ x <= M) b) fetched ->
    Forall (within (u * (9 # 10) ^ Z.of_nat (length fetched)))
           (averaged fetched start) /\
    length (averaged fetched start) = length start.
Proof.
  unfold averaged.
  induction fetched as [|b fetched IH]; intros start u Hs Hf.
  - cbn [fold_left length Z.of_nat]. split; [|reflexivity].
    eapply Forall_impl; [|exact Hs]. intros e [H1 H2].
    change ((9 # 10) ^ 0) with 1. split; lra.
  - inversion Hf as [|? ? [Hl Hb] Hf']; subst.
    destruct (@ema_bounds u b start Hl Hb Hs) as [He Hlen].
    cbn [fold_left].
    destruct (IH (ema b start) ((9 # 10) * u) He) as [IH1 IH2].
    { eapply Forall_impl; [|exact Hf']. intros b' [Hl' Hb'].
      split; [congruence | exact Hb']. }
    split; [|congruence].
    eapply Forall_impl; [|exact IH1]. intros e [H1 H2].
    pose proof (decay_succ (length fetched)) as Hd.
    cbn [length]. rewrite Hd. split; lra.
Qed.

End Average.

(** X14. The loss that a [fit_*] method reports for an epoch is a
    running average started at 0 ([0.1 * batch + 0.9 * running]): if
    every loss fetched in the epoch lies between [m] and [M], the
    reported value lies between [m * (1 - 0.9^n)] and
    [M * (1 - 0.9^n)], where [n] is the number of batches of the epoch
    that did not raise.  A loss that is the same [c] in every batch is
    reported as [c * (1 - 0.9^n)], for one batch as a tenth of it. *)
Theorem epoch_average_is_scaled_down
        (session_run : nat -> nat -> run_outcome)
        (n_losses n_batches i : nat) (m M : Q) :
  forallb (fun l => (length l =? n_losses)%nat
                    && forallb (fun x => Qle_bool m x && Qle_bool x M) l)
          (fetched_of session_run i (range n_batches)) = true ->
  let n := length (fetched_of session_run i (range n_batches)) in
  length (epoch_average session_run n_losses n_batches i) = n_losses /\
  Forall (fun e => m * (1 - (9 # 10) ^ Z.of_nat n) <= e /\
                   e <= M * (1 - (9 # 10) ^ Z.of_nat n))
         (epoch_average session_run n_losses n_batches i).
Proof.
  intros Hall n. unfold epoch_average.
  destruct (@averaged_bounds m M (fetched_of session_run i (range n_batches))
                             (repeat 0 n_losses) 1) as [Hb Hl].
  - apply Forall_forall. intros e He. apply repeat_spec in He. subst e.
    split; lra.
  - apply Forall_forall. intros l Hin. rewrite forallb_forall in Hall.
    specialize (Hall l Hin). apply andb_true_iff in Hall.
    destruct Hall as [Hlen Hin'].
    split; [rewrite repeat_length; now apply Nat.eqb_eq|].
    apply Forall_forall. intros x Hx. rewrite forallb_forall in Hin'.
    specialize (Hin' x Hx). apply andb_true_iff in Hin'.
    destruct Hin' as [H1 H2]. split; now apply Qle_bool_iff.
  - split; [now rewrite Hl, repeat_length|].
    eapply Forall_impl; [|exact Hb]. intros e [H1 H2]. fold n in H1, H2.
    split; lra.
Qed.

Lemma epoch_average_is_scaled_down_witness :
  Forall (fun e => 1 * (1 - (9 # 10) ^ 2) <= e /\ e <= 1 * (1 - (9 # 10) ^ 2))
         (epoch_average faulty_run 3 2 1).
Proof.
  apply (@epoch_average_is_scaled_down faulty_run 3 2 1 1 1). reflexivity.
Defined.

End FitExtras.

(* ------------------------------------------------------------------ *)
(** ** More on the training graph *)

Module MiningExtras.

Import Mining MiningFacts Outputs.

Section Reachable.

Variable Base : Type.
Variable sft : Base -> bool.
Variable setup : Base -> Base.
Hypothesis setup_sets_flag : forall b, sft (setup b) = true.

Local Abbreviation state := (model_state Base).
Local Abbreviation minimize := (minimize_loss sft setup).
Local Abbreviation ok := (consistent sft).

(** The operation of a first call is built with the call's own
    [global_step]. *)
Lemma first_call_binds_step (s : state) (v : variant) (opt : nat)
      (gs : option nat) :
  ok s ->
  loss_is_build (get v s) = false ->
  exists node n s',
    minimize v opt gs s = Ok (mk_train_op opt node gs n, s').
Proof.
  intros Hok Hflag.
  destruct (@ensure_spec Base sft setup setup_sets_flag s Hok)
    as (_ & _ & Hg2 & _).
  set (s2 := ensure_training_graph sft setup s) in *.
  set (y := build_loss v s2).
  assert (Hfy : final_loss (get v y) = Some (S (S (fresh s2)))).
  { unfold y, build_loss, fresh.
    destruct v; simpl; rewrite !length_app; simpl; repeat f_equal; lia. }
  destruct (bind_optimizer_spec y v opt gs Hfy)
    as (s' & Hbind & Hget & _).
  exists (S (S (fresh s2))), (fresh y), s'.
  assert (Hflag2 : loss_is_build (get v s2) = false) by (now rewrite Hg2).
  unfold minimize_loss. fold s2. rewrite Hflag2. cbn [negb].
  fold y. rewrite Hbind. cbn [Py.bind]. rewrite Hget.
  cbn [optimizer Py.bind cached_op]. rewrite Nat.eqb_refl.
  cbn [negb Py.bind]. rewrite Hget. reflexivity.
Qed.

(** A call leaves the variant built, bound to the call's optimizer,
    with the returned operation cached; the operation carries the
    call's [global_step] unless it was taken from the cache. *)
Lemma minimize_result (s : state) (v : variant) (opt : nat) (gs : option nat) :
  ok s ->
  exists op s',
    minimize v opt gs s = Ok (op, s') /\
    ok s' /\
    loss_is_build (get v s') = true /\
    optimizer (get v s') = Some opt /\
    cached_op (get v s') = Some op /\
    op_optimizer op = opt /\
    (loss_is_build (get v s) = false \/ optimizer (get v s) <> Some opt ->
     op_global_step op = gs).
Proof.
  intros Hok. destruct (loss_is_build (get v s)) eqn:Hflag.
  - pose proof Hok as (_ & _ & Hc & _).
    destruct (Hc v Hflag) as (node & bound & op & _ & Hopt & Hcache & _ & Hoo).
    destruct (Nat.eq_dec bound opt) as [-> | Hne].
    + destruct (@minimize_cached Base sft setup setup_sets_flag s v opt gs
                                 Hok Hflag Hopt) as (op' & Hc' & Hmin).
      exists op', s. rewrite Hcache in Hc'. injection Hc' as <-.
      repeat (split; [assumption|]).
      intros [H | H]; [discriminate | contradiction].
    + destruct (@minimize_rebind Base sft setup setup_sets_flag s v opt bound gs
                                 Hok Hflag Hopt Hne)
        as (nd & s' & _ & Hmin & Hok' & _ & Hget & _).
      exists (mk_train_op opt nd gs (S (fresh s))), s'.
      split; [exact Hmin|]. split; [exact Hok'|]. rewrite Hget.
      repeat (split; [reflexivity|]). reflexivity.
  - destruct (@minimize_first Base sft setup setup_sets_flag s v opt gs
                              Hok Hflag)
      as (op & s' & Hmin & Hok' & Hfl & Hopt & Hcache & Hoo & _).
    destruct (@first_call_binds_step s v opt gs Hok Hflag)
      as (node & n & s1 & Hmin').
    rewrite Hmin in Hmin'. injection Hmin' as -> _.
    exists (mk_train_op opt node gs n), s'.
    repeat (split; [assumption|]). reflexivity.
Qed.

End Reachable.

(** X15. After any sequence of training calls, a call for a variant
    followed by a second call for it with the same optimizer: the
    second call returns the very operation of the first and changes
    nothing, whatever [global_step] it passes, so that a new
    [global_step] is ignored as long as the optimizer stays the same;
    the operation carries the [global_step] of the call that built it
    (the first of the two, unless that one found the optimizer already
    bound). *)
Theorem same_optimizer_keeps_the_operation
        (Base : Type) (sft : Base -> bool) (setup : Base -> Base)
        (b : Base) (calls : list call) :
  (forall x, sft (setup x) = true) ->
  exists s,
    run sft setup calls (init_state b) = Some s /\
    forall v opt gs gs',
    exists op s1,
      minimize_loss sft setup v opt gs s = Ok (op, s1) /\
      minimize_loss sft setup v opt gs' s1 = Ok (op, s1) /\
      op_optimizer op = opt /\
      (called v calls = false \/ optimizer (get v s) <> Some opt ->
       op_global_step op = gs).
Proof.
  intros Hsetup.
  destruct (@run_spec Base sft setup Hsetup calls (init_state b)
                      (init_consistent sft b))
    as (s & Hrun & Hok & Hflags).
  exists s. split; [exact Hrun|]. intros v opt gs gs'.
  destruct (@minimize_result Base sft setup Hsetup s v opt gs Hok)
    as (op & s1 & Hmin & Hok1 & Hfl & Hopt & Hcache & Hoo & Hstep).
  exists op, s1. split; [exact Hmin|]. split.
  - destruct (@minimize_cached Base sft setup Hsetup s1 v opt gs'
                               Hok1 Hfl Hopt) as (op' & Hc' & Hmin').
    rewrite Hcache in Hc'. injection Hc' as <-. exact Hmin'.
  - split; [exact Hoo|]. intros [H | H]; apply Hstep.
    + left. rewrite Hflags, H. destruct v; reflexivity.
    + now right.
Qed.


Lemma same_optimizer_keeps_the_operation_witness :
  exists s,
    run (fun flag : bool => flag) (fun _ => true) [(Focal, 1%nat, None)]
        (init_state false) = Some s /\
    exists op s1,
      minimize_loss (fun flag : bool => flag) (fun _ => true)
                    TopK 2%nat (Some 7%nat) s = Ok (op, s1) /\
      minimize_loss (fun flag : bool => flag) (fun _ => true)
                    TopK 2%nat None s1 = Ok (op, s1) /\
      op_global_step op = Some 7%nat.
Proof.
  destruct (@same_optimizer_keeps_the_operation
              bool (fun flag => flag) (fun _ => true) false
              [(Focal, 1%nat, None)]) as (s & Hrun & H); [reflexivity|].
  exists s. split; [exact Hrun|].
  destruct (H TopK 2%nat (Some 7%nat) None) as (op & s1 & H1 & H2 & _ & H3).
  exists op, s1. split; [exact H1|]. split; [exact H2|].
  apply H3. left. reflexivity.
Defined.

(** *** The loop over the training outputs *)

Lemma init_outputs_length {T : Type} (dcs : list (T * T)) :
  length (init_outputs dcs) = (2 * length dcs)%nat.
Proof.
  unfold init_outputs.
  induction dcs as [|d dcs IH]; [reflexivity|].
  cbn [flat_map app length]. rewrite IH. lia.
Qed.

Lemma getitem_app {T : Type} (pre rest : list T) (k : nat) :
  getitem (pre ++ rest) (length pre + k) = getitem rest k.
Proof.
  unfold getitem. rewrite nth_error_app2 by lia.
  now replace (length pre + k - length pre)%nat with k by lia.
Qed.

Lemma loop_on_pairs {T : Type} (dcs : list (T * T)) :
  forall (pre cs os : list T) (fuel : nat),
    (length dcs < fuel)%nat ->
    training_outputs_loop fuel (pre ++ init_outputs dcs) (length pre) cs os
    = Some (Ok (cs ++ map fst dcs, os ++ map snd dcs)).
Proof.
  induction dcs as [|[c o] dcs IH]; intros pre cs os [|fuel] Hf;
    cbn [length] in Hf; try lia.
  - cbn [init_outputs flat_map map training_outputs_loop].
    rewrite !app_nil_r, Nat.eqb_refl. reflexivity.
  - cbn [training_outputs_loop].
    assert (Hne : (length pre =? length (pre ++ init_outputs ((c, o) :: dcs)))%nat
                  = false).
    { apply Nat.eqb_neq. rewrite length_app, init_outputs_length.
      cbn [length]. lia. }
    rewrite Hne. cbn [negb].
    rewrite <- (Nat.add_0_r (length pre)) at 1.
    rewrite !getitem_app. cbn [init_outputs flat_map app fst snd].
    unfold getitem at 1 2. cbn [nth_error].
    replace (pre ++ c :: o :: flat_map
               (fun conf_offsets : T * T => [fst conf_offsets; snd conf_offsets])
               dcs)
      with ((pre ++ [c; o]) ++ init_outputs dcs)
      by (now rewrite <- app_assoc).
    replace (length pre + 2)%nat with (length (pre ++ [c; o]))
      by (rewrite length_app; reflexivity).
    rewrite IH by lia. cbn [map fst snd].
    now rewrite <- !app_assoc.
Qed.

Lemma loop_on_odd {T : Type} (x : T) (dcs : list (T * T)) :
  forall (pre cs os : list T) (fuel : nat),
    (length dcs < fuel)%nat ->
    training_outputs_loop fuel (pre ++ init_outputs dcs ++ [x]) (length pre)
                          cs os
    = Some (Err IndexError).
Proof.
  induction dcs as [|[c o] dcs IH]; intros pre cs os [|fuel] Hf;
    cbn [length] in Hf; try lia.
  - cbn [init_outputs flat_map app training_outputs_loop].
    assert (Hne : (length pre =? length (pre ++ [x]))%nat = false).
    { apply Nat.eqb_neq. rewrite length_app. cbn [length]. lia. }
    rewrite Hne. cbn [negb].
    rewrite <- (Nat.add_0_r (length pre)) at 1.
    rewrite !getitem_app. reflexivity.
  - cbn [training_outputs_loop].
    assert (Hne : (length pre
                   =? length (pre ++ init_outputs ((c, o) :: dcs) ++ [x]))%nat
                  = false).
    { apply Nat.eqb_neq. rewrite !length_app, init_outputs_length.
      cbn [length]. lia. }
    rewrite Hne. cbn [negb].
    rewrite <- (Nat.add_0_r (length pre)) at 1.
    rewrite !getitem_app. cbn [init_outputs flat_map app fst snd].
    unfold getitem at 1 2. cbn [nth_error].
    replace (pre ++ c :: o :: flat_map
               (fun conf_offsets : T * T => [fst conf_offsets; snd conf_offsets])
               dcs ++ [x])
      with ((pre ++ [c; o]) ++ init_outputs dcs ++ [x])
      by (now rewrite <- app_assoc).
    replace (length pre + 2)%nat with (length (pre ++ [c; o]))
      by (rewrite length_app; reflexivity).
    now rewrite IH by lia.
Qed.

(** Every list is a list of pairs, or a list of pairs and one more
    element. *)
Lemma pairs_or_one_more {T : Type} (outs : list T) :
  (exists dcs, outs = init_outputs dcs \/
               exists x, outs = init_outputs dcs ++ [x]) /\
  forall a, exists dcs, a :: outs = init_outputs dcs \/
                        exists x, a :: outs = init_outputs dcs ++ [x].
Proof.
  induction outs as [|b outs [IH1 IH2]].
  - split; [exists []; now left|]. intros a. exists []. right. now exists a.
  - split; [apply IH2|]. intros a.
    destruct IH1 as [dcs [-> | [x ->]]]; exists ((a, b) :: dcs).
    + now left.
    + right. now exists x.
Qed.

Lemma combine_fst_snd {T : Type} (dcs : list (T * T)) :
  combine (map fst dcs) (map snd dcs) = dcs.
Proof.
  induction dcs as [|[c o] dcs IH]; [reflexivity|]. cbn. now rewrite IH.
Qed.

(** X16. The loop of [_prepare_training_graph] that walks
    [self._training_outputs] two at a time under the condition
    [i != n_outs] ends for every list, within [len // 2 + 1] tests of
    its condition: on a list of even length it returns the entries at
    the even places as confidences and those at the odd places as
    offsets, so that it undoes the interleaving [outputs += [confs,
    offs]] of [__init__]; on a list of odd length it raises
    [IndexError] at the last entry and never steps over [n_outs]. *)
Theorem training_outputs_are_split_in_pairs
        (T : Type) (outs : list T) (fuel : nat) :
  (length outs / 2 < fuel)%nat ->
  (Nat.even (length outs) = true ->
   exists confs offs,
     training_outputs_loop fuel outs 0 [] [] = Some (Ok (confs, offs)) /\
     outs = init_outputs (combine confs offs) /\
     length confs = (length outs / 2)%nat /\
     length offs = (length outs / 2)%nat) /\
  (Nat.even (length outs) = false ->
   training_outputs_loop fuel outs 0 [] [] = Some (Err IndexError)) /\
  (forall dcs : list (T * T),
      outs = init_outputs dcs ->
      training_outputs_loop fuel outs 0 [] []
      = Some (Ok (map fst dcs, map snd dcs))).
Proof.
  intros Hfuel.
  destruct (pairs_or_one_more outs) as [[dcs [E | [x E]]] _].
  - assert (Hl : length outs = (2 * length dcs)%nat)
      by (rewrite E; apply init_outputs_length).
    assert (Hd : (length outs / 2 = length dcs)%nat)
      by (rewrite Hl, Nat.mul_comm; apply Nat.div_mul; lia).
    assert (Hrun : forall dcs' : list (T * T),
               outs = init_outputs dcs' ->
               training_outputs_loop fuel outs 0 [] []
               = Some (Ok (map fst dcs', map snd dcs'))).
    { intros dcs' E'.
      assert (length outs = (2 * length dcs')%nat)
        by (rewrite E'; apply init_outputs_length).
      rewrite E'. apply (@loop_on_pairs T dcs' [] [] []). lia. }
    split; [|split].
    + intros _. exists (map fst dcs), (map snd dcs).
      split; [now apply Hrun|]. rewrite combine_fst_snd, !length_map.
      split; [exact E|]. now split.
    + intros Hodd. rewrite Hl, Nat.even_mul in Hodd. discriminate.
    + exact Hrun.
  - assert (Hl : length outs = (2 * length dcs + 1)%nat).
    { rewrite E, length_app, init_outputs_length. reflexivity. }
    assert (Hd : (length outs / 2 = length dcs)%nat).
    { rewrite Hl. symmetry.
      apply (Nat.div_unique (2 * length dcs + 1) 2 (length dcs) 1); lia. }
    assert (Hodd : Nat.even (length outs) = false).
    { rewrite Hl, Nat.add_comm, Nat.even_add_mul_2. reflexivity. }
    split; [|split].
    + intros Heven. congruence.
    + intros _. rewrite E. apply (@loop_on_odd T x dcs [] [] []). lia.
    + intros dcs' E'. exfalso.
      assert (length outs = (2 * length dcs')%nat)
        by (rewrite E'; apply init_outputs_length).
      rewrite H, Nat.even_mul in Hodd. discriminate.
Qed.

Lemma training_outputs_are_split_in_pairs_witness :
  training_outputs_loop 3 (init_outputs [(1, 2); (3, 4)]%nat) 0 [] []
  = Some (Ok ([1; 3]%nat, [2; 4]%nat)) /\
  training_outputs_loop 2 [1; 2; 3]%nat 0 [] [] = Some (Err IndexError).
Proof.
  split.
  - destruct (@training_outputs_are_split_in_pairs
                nat (init_outputs [(1, 2); (3, 4)]%nat) 3) as (_ & _ & H);
      [vm_compute; lia|].
    apply (H [(1, 2); (3, 4)]%nat). reflexivity.
  - destruct (@training_outputs_are_split_in_pairs nat [1; 2; 3]%nat 2)
      as (_ & H & _); [vm_compute; lia|].
    apply H. reflexivity.
Defined.

End MiningExtras.

(* ------------------------------------------------------------------ *)
(** ** More on the balancer *)

Module BalancerExtras.

Import Balancer BalancerFacts Graph.







End BalancerExtras.

(* ------------------------------------------------------------------ *)
(** ** The positive confidence loss *)

Module PositiveLoss.

Import Loss TensorFacts ScanClaims LossExtras.
Local Open Scope Q_scope.

Lemma row_between (m M : Q) (c : list Q) :
  forall mk : list Q,
    length c = length mk ->
    Forall (fun x => x == 0 \/ x == 1) mk ->
    (forall a, nth a mk 0 == 1 -> m <= nth a c 0 /\ nth a c 0 <= M) ->
    m * reduce_sum_vec mk <= reduce_sum_vec (map2 Qmult c mk) /\
    reduce_sum_vec (map2 Qmult c mk) <= M * reduce_sum_vec mk.
Proof.
  induction c as [|x c IH]; intros [|k mk] Hl Hb Hc; cbn in Hl;
    try discriminate.
  - cbn. split; lra.
  - inversion Hb as [|? ? Hk Hb']; subst.
    destruct (IH mk) as [IH1 IH2];
      [congruence | exact Hb' | intros a; exact (Hc (S a)) |].
    change (m * (k + reduce_sum_vec mk)
            <= x * k + reduce_sum_vec (map2 Qmult c mk) /\
            x * k + reduce_sum_vec (map2 Qmult c mk)
            <= M * (k + reduce_sum_vec mk)).
    destruct Hk as [Hk | Hk].
    + rewrite Hk. split; lra.
    + destruct (Hc 0%nat Hk) as [H1 H2]. cbn [nth] in H1, H2.
      rewrite Hk. split; lra.
Qed.

Lemma matrix_between (m M : Q) (A : nat) (ce : matrix) :
  forall mask : matrix,
    length ce = length mask ->
    (forall r, In r ce -> length r = A) ->
    (forall r, In r mask -> length r = A) ->
    Forall (Forall (fun x => x == 0 \/ x == 1)) mask ->
    (forall b a, nth a (nth b mask []) 0 == 1 ->
                 m <= nth a (nth b ce []) 0 /\ nth a (nth b ce []) 0 <= M) ->
    m * reduce_sum mask <= reduce_sum (mat_mul_elem ce mask) /\
    reduce_sum (mat_mul_elem ce mask) <= M * reduce_sum mask.
Proof.
  unfold reduce_sum, mat_mul_elem.
  induction ce as [|c ce IH]; intros [|mk mask] Hl Hc Hm Hb Hin; cbn in Hl;
    try discriminate.
  - cbn. split; lra.
  - inversion Hb as [|? ? Hk Hb']; subst.
    destruct (IH mask) as [IH1 IH2];
      [congruence | intros; apply Hc; now right | intros; apply Hm; now right
       | exact Hb' | intros b a; exact (Hin (S b) a) |].
    destruct (@row_between m M c mk) as [R1 R2];
      [rewrite Hc, Hm; [reflexivity | now left | now left]
      | exact Hk | intros a; exact (Hin 0%nat a) |].
    cbn [map2 concat]. rewrite !reduce_sum_vec_app. split; lra.
Qed.

(** X19. The positive confidence loss of the top-k and of the scan
    variant is a mean: for a binary mask with at least one positive
    anchor it lies between the smallest and the largest cross-entropy
    of the positive anchors, whatever the cross-entropy of the other
    anchors is; both variants compute the same value. *)
Theorem positive_loss_is_a_mean (B A : nat) (fd : feed) (m M : Q) :
  has_shape B A (input_loc_loss_masks fd) = true ->
  has_shape B A (ce_loss fd) = true ->
  binary_mask (input_loc_loss_masks fd) = true ->
  1 <= _num_positives fd ->
  (forall b a,
      nth a (nth b (input_loc_loss_masks fd) []) 0 == 1 ->
      m <= nth a (nth b (ce_loss fd) []) 0 /\
      nth a (nth b (ce_loss fd) []) 0 <= M) ->
  exists v,
    _top_k_positive_confidence_loss fd = Some v /\
    _scan_positive_confidence_loss fd = Some v /\
    m <= v /\ v <= M.
Proof.
  intros Hm Hc Hb Hpos Hin.
  destruct (has_shape_rows _ _ _ Hm) as [Lm Rm].
  destruct (has_shape_rows _ _ _ Hc) as [Lc Rc].
  destruct (@matrix_between m M A (ce_loss fd) (input_loc_loss_masks fd))
    as [H1 H2];
    [congruence | exact Rc | exact Rm | now apply binary_entries | exact Hin |].
  unfold _top_k_positive_confidence_loss, _scan_positive_confidence_loss, tf_div.
  fold (_num_positives fd) in H1, H2.
  destruct (Qeq_bool (_num_positives fd) 0) eqn:E.
  { apply Qeq_bool_iff in E. lra. }
  eexists. split; [reflexivity|]. split; [reflexivity|]. split.
  - apply Qle_shift_div_l; lra.
  - apply Qle_shift_div_r; lra.
Qed.

Lemma positive_loss_is_a_mean_witness :
  exists v,
    _top_k_positive_confidence_loss hard_together = Some v /\
    7 <= v /\ v <= 7.
Proof.
  destruct (@positive_loss_is_a_mean 2 3 hard_together 7 7)
    as (v & Hv & _ & H1 & H2); try reflexivity.
  - vm_compute. discriminate.
  - intros [|[|[|b]]] [|[|[|[|a]]]]; vm_compute; intros H;
      try discriminate H; split; discriminate.
  - exists v. split; [exact Hv|]. split; assumption.
Defined.

End PositiveLoss.

(* ------------------------------------------------------------------ *)
(** ** The balancer's session after a reset *)

Module SessionExtras.

Import Balancer BalancerFacts Graph Session.

Lemma not_initialised (n : nat) (s : session) :
  forallb (fun serial => (serial <? n)%nat) s = true ->
  existsb (Nat.eqb n) s = false.
Proof.
  intros H. apply not_true_is_false. intros E.
  apply existsb_exists in E. destruct E as (x & Hx & E).
  apply Nat.eqb_eq in E. subst x.
  rewrite forallb_forall in H. specialize (H n Hx).
  apply Nat.ltb_lt in H. lia.
Qed.

Lemma reset_assigns (initial_c : list Q) (name : string) (b : gd_balancer)
      (w : world) :
  vecs_cols b = length initial_c ->
  let card := Variable_ (variables_created w) (map (fun c => [c]) initial_c)
                        (min_amount b) (max_amount b) in
  cardinalities (self (reset initial_c name b w)) = Some card /\
  scaled_hcvgs (self (reset initial_c name b w)) = Some (MatMul (vecs b) card).
Proof.
  intros Hcols card. unfold reset. cbn [set_cardinalities vecs_cols].
  rewrite Hcols, Nat.eqb_refl. cbn [negb]. unfold _build_objective.
  cbn [set_scaled_hcvgs set_cardinalities scaled_hcvgs cardinalities vecs].
  destruct (String.eqb name "alpha"); [split; reflexivity|].
  destruct (String.eqb name "geo"); split; reflexivity.
Qed.

(** X20. [reset] replaces the cardinalities by a new variable, and only
    [set_session] runs an initializer for it.  So after every [reset]
    (and after construction), whatever the objective named, the
    getters [get_weights], [get_vec_num], [get_scaled_vecs] and
    [get_percentage] raise: [AttributeError] while no session was ever
    set, and TensorFlow's [FailedPreconditionError] in every session
    that was set before the [reset].  A new call of [set_session], with
    any session, makes the getters that read the cardinalities alone
    work again, and the other two as well when the group vectors are a
    constant, as [__init__] makes them. *)
Theorem getters_need_set_session_after_reset
        (initial_c : list Q) (name : string) (b : gd_balancer) (w : world)
        (s s' : session) :
  vecs_cols b = length initial_c ->
  forallb (fun serial => (serial <? variables_created w)%nat) s = true ->
  let after := self (reset initial_c name b w) in
  (get_weights (mk_bound after None) = Some (Python AttributeError) /\
   get_percentage (mk_bound after None) = Some (Python AttributeError)) /\
  (get_weights (mk_bound after (Some s)) = Some FailedPreconditionError /\
   get_vec_num (mk_bound after (Some s)) = Some FailedPreconditionError /\
   get_scaled_vecs (mk_bound after (Some s)) = Some FailedPreconditionError /\
   get_percentage (mk_bound after (Some s)) = Some FailedPreconditionError) /\
  exists again,
    set_session s' (mk_bound after (Some s)) = (None, again) /\
    balancer again = after /\
    get_weights again = None /\
    get_vec_num again = None /\
    (variables_of (vecs b) = [] ->
     get_scaled_vecs again = None /\ get_percentage again = None).
Proof.
  intros Hcols Hold after.
  destruct (@reset_assigns initial_c name b w Hcols) as [Hc Hs].
  fold after in Hc, Hs.
  pose proof (not_initialised _ _ Hold) as Hnot.
  assert (Hw : get_weights (mk_bound after (Some s))
               = Some FailedPreconditionError).
  { unfold get_weights, fetch, run. cbn [sess balancer]. rewrite Hc.
    cbn [variables_of forallb]. now rewrite Hnot. }
  assert (Hn : get_vec_num (mk_bound after (Some s))
               = Some FailedPreconditionError).
  { unfold get_vec_num, fetch, run. cbn [sess balancer]. rewrite Hc.
    cbn [variables_of forallb]. now rewrite Hnot. }
  assert (Hv : get_scaled_vecs (mk_bound after (Some s))
               = Some FailedPreconditionError).
  { unfold get_scaled_vecs, fetch, run. cbn [sess balancer]. rewrite Hs.
    cbn [variables_of]. rewrite forallb_app. cbn [forallb].
    rewrite Hnot. cbn [andb]. now rewrite andb_false_r. }
  split; [split; reflexivity|].
  split.
  { split; [exact Hw|]. split; [exact Hn|]. split; [exact Hv|].
    unfold get_percentage. now rewrite Hv. }
  unfold set_session. cbn [balancer]. rewrite Hc.
  eexists. split; [reflexivity|]. cbn [balancer]. split; [reflexivity|].
  assert (Hw' : forall wrap,
             variables_of (wrap (Variable_ (variables_created w)
                                           (map (fun c => [c]) initial_c)
                                           (min_amount b) (max_amount b)))
             = [variables_created w] ->
             fetch cardinalities wrap
                   (mk_bound after
                      (Some (variables_initializer
                               (Variable_ (variables_created w)
                                          (map (fun c => [c]) initial_c)
                                          (min_amount b) (max_amount b)) s')))
             = None).
  { intros wrap Hwrap. unfold fetch, run. cbn [sess balancer]. rewrite Hc, Hwrap.
    cbn. now rewrite Nat.eqb_refl. }
  split; [now apply Hw'|]. split; [now apply Hw'|].
  intros Hconst.
  assert (Hv' : get_scaled_vecs
                  (mk_bound after
                     (Some (variables_initializer
                              (Variable_ (variables_created w)
                                         (map (fun c => [c]) initial_c)
                                         (min_amount b) (max_amount b)) s')))
                = None).
  { unfold get_scaled_vecs, fetch, run. cbn [sess balancer]. rewrite Hs.
    cbn [variables_of]. rewrite Hconst. cbn. now rewrite Nat.eqb_refl. }
  split; [exact Hv'|]. unfold get_percentage. rewrite Hv'.
  now apply Hw'.
Qed.

Lemma getters_need_set_session_after_reset_witness :
  let after := self (reset [30; 40]%Q "geo"%string trained (env built)) in
  get_weights (mk_bound after (Some [0%nat])) = Some FailedPreconditionError /\
  exists again,
    set_session [0%nat] (mk_bound after (Some [0%nat])) = (None, again) /\
    get_percentage again = None.
Proof.
  destruct (@getters_need_set_session_after_reset
              [30; 40]%Q "geo"%string trained (env built) [0%nat] [0%nat])
    as (_ & (Hw & _) & again & Hset & _ & _ & _ & Hp);
    [reflexivity | reflexivity |].
  split; [exact Hw|]. exists again. split; [exact Hset|].
  now apply Hp.
Defined.

End SessionExtras.

(* ------------------------------------------------------------------ *)
(** ** The top-k loss and the ratio of negatives *)

Module RatioExtras.

Import Loss GeometryFacts TopKFacts TensorFacts LossClaims ScanClaims LossExtras.
Local Open Scope Q_scope.

Lemma firstn_succ_sum (s : list Q) (k : nat) :
  (k < length s)%nat ->
  exists x,
    In x (skipn k s) /\
    reduce_sum_vec (firstn (S k) s) == reduce_sum_vec (firstn k s) + x.
Proof.
  revert k. induction s as [|a s IH]; intros k Hk; cbn [length] in Hk; [lia|].
  destruct k as [|k].
  - exists a. split; [now left|]. cbn. ring.
  - destruct (IH k) as (x & Hx & Hs); [lia|].
    exists x. split; [exact Hx|].
    change (a + reduce_sum_vec (firstn (S k) s)
            == a + reduce_sum_vec (firstn k s) + x).
    rewrite Hs. ring.
Qed.

(** One more entry of a descending list does not raise the mean of the
    leading entries. *)
Lemma mean_step (s : list Q) (k : nat) :
  descending s -> (k < length s)%nat ->
  reduce_sum_vec (firstn (S k) s) * Qnat k
  <= reduce_sum_vec (firstn k s) * Qnat (S k).
Proof.
  intros Hd Hk. destruct (@firstn_succ_sum s k Hk) as (x & Hx & Hs).
  rewrite Hs, Qnat_S.
  assert (Hx' : Qnat (length (firstn k s)) * x <= reduce_sum_vec (firstn k s)).
  { apply sum_ge_bound. intros y Hy. now apply (descending_split Hd k). }
  rewrite length_firstn, Nat.min_l in Hx' by lia. lra.
Qed.

Lemma mean_mono (s : list Q) (k : nat) :
  descending s -> (0 < k)%nat ->
  forall d, (k + d <= length s)%nat ->
    reduce_sum_vec (firstn (k + d) s) * Qnat k
    <= reduce_sum_vec (firstn k s) * Qnat (k + d).
Proof.
  intros Hd Hk. induction d as [|d IH]; intros Hl.
  - rewrite Nat.add_0_r. apply Qle_refl.
  - replace (k + S d)%nat with (S (k + d)) by lia.
    pose proof (@mean_step s (k + d)%nat Hd ltac:(lia)) as Hstep.
    specialize (IH ltac:(lia)).
    rewrite Qnat_S in *.
    pose proof (@Qnat_pos (k + d) ltac:(lia)) as Hpos.
    pose proof (@Qnat_pos k Hk) as Hkpos.
    set (a := reduce_sum_vec (firstn (S (k + d)) s)) in *.
    set (b := reduce_sum_vec (firstn (k + d) s)) in *.
    set (c := reduce_sum_vec (firstn k s)) in *.
    set (n := Qnat (k + d)) in *. set (q := Qnat k) in *.
    apply (Qmult_lt_0_le_reg_r _ _ n Hpos).
    assert (H1 : a * n * q <= b * (n + 1) * q)
      by (apply Qmult_le_compat_r; lra).
    assert (H2 : b * q * (n + 1) <= c * n * (n + 1))
      by (apply Qmult_le_compat_r; lra).
    lra.
Qed.

Lemma positives_nonneg (mask : matrix) :
  binary_mask mask = true -> 0 <= reduce_sum mask.
Proof.
  intros Hb. unfold reduce_sum. apply sum_nonneg.
  apply Forall_concat. apply binary_entries in Hb.
  eapply Forall_impl; [|exact Hb]. intros r Hr.
  eapply Forall_impl; [|exact Hr]. intros x [-> | ->]; lra.
Qed.

(** X21. A larger ratio of negatives never raises the top-k negative
    confidence loss: for a binary mask, if the ratio [r] selects at
    least one candidate and [r <= r'] (with the count of [r'] still
    within the number of candidates), then the count of [r'] is at
    least the count of [r], both losses are finite, and the loss for
    [r'] is at most the loss for [r]. *)
Theorem top_k_loss_decreases_with_ratio
        (B A : nat) (fd : feed) (r r' : Q) (k k' : Z) :
  has_shape B A (input_loc_loss_masks fd) = true ->
  has_shape B A (ce_loss fd) = true ->
  binary_mask (input_loc_loss_masks fd) = true ->
  k = Qtrunc (_num_positives fd * r) ->
  k' = Qtrunc (_num_positives fd * r') ->
  r <= r' ->
  (0 < k)%Z ->
  (k' <= Z.of_nat (B * A))%Z ->
  (k' < 2 ^ 31)%Z ->
  (k <= k')%Z /\
  exists v v',
    _top_k_negative_confidence_loss B A fd r = Ok (Some v) /\
    _top_k_negative_confidence_loss B A fd r' = Ok (Some v') /\
    v' <= v.
Proof.
  intros Hm Hc Hb Hk Hk' Hr Hpos Hmax H31.
  pose proof (positives_nonneg _ Hb) as Hnp. fold (_num_positives fd) in Hnp.
  destruct (@Qtrunc_pos (_num_positives fd * r)) as [Hx _]; [lia|].
  assert (Hle : _num_positives fd * r <= _num_positives fd * r').
  { rewrite !(Qmult_comm (_num_positives fd)).
    apply Qmult_le_compat_r; assumption. }
  assert (Hkk : (k <= k')%Z).
  { rewrite Hk, Hk', !Qtrunc_floor by lra. now apply Qfloor_resp_le. }
  split; [exact Hkk|].
  destruct (@top_k_value B A fd r k Hm Hc Hk ltac:(lia) ltac:(lia))
    as (Hlen & _ & Hv).
  destruct (@top_k_value B A fd r' k' Hm Hc Hk' ltac:(lia) H31)
    as (_ & _ & Hv').
  set (flat := concat (scan_negative_rows B A fd)) in *.
  eexists _, _. split; [exact Hv|]. split; [exact Hv'|].
  pose proof (@mean_mono (sort_desc flat) (Z.to_nat k) (sort_desc_sorted flat)
                         ltac:(lia) (Z.to_nat k' - Z.to_nat k)%nat) as Hmono.
  replace (Z.to_nat k + (Z.to_nat k' - Z.to_nat k))%nat with (Z.to_nat k')
    in Hmono by lia.
  specialize (Hmono ltac:(rewrite sort_desc_length, Hlen; lia)).
  assert (Ek : inject_Z k == Qnat (Z.to_nat k)).
  { unfold Qnat. rewrite Z2Nat.id by lia. reflexivity. }
  assert (Ek' : inject_Z k' == Qnat (Z.to_nat k')).
  { unfold Qnat. rewrite Z2Nat.id by lia. reflexivity. }
  rewrite Ek, Ek'.
  pose proof (@Qnat_pos (Z.to_nat k) ltac:(lia)) as P.
  pose proof (@Qnat_pos (Z.to_nat k') ltac:(lia)) as P'.
  apply Qle_shift_div_r; [exact P'|].
  setoid_replace (reduce_sum_vec (firstn (Z.to_nat k) (sort_desc flat))
                  / Qnat (Z.to_nat k) * Qnat (Z.to_nat k'))
    with (reduce_sum_vec (firstn (Z.to_nat k) (sort_desc flat))
          * Qnat (Z.to_nat k') / Qnat (Z.to_nat k)) by (field; lra).
  apply Qle_shift_div_l; [exact P | exact Hmono].
Qed.

Lemma top_k_loss_decreases_with_ratio_witness :
  exists v v',
    _top_k_negative_confidence_loss 2 3 hard_together 1 = Ok (Some v) /\
    _top_k_negative_confidence_loss 2 3 hard_together (7 # 2) = Ok (Some v') /\
    v' <= v.
Proof.
  destruct (@top_k_loss_decreases_with_ratio 2 3 hard_together 1 (7 # 2) 1 3)
    as (_ & v & v' & H1 & H2 & H3);
    try reflexivity; try lia; try (vm_compute; intuition discriminate).
  exists v, v'. split; [exact H1|]. split; assumption.
Defined.

End RatioExtras.

(* ------------------------------------------------------------------ *)
(** ** The set-up steps of the training graph *)

Module TraceExtras.

Import Mining MiningFacts Trace.

Section Reachable.

Variable Base : Type.
Variable sft : Base -> bool.
Variable setup : Base -> Base.
Hypothesis setup_sets_flag : forall b, sft (setup b) = true.

Local Abbreviation state := (model_state Base).
Local Abbreviation minimize := (minimize_loss sft setup).
Local Abbreviation ensure := (ensure_training_graph sft setup).
Local Abbreviation ok := (consistent sft).

(** A call appends events to the trace; it runs the two set-up steps
    exactly when their flags are unset, and it touches the attributes of
    no other variant. *)
Lemma minimize_trace (s : state) (v : variant) (opt : nat) (gs : option nat) :
  ok s ->
  exists op s' es,
    minimize v opt gs s = Ok (op, s') /\
    ok s' /\
    _training_vars_are_ready s' = true /\
    (forall v', v' <> v -> get v' s' = get v' s) /\
    trace s'
    = trace s
      ++ (if sft (base s) then [] else [SetupForTraining])
      ++ (if _training_vars_are_ready s then [] else [PrepareTrainingGraph])
      ++ es /\
    filter is_prepare es = [] /\
    filter is_setup es = [] /\
    base s' = (if sft (base s) then base s else setup (base s)).
Proof.
  intros Hok.
  assert (Hens : trace (ensure s)
                 = trace s
                   ++ (if sft (base s) then [] else [SetupForTraining])
                   ++ (if _training_vars_are_ready s then []
                       else [PrepareTrainingGraph]) /\
                 base (ensure s)
                 = (if sft (base s) then base s else setup (base s))).
  { unfold ensure_training_graph.
    destruct (sft (base s)) eqn:E1;
      destruct (_training_vars_are_ready s) eqn:E2; cbn;
      rewrite ?E2; cbn; rewrite ?app_nil_r, <- ?app_assoc; split; reflexivity. }
  destruct Hens as [Htr Hbase].
  destruct (@ensure_spec Base sft setup setup_sets_flag s Hok)
    as (Hok2 & Hr2 & Hg2 & _ & _ & Hsame).
  destruct (loss_is_build (get v s)) eqn:Hflag.
  - assert (Hready : _training_vars_are_ready s = true)
      by (eapply built_is_ready; eassumption).
    assert (Hset : sft (base s) = true).
    { destruct Hok as (_ & Hb & _). now apply Hb. }
    pose proof Hok as (_ & _ & Hc & _).
    destruct (Hc v Hflag) as (node & bound & op & _ & Hopt & _).
    rewrite Hready, Hset. cbn [app].
    destruct (Nat.eq_dec bound opt) as [-> | Hne].
    + destruct (@minimize_cached Base sft setup setup_sets_flag s v opt gs
                                 Hok Hflag Hopt) as (op' & _ & Hmin).
      exists op', s, []. rewrite app_nil_r.
      repeat (split; [assumption || reflexivity|]). reflexivity.
    + destruct (@minimize_rebind Base sft setup setup_sets_flag s v opt bound gs
                                 Hok Hflag Hopt Hne)
        as (nd & s' & _ & Hmin & Hok' & Htrace & _ & Hoth & _ & Hr' & Hb').
      exists (mk_train_op opt nd gs (S (fresh s))), s',
             [PrintLine "New optimizer is used."; Minimize v opt nd;
              InitOptimizerVars opt].
      repeat (split; [assumption || reflexivity|]). exact Hb'.
  - destruct (@minimize_first Base sft setup setup_sets_flag s v opt gs
                              Hok Hflag)
      as (op & s' & Hmin & Hok' & Hfl & _ & _ & _ & _ & _ & Hoth).
    set (s2 := ensure s) in *.
    set (y := build_loss v s2).
    assert (Hfy : final_loss (get v y) = Some (S (S (fresh s2)))).
    { unfold y, build_loss, fresh.
      destruct v; simpl; rewrite !length_app; simpl; repeat f_equal; lia. }
    destruct (bind_optimizer_spec y v opt gs Hfy)
      as (s1 & Hbind & Hget & _ & Htr1 & Hbase1 & _).
    assert (Hflag2 : loss_is_build (get v s2) = false) by (now rewrite Hg2).
    assert (Hmin' : minimize v opt gs s
                    = Ok (mk_train_op opt (S (S (fresh s2))) gs (fresh y), s1)).
    { unfold minimize_loss. fold s2. rewrite Hflag2. cbn [negb].
      fold y. rewrite Hbind. cbn [Py.bind]. rewrite Hget.
      cbn [optimizer Py.bind cached_op]. rewrite Nat.eqb_refl.
      cbn [negb Py.bind]. rewrite Hget. reflexivity. }
    rewrite Hmin in Hmin'. injection Hmin' as -> ->.
    assert (Hty : trace y
                  = trace s2 ++ [SetupLossInputs v; BuildLocLoss; BuildLoss v]).
    { unfold y, build_loss. destruct v; simpl; now rewrite <- !app_assoc. }
    assert (Hby : base y = base s2)
      by (unfold y, build_loss; destruct v; reflexivity).
    eexists _, s1,
      [SetupLossInputs v; BuildLocLoss; BuildLoss v;
       Minimize v opt (S (S (fresh s2))); InitOptimizerVars opt].
    split; [exact Hmin|]. split; [exact Hok'|].
    split; [eapply built_is_ready; eassumption|].
    split; [exact Hoth|].
    split.
    { rewrite Htr1, Hty, Htr, <- !app_assoc. reflexivity. }
    split; [reflexivity|]. split; [reflexivity|].
    now rewrite Hbase1, Hby.
Qed.

(** What the trace and the base class's flag say together, at every
    state that training calls reach from the state [init_state b]. *)
Local Abbreviation counted b s :=
  (prepares s = (if _training_vars_are_ready s then 1%nat else 0%nat) /\
   ((setups s = 0%nat /\ base s = b) \/
    (setups s = 1%nat /\ sft b = false /\ sft (base s) = true))).

Lemma count_app (f : event -> bool) (a b : list event) :
  length (filter f (a ++ b)) = (length (filter f a) + length (filter f b))%nat.
Proof. now rewrite filter_app, length_app. Qed.

Lemma minimize_counted (b : Base) (s : state) (v : variant) (opt : nat)
      (gs : option nat) :
  ok s -> counted b s ->
  exists op s',
    minimize v opt gs s = Ok (op, s') /\
    ok s' /\
    _training_vars_are_ready s' = true /\
    sft (base s') = true /\
    counted b s' /\
    (forall v', v' <> v -> get v' s' = get v' s).
Proof.
  intros Hok [Hp Hs].
  destruct (@minimize_trace s v opt gs Hok)
    as (op & s' & es & Hmin & Hok' & Hr' & Hoth & Htr & Hep & Hes & Hb').
  exists op, s'. split; [exact Hmin|]. split; [exact Hok'|].
  split; [exact Hr'|].
  assert (Hflag : sft (base s') = true).
  { destruct Hok' as (_ & Hf & _). now apply Hf. }
  split; [exact Hflag|]. split; [|exact Hoth]. split.
  - unfold prepares in *. rewrite Htr, !count_app, Hep, Hp, Hr'.
    destruct (sft (base s)); destruct (_training_vars_are_ready s);
      reflexivity.
  - unfold setups in *. rewrite Htr, !count_app, Hes.
    destruct Hs as [[H0 Hb] | [H1 [Hf Hf']]].
    + rewrite H0. destruct (sft (base s)) eqn:E.
      * left. rewrite Hb'. split; [|exact Hb].
        destruct (_training_vars_are_ready s); reflexivity.
      * right. rewrite Hb in E. split; [|split; [exact E | exact Hflag]].
        destruct (_training_vars_are_ready s); reflexivity.
    + rewrite H1, Hf'. right. split; [|split; [exact Hf | exact Hflag]].
      destruct (_training_vars_are_ready s); reflexivity.
Qed.

Lemma run_counted (b : Base) (calls : list call) :
  forall s,
    ok s -> counted b s ->
    exists s',
      run sft setup calls s = Some s' /\
      ok s' /\ counted b s' /\
      (calls <> [] ->
       _training_vars_are_ready s' = true /\ sft (base s') = true).
Proof.
  induction calls as [|[[v opt] gs] calls IH]; intros s Hok Hc.
  - exists s. split; [reflexivity|]. split; [exact Hok|].
    split; [exact Hc|]. intros H. now contradiction H.
  - destruct (@minimize_counted b s v opt gs Hok Hc)
      as (op & s1 & Hmin & Hok1 & Hr1 & Hf1 & Hc1 & _).
    destruct (IH s1 Hok1 Hc1) as (s' & Hrun & Hok' & Hc' & Hne).
    exists s'. split; [cbn [run]; now rewrite Hmin|].
    split; [exact Hok'|]. split; [exact Hc'|]. intros _.
    destruct calls as [|c calls].
    + cbn [run] in Hrun. injection Hrun as <-. now split.
    + apply Hne. discriminate.
Qed.

End Reachable.

(** X22. The two set-up steps of training run once.  Over any sequence
    of training calls from the state that [__init__] leaves, in any
    order of the three variants and with any optimizers,
    [_prepare_training_graph] runs exactly once (never for an empty
    sequence), and the base class's [_setup_for_training] runs exactly
    once if the model was not set for training before and never
    otherwise; and no call changes the loss, the optimizer or the train
    operation of a variant other than its own. *)
Theorem training_graph_is_prepared_once
        (Base : Type) (sft : Base -> bool) (setup : Base -> Base)
        (b : Base) (calls : list call) :
  (forall x, sft (setup x) = true) ->
  exists s,
    run sft setup calls (init_state b) = Some s /\
    prepares s = (if called Focal calls || called TopK calls || called Scan calls
                  then 1 else 0)%nat /\
    setups s = (if called Focal calls || called TopK calls || called Scan calls
                then (if sft b then 0 else 1) else 0)%nat /\
    forall v opt gs,
    exists op s',
      minimize_loss sft setup v opt gs s = Ok (op, s') /\
      (forall v', v' <> v -> get v' s' = get v' s) /\
      prepares s' = 1%nat /\
      setups s' = (if sft b then 0 else 1)%nat.
Proof.
  intros Hsetup.
  assert (Hinit : prepares (init_state b)
                  = (if _training_vars_are_ready (init_state b) then 1 else 0)%nat /\
                  ((setups (init_state b) = 0%nat /\ base (init_state b) = b) \/
                   (setups (init_state b) = 1%nat /\ sft b = false /\
                    sft (base (init_state b)) = true))).
  { split; [reflexivity|]. left. split; reflexivity. }
  destruct (@run_counted Base sft setup Hsetup b calls (init_state b)
                         (init_consistent sft b) Hinit)
    as (s & Hrun & Hok & [Hp Hs] & Hne).
  assert (Hexact : forall x : model_state Base,
             _training_vars_are_ready x = true -> sft (base x) = true ->
             prepares x = (if _training_vars_are_ready x then 1 else 0)%nat ->
             ((setups x = 0%nat /\ base x = b) \/
              (setups x = 1%nat /\ sft b = false /\ sft (base x) = true)) ->
             prepares x = 1%nat /\ setups x = (if sft b then 0 else 1)%nat).
  { intros x Hr Hf Hpx Hsx. rewrite Hr in Hpx. split; [exact Hpx|].
    destruct Hsx as [[H0 Hb] | [H1 [Hfb _]]].
    - rewrite Hb in Hf. now rewrite Hf.
    - now rewrite Hfb. }
  exists s. split; [exact Hrun|].
  assert (Hcalled : called Focal calls || called TopK calls || called Scan calls
                    = match calls with [] => false | _ => true end).
  { destruct calls as [|[[v opt] gs] calls]; [reflexivity|].
    cbn [called existsb fst]. destruct v; cbn; rewrite ?orb_true_r; reflexivity. }
  rewrite Hcalled.
  split; [|split].
  - destruct calls as [|c calls].
    + cbn [run] in Hrun. injection Hrun as <-. reflexivity.
    + destruct Hne as [Hr Hf]; [discriminate|].
      now destruct (Hexact s Hr Hf Hp Hs).
  - destruct calls as [|c calls].
    + cbn [run] in Hrun. injection Hrun as <-. reflexivity.
    + destruct Hne as [Hr Hf]; [discriminate|].
      now destruct (Hexact s Hr Hf Hp Hs).
  - intros v opt gs.
    destruct (@minimize_counted Base sft setup Hsetup b s v opt gs Hok
                                (conj Hp Hs))
      as (op & s' & Hmin & _ & Hr' & Hf' & [Hp' Hs'] & Hoth).
    exists op, s'. split; [exact Hmin|]. split; [exact Hoth|].
    exact (Hexact s' Hr' Hf' Hp' Hs').
Qed.

Lemma training_graph_is_prepared_once_witness :
  exists s,
    run (fun flag : bool => flag) (fun _ => true)
        [(Focal, 1%nat, None); (TopK, 2%nat, None); (Focal, 3%nat, None)]
        (init_state false) = Some s /\
    prepares s = 1%nat /\ setups s = 1%nat.
Proof.
  destruct (@training_graph_is_prepared_once
              bool (fun flag => flag) (fun _ => true) false
              [(Focal, 1%nat, None); (TopK, 2%nat, None); (Focal, 3%nat, None)])
    as (s & Hrun & Hp & Hs & _); [reflexivity|].
  exists s. split; [exact Hrun|]. split; [exact Hp | exact Hs].
Defined.

End TraceExtras.

(* ------------------------------------------------------------------ *)
(** ** Small ratios of negatives *)

Module SmallRatio.

Import Loss GeometryFacts TensorFacts LossClaims ScanClaims GuardClaims LossExtras.
Local Open Scope Q_scope.






End SmallRatio.

(* ------------------------------------------------------------------ *)
(** ** The balancer and the number of cardinalities *)

Module BalancerSizes.

Import Balancer BalancerFacts.

(** X25. [reset] with a number of initial cardinalities other than the
    number of groups raises [ValueError] (at [tf.matmul]) whatever the
    objective named, prints nothing, and has by then replaced
    [cardinalities] by a new variable of the wrong size; every other
    attribute keeps its value, so that [_build_train_op] goes on as
    before the call.  The constructor raises the same error.  With the
    right number no [reset] and no construction raises [ValueError]. *)
Theorem reset_checks_the_size_late
        (initial_c : list Q) (name : string) (b : gd_balancer) (w : world) :
  (vecs_cols b <> length initial_c ->
   let r := reset initial_c name b w in
   raised r = Some ValueError /\
   stdout (env r) = stdout w /\
   variables_created (env r) = S (variables_created w) /\
   cardinalities (self r)
   = Some (Variable_ (variables_created w) (map (fun c => [c]) initial_c)
                     (min_amount b) (max_amount b)) /\
   scaled_hcvgs (self r) = scaled_hcvgs b /\
   objective (self r) = objective b /\
   optimizer (self r) = optimizer b /\
   train_op (self r) = train_op b /\
   (forall opt,
       fst (_build_train_op opt (self r)) = fst (_build_train_op opt b))) /\
  (forall hcv_groups min_c max_c,
      length hcv_groups <> length initial_c ->
      raised (init hcv_groups initial_c name min_c max_c w) = Some ValueError) /\
  (vecs_cols b = length initial_c ->
   raised (reset initial_c name b w) <> Some ValueError).
Proof.
  assert (Hbad : forall b0 : gd_balancer,
             vecs_cols b0 <> length initial_c ->
             reset initial_c name b0 w
             = mk_ended (Some ValueError)
                 (set_cardinalities
                    (Variable_ (variables_created w)
                               (map (fun c => [c]) initial_c)
                               (min_amount b0) (max_amount b0)) b0)
                 (mk_world (S (variables_created w)) (stdout w))).
  { intros b0 Hne. unfold reset. cbn [set_cardinalities vecs_cols].
    apply Nat.eqb_neq in Hne. rewrite Hne. reflexivity. }
  split; [|split].
  - intros Hne r. unfold r. rewrite (Hbad b Hne). cbn.
    repeat (split; [reflexivity|]).
    intros opt. unfold _build_train_op. cbn.
    destruct (optimizer b) as [[o|]|]; cbn; try reflexivity.
    + destruct (negb (o =? opt)%nat); cbn.
      * destruct (objective b); reflexivity.
      * destruct (train_op b); reflexivity.
    + destruct (objective b); reflexivity.
  - intros hcv_groups min_c max_c Hne. unfold init.
    rewrite Hbad by exact Hne. reflexivity.
  - intros Hcols. unfold reset. cbn [set_cardinalities vecs_cols].
    rewrite Hcols, Nat.eqb_refl. cbn [negb]. unfold _build_objective.
    cbn [set_scaled_hcvgs set_cardinalities scaled_hcvgs cardinalities].
    destruct (String.eqb name "alpha"); [cbn; discriminate|].
    destruct (String.eqb name "geo"); cbn; discriminate.
Qed.

Lemma reset_checks_the_size_late_witness :
  let r := reset [30; 40; 50]%Q "alpha"%string trained (env built) in
  raised r = Some ValueError /\
  objective (self r) = objective trained /\
  cardinalities (self r) <> cardinalities trained.
Proof.
  destruct (@reset_checks_the_size_late [30; 40; 50]%Q "alpha"%string trained
                                        (env built))
    as [H _].
  destruct H as (Hr & _ & _ & Hc & _ & Ho & _); [vm_compute; lia|].
  split; [exact Hr|]. split; [exact Ho|].
  rewrite Hc. discriminate.
Defined.

End BalancerSizes.

(* ------------------------------------------------------------------ *)
(** ** A shuffle that raises *)

Module ShuffleExtras.

Import Fit FitFacts.
Local Open Scope Q_scope.

Section Driver.

Variable session_run : nat -> nat -> run_outcome.
Variable shuffle : nat -> option (exc_class * string).
Variables (n_losses n_batches : nat).

Local Abbreviation epochs_from :=
  (epoch_loop session_run shuffle n_losses n_batches).

Lemma epoch_loop_app (l1 l2 : list nat) :
  forall st,
    epochs_from (l1 ++ l2) st
    = match epochs_from l1 st with
      | (Normal, st') => epochs_from l2 st'
      | (Propagate ex, st') => (Propagate ex, st')
      end.
Proof.
  induction l1 as [|i l1 IH]; intros st; [reflexivity|].
  cbn [app epoch_loop].
  destruct (epoch_body session_run shuffle n_losses n_batches i st)
    as [[|ex] st']; [apply IH | reflexivity].
Qed.

End Driver.

(** X26. An exception that [shuffle] raises is swallowed in silence.
    The call of [shuffle] stands outside the inner [try], so that
    whatever it raises in some epoch (an error derived from [Exception]
    included, such as the [ValueError] for arrays of different lengths)
    goes to the [finally] block, whose [return] discards it: the method
    returns the history of the epochs before, runs no batch of this or
    of a later epoch, and the last line it prints is
    ['Start shuffling...']; the exception is printed nowhere. *)
Theorem shuffle_failure_is_silent
        (D : Type) (session_run : nat -> nat -> run_outcome)
        (shuffle : nat -> option (exc_class * string))
        (n_losses epochs n_batches : nat) (to_dict : list (list Q) -> D)
        (i0 : nat) (c : exc_class) (args : string) :
  (i0 < epochs)%nat ->
  forallb (epoch_completes session_run shuffle n_batches) (range i0) = true ->
  shuffle i0 = Some (c, args) ->
  exists st pre closing,
    fit session_run shuffle n_losses epochs n_batches to_dict
    = Returns (to_dict (map (epoch_average session_run n_losses n_batches)
                            (range i0)), st) /\
    train_losses st
    = map (epoch_average session_run n_losses n_batches) (range i0) /\
    attempted st
    = flat_map (fun i => map (pair i) (range n_batches)) (range i0) /\
    console st = pre ++ [PrintStr "Start shuffling..."] ++ closing /\
    (closing = [] \/ closing = [IteratorClose]).
Proof.
  intros Hi Hall Hsh.
  assert (Hsplit : range epochs = range i0 ++ i0 :: seq (S i0) (epochs - S i0)).
  { unfold range.
    replace epochs with (i0 + S (epochs - S i0))%nat at 1 by lia.
    rewrite seq_app. reflexivity. }
  destruct (epoch_loop_complete session_run shuffle n_losses n_batches
                                (range i0) Hall (mk_locals [] [] true [] []))
    as (st1 & Hloop & Ht & Ha & _).
  cbn [train_losses attempted app] in Ht, Ha.
  unfold fit. rewrite Hsplit, epoch_loop_app, Hloop.
  cbn [epoch_loop]. unfold epoch_body. rewrite Hsh. cbn [fst snd try_finally].
  set (st2 := emit (PrintStr "Start shuffling...") st1).
  set (st := if iterator_is_none st2 then st2 else emit IteratorClose st2).
  assert (Ht' : train_losses st
                = map (epoch_average session_run n_losses n_batches) (range i0))
    by (unfold st; destruct (iterator_is_none st2); exact Ht).
  exists st, (console st1),
         (if iterator_is_none st2 then [] else [IteratorClose]).
  split; [now rewrite Ht'|]. split; [exact Ht'|].
  split; [unfold st; destruct (iterator_is_none st2); exact Ha|].
  split.
  - unfold st. destruct (iterator_is_none st2); cbn [console emit st2].
    + reflexivity.
    + now rewrite <- app_assoc.
  - destruct (iterator_is_none st2); [now left | now right].
Qed.

Lemma shuffle_failure_is_silent_witness :
  exists st,
    fit faulty_run
        (fun i => if (i =? 1)%nat
                  then Some (Derived "ValueError", "inconsistent numbers of samples"%string)
                  else None)
        3 4 2 focal_dict
    = Returns (focal_dict (map (epoch_average faulty_run 3 2) [0%nat]), st) /\
    attempted st = [(0, 0); (0, 1)]%nat.
Proof.
  destruct (@shuffle_failure_is_silent
              dict faulty_run
              (fun i => if (i =? 1)%nat
                        then Some (Derived "ValueError",
                                   "inconsistent numbers of samples"%string)
                        else None)
              3 4 2 focal_dict 1 (Derived "ValueError")
              "inconsistent numbers of samples"%string)
    as (st & _ & _ & Hfit & _ & Ha & _); [lia | reflexivity | reflexivity |].
  exists st. split; [exact Hfit | exact Ha].
Defined.

End ShuffleExtras.
